(** * react-unity-app: the Unity bridge, the typed event bus and the loader hook

    A shallow embedding of
    - [src/unity/unityBridge.js]   (module [Bridge]),
    - [src/unity/unityApi.js]      (module [Api]),
    - [src/unity/unityEventBus.js] (module [EventBus]),
    - [src/unity/useUnityLoader.js] and the effect of
      [components/unity/UnityGame.jsx] that hands the loaded instance to the
      bridge (module [Loader]),
    followed by the properties of the specification that were checked
    against it.

    The module-level singletons of the JavaScript files ([handlers],
    [queuedSends], [subscribers], ...) are the fields of explicit state
    records that every operation takes and returns.  JavaScript [Map]s and
    [Set]s iterate in insertion order, so they are kept as association
    lists and duplicate-free lists.  Calls that leave the modules (a host
    callback, [SendMessage], [Quit], [console.error], [JSON.parse]) are
    recorded in a trace. *)

From Stdlib Require Import List String Ascii ZArith Bool Lia Arith PeanoNat.
From Stdlib Require Import DecimalString.
Import ListNotations.
Open Scope string_scope.

(* ===================================================================== *)
(** * JavaScript values *)
(* ===================================================================== *)

Module Js.

(** Data values as they travel through the bridge.  Numbers are the integer
    fragment of JavaScript numbers; [VFun id] is a reference to a function of
    the host application, identified by [id]. *)
#[warnings="-register-all"]
Inductive JsVal : Type :=
| VUndefined
| VNull
| VBool (b : bool)
| VNum (n : Z)
| VStr (s : string)
| VArr (items : list JsVal)
| VObj (fields : list (string * JsVal))
| VFun (id : nat).

(** Equality of values.  On primitives and function references it is the
    [SameValueZero] comparison that [Map] and [Set] use for their keys. *)
Fixpoint eqb (a b : JsVal) {struct a} : bool :=
  match a, b with
  | VUndefined, VUndefined => true
  | VNull, VNull => true
  | VBool x, VBool y => Bool.eqb x y
  | VNum x, VNum y => Z.eqb x y
  | VStr x, VStr y => String.eqb x y
  | VArr xs, VArr ys =>
      (fix go (xs ys : list JsVal) {struct xs} : bool :=
         match xs, ys with
         | [], [] => true
         | x :: xs', y :: ys' => eqb x y && go xs' ys'
         | _, _ => false
         end) xs ys
  | VObj fs, VObj gs =>
      (fix go (fs gs : list (string * JsVal)) {struct fs} : bool :=
         match fs, gs with
         | [], [] => true
         | (k, x) :: fs', (k', y) :: gs' => String.eqb k k' && eqb x y && go fs' gs'
         | _, _ => false
         end) fs gs
  | VFun i, VFun j => Nat.eqb i j
  | _, _ => false
  end.

(** [typeof v] *)
Definition typeof (v : JsVal) : string :=
  match v with
  | VUndefined => "undefined"
  | VNull => "object"
  | VBool _ => "boolean"
  | VNum _ => "number"
  | VStr _ => "string"
  | VArr _ => "object"
  | VObj _ => "object"
  | VFun _ => "function"
  end.

(** [ToBoolean(v)]: the test of [if (v)], [!v], [a && b]. *)
Definition truthy (v : JsVal) : bool :=
  match v with
  | VUndefined => false
  | VNull => false
  | VBool b => b
  | VNum n => negb (Z.eqb n 0)
  | VStr s => negb (String.eqb s EmptyString)
  | VArr _ => true
  | VObj _ => true
  | VFun _ => true
  end.

Fixpoint assoc (k : string) (fs : list (string * JsVal)) : option JsVal :=
  match fs with
  | [] => None
  | (k', v) :: rest => if String.eqb k k' then Some v else assoc k rest
  end.

(** [v.k] for the own data properties of an object literal; the names read
    by the bridge ([type], [payload], [meta]) are not properties of arrays
    or functions, and primitives are never read. *)
Definition get (v : JsVal) (k : string) : JsVal :=
  match v with
  | VObj fs => match assoc k fs with Some x => x | None => VUndefined end
  | _ => VUndefined
  end.

(** A completion: the call returns a value or throws one. *)
Inductive Completion (A : Type) : Type :=
| Returns (a : A)
| Throws (e : JsVal).
Arguments Returns {A} a.
Arguments Throws {A} e.


(** [new Error(msg)] as a value. *)
Definition Error (msg : string) : JsVal := VObj [("message", VStr msg)].

(** The platform built-ins the bridge calls.  [JSON_stringify] returns a
    string or [undefined], or throws; [JSON_parse] returns a value or throws
    a [SyntaxError]; [String_] is the conversion [String(v)].  Of their
    behaviour only one fact is used: [JSON.stringify(undefined)] is
    [undefined] (ECMA-262, JSON.stringify, last step). *)
Class Builtins : Type := {
  JSON_parse : string -> Completion JsVal;
  JSON_stringify : JsVal -> Completion JsVal;
  String_ : JsVal -> string;
  JSON_stringify_undefined : JSON_stringify VUndefined = Returns VUndefined
}.

End Js.
Export Js.

(* ===================================================================== *)
(** * A reference implementation of the JSON built-ins *)
(* ===================================================================== *)

(** [RefJson] implements [JSON.stringify] and [JSON.parse] on the values of
    [JsVal], after ECMA-262 (SerializeJSONProperty, QuoteJSONString) and the
    JSON grammar, for the fragment the value type covers: integer number
    literals (no fraction, no exponent) and, inside strings, the
    two-character escapes and [\u00XX] below 0x80. *)
Module RefJson.

Definition dquote : ascii := ascii_of_nat 34.

Definition Z_to_string (n : Z) : string := NilZero.string_of_int (Z.to_int n).

Definition hex_digit (n : nat) : ascii :=
  match n with
  | 0 => "0" | 1 => "1" | 2 => "2" | 3 => "3" | 4 => "4" | 5 => "5" | 6 => "6"
  | 7 => "7" | 8 => "8" | 9 => "9" | 10 => "a" | 11 => "b" | 12 => "c"
  | 13 => "d" | 14 => "e" | _ => "f"
  end%char.

(** QuoteJSONString, one code unit. *)
Definition quote_char (c : ascii) : string :=
  let n := nat_of_ascii c in
  if Nat.eqb n 8 then "\b"
  else if Nat.eqb n 9 then "\t"
  else if Nat.eqb n 10 then "\n"
  else if Nat.eqb n 12 then "\f"
  else if Nat.eqb n 13 then "\r"
  else if Nat.eqb n 34 then String "\" (String dquote EmptyString)
  else if Nat.eqb n 92 then "\\"
  else if Nat.ltb n 32 then
    "\u00" ++ String (hex_digit (n / 16)) (String (hex_digit (n mod 16)) EmptyString)
  else String c EmptyString.

Fixpoint quote_body (s : string) : string :=
  match s with
  | EmptyString => EmptyString
  | String c r => quote_char c ++ quote_body r
  end.

Definition quote (s : string) : string :=
  String dquote (quote_body s ++ String dquote EmptyString).

Fixpoint join (sep : string) (l : list string) : string :=
  match l with
  | [] => EmptyString
  | [x] => x
  | x :: rest => x ++ sep ++ join sep rest
  end.

(** SerializeJSONProperty: [None] is the result [undefined]. *)
Fixpoint serialize (v : JsVal) : option string :=
  match v with
  | VUndefined => None
  | VFun _ => None
  | VNull => Some "null"
  | VBool true => Some "true"
  | VBool false => Some "false"
  | VNum n => Some (Z_to_string n)
  | VStr s => Some (quote s)
  | VArr items =>
      Some ("[" ++ join ","
              (map (fun x => match serialize x with Some t => t | None => "null" end)
                 items) ++ "]")
  | VObj fields =>
      Some ("{" ++ join ","
              (flat_map (fun kv => match serialize (snd kv) with
                                   | Some t => [quote (fst kv) ++ ":" ++ t]
                                   | None => []
                                   end) fields) ++ "}")
  end.

Definition stringify (v : JsVal) : Completion JsVal :=
  match serialize v with
  | Some s => Returns (VStr s)
  | None => Returns VUndefined
  end.

(** [String(v)]; the source text of a function is not part of the model. *)
Definition to_String (v : JsVal) : string :=
  match v with
  | VUndefined => "undefined"
  | VNull => "null"
  | VBool true => "true"
  | VBool false => "false"
  | VNum n => Z_to_string n
  | VStr s => s
  | VArr items =>
      join "," (map (fun x => match x with
                              | VUndefined | VNull => EmptyString
                              | VBool true => "true"
                              | VBool false => "false"
                              | VNum n => Z_to_string n
                              | VStr s => s
                              | VArr _ => EmptyString
                              | VObj _ => "[object Object]"
                              | VFun _ => "function () { }"
                              end) items)
  | VObj _ => "[object Object]"
  | VFun _ => "function () { }"
  end.

(** ** The parser *)

Definition is_ws (c : ascii) : bool :=
  let n := nat_of_ascii c in
  Nat.eqb n 32 || Nat.eqb n 9 || Nat.eqb n 10 || Nat.eqb n 13.

Definition is_digit (c : ascii) : bool :=
  let n := nat_of_ascii c in Nat.leb 48 n && Nat.leb n 57.

Definition digit_val (c : ascii) : Z := Z.of_nat (nat_of_ascii c - 48).

Definition hex_val (c : ascii) : option nat :=
  let n := nat_of_ascii c in
  if Nat.leb 48 n && Nat.leb n 57 then Some (n - 48)
  else if Nat.leb 97 n && Nat.leb n 102 then Some (n - 87)
  else if Nat.leb 65 n && Nat.leb n 70 then Some (n - 55)
  else None.

Fixpoint skip_ws (s : string) : string :=
  match s with
  | String c r => if is_ws c then skip_ws r else s
  | EmptyString => s
  end.

(** [expect lit s]: [s] without its prefix [lit]. *)
Fixpoint expect (lit s : string) : option string :=
  match lit with
  | EmptyString => Some s
  | String c lit' =>
      match s with
      | String d r => if Ascii.eqb c d then expect lit' r else None
      | EmptyString => None
      end
  end.

Fixpoint digits (acc : Z) (s : string) : Z * string :=
  match s with
  | String c r => if is_digit c then digits (acc * 10 + digit_val c) r else (acc, s)
  | EmptyString => (acc, s)
  end.

(** An integer literal: [0], or a non-zero digit followed by digits; a
    fraction or exponent part after it is outside the fragment. *)
Definition parse_nat_lit (s : string) : option (Z * string) :=
  match s with
  | String c r =>
      if Ascii.eqb c "0" then
        match r with
        | String d _ => if is_digit d then None else Some (0%Z, r)
        | EmptyString => Some (0%Z, r)
        end
      else if is_digit c then Some (digits (digit_val c) r)
      else None
  | EmptyString => None
  end.

Definition no_fraction (s : string) : bool :=
  match s with
  | String c _ => negb (Ascii.eqb c "." || Ascii.eqb c "e" || Ascii.eqb c "E")
  | EmptyString => true
  end.

Definition parse_number (s : string) : option (Z * string) :=
  let '(neg, body) :=
    match s with
    | String c r => if Ascii.eqb c "-" then (true, r) else (false, s)
    | EmptyString => (false, s)
    end in
  match parse_nat_lit body with
  | Some (n, rest) =>
      if no_fraction rest then Some (if neg then (- n)%Z else n, rest) else None
  | None => None
  end.

(** The characters of a string literal after its opening quote. *)
Fixpoint parse_string_body (s : string) : option (string * string) :=
  match s with
  | EmptyString => None
  | String c r =>
      if Ascii.eqb c dquote then Some (EmptyString, r)
      else if Nat.ltb (nat_of_ascii c) 32 then None
      else if Ascii.eqb c "\" then
        match r with
        | String e r' =>
            let simple (x : ascii) :=
              match parse_string_body r' with
              | Some (t, rest) => Some (String x t, rest)
              | None => None
              end in
            if Ascii.eqb e dquote then simple dquote
            else if Ascii.eqb e "\" then simple "\"%char
            else if Ascii.eqb e "/" then simple "/"%char
            else if Ascii.eqb e "b" then simple (ascii_of_nat 8)
            else if Ascii.eqb e "f" then simple (ascii_of_nat 12)
            else if Ascii.eqb e "n" then simple (ascii_of_nat 10)
            else if Ascii.eqb e "r" then simple (ascii_of_nat 13)
            else if Ascii.eqb e "t" then simple (ascii_of_nat 9)
            else if Ascii.eqb e "u" then
              match r' with
              | String h1 (String h2 (String h3 (String h4 r''))) =>
                  match hex_val h1, hex_val h2, hex_val h3, hex_val h4 with
                  | Some 0, Some 0, Some a, Some b =>
                      if Nat.ltb a 8 then
                        match parse_string_body r'' with
                        | Some (t, rest) => Some (String (ascii_of_nat (a * 16 + b)) t, rest)
                        | None => None
                        end
                      else None
                  | _, _, _, _ => None
                  end
              | _ => None
              end
            else None
        | EmptyString => None
        end
      else
        match parse_string_body r with
        | Some (t, rest) => Some (String c t, rest)
        | None => None
        end
  end.

(** A later member with the same name replaces the value of the earlier one. *)
Fixpoint set_field (k : string) (v : JsVal) (fs : list (string * JsVal)) :=
  match fs with
  | [] => [(k, v)]
  | (k', x) :: rest =>
      if String.eqb k k' then (k', v) :: rest else (k', x) :: set_field k v rest
  end.

Fixpoint parse_value (fuel : nat) (s : string) {struct fuel} : option (JsVal * string) :=
  match fuel with
  | 0 => None
  | S f =>
      match skip_ws s with
      | EmptyString => None
      | String c r =>
          if Ascii.eqb c "n" then option_map (pair VNull) (expect "ull" r)
          else if Ascii.eqb c "t" then option_map (pair (VBool true)) (expect "rue" r)
          else if Ascii.eqb c "f" then option_map (pair (VBool false)) (expect "alse" r)
          else if Ascii.eqb c dquote then
            match parse_string_body r with
            | Some (t, rest) => Some (VStr t, rest)
            | None => None
            end
          else if Ascii.eqb c "[" then
            match skip_ws r with
            | String "]" rest => Some (VArr [], rest)
            | _ => match parse_elements f r with
                   | Some (vs, rest) => Some (VArr vs, rest)
                   | None => None
                   end
            end
          else if Ascii.eqb c "{" then
            match skip_ws r with
            | String "}" rest => Some (VObj [], rest)
            | _ => match parse_members f [] r with
                   | Some (fs, rest) => Some (VObj fs, rest)
                   | None => None
                   end
            end
          else
            match parse_number (String c r) with
            | Some (n, rest) => Some (VNum n, rest)
            | None => None
            end
      end
  end
with parse_elements (fuel : nat) (s : string) {struct fuel} : option (list JsVal * string) :=
  match fuel with
  | 0 => None
  | S f =>
      match parse_value f s with
      | Some (v, r) =>
          match skip_ws r with
          | String "," r' =>
              match parse_elements f r' with
              | Some (vs, rest) => Some (v :: vs, rest)
              | None => None
              end
          | String "]" rest => Some ([v], rest)
          | _ => None
          end
      | None => None
      end
  end
with parse_members (fuel : nat) (acc : list (string * JsVal)) (s : string) {struct fuel}
  : option (list (string * JsVal) * string) :=
  match fuel with
  | 0 => None
  | S f =>
      match skip_ws s with
      | String q r =>
          if Ascii.eqb q dquote then
            match parse_string_body r with
            | Some (k, r1) =>
                match skip_ws r1 with
                | String ":" r2 =>
                    match parse_value f r2 with
                    | Some (v, r3) =>
                        match skip_ws r3 with
                        | String "," r4 => parse_members f (set_field k v acc) r4
                        | String "}" rest => Some (set_field k v acc, rest)
                        | _ => None
                        end
                    | None => None
                    end
                | _ => None
                end
            | None => None
            end
          else None
      | EmptyString => None
      end
  end.

Definition SyntaxError : JsVal := Error "Unexpected token in JSON".

(** [JSON.parse(text)]: one value, surrounded by white space only.  Every
    recursive call consumes a character, so the length of the text (plus one)
    is fuel enough. *)
Definition parse (text : string) : Completion JsVal :=
  match parse_value (S (String.length text)) text with
  | Some (v, rest) =>
      match skip_ws rest with
      | EmptyString => Returns v
      | _ => Throws SyntaxError
      end
  | None => Throws SyntaxError
  end.

#[export] Instance builtins : Builtins :=
  {| JSON_parse := parse; JSON_stringify := stringify; String_ := to_String;
     JSON_stringify_undefined := eq_refl |}.

End RefJson.

(* ===================================================================== *)
(** * The shared world: module singletons, allocation, trace *)
(* ===================================================================== *)

(** The embedded engine instance: an object with an identity, possibly a
    [SendMessage] method (its behaviour on the three arguments) and possibly
    a [Quit] method. *)
Record Instance : Type := {
  inst_id : nat;
  SendMessage : option (JsVal -> JsVal -> JsVal -> Completion JsVal);
  Quit : option (Completion JsVal)
}.

(** [{ objectName, methodName, payload }], one entry of [queuedSends]. *)
Record OutboundMessage : Type := {
  objectName : JsVal;
  methodName : JsVal;
  payload : JsVal
}.

(** A member of the event bus's subscriber sets: a value handed over by the
    host, or the closure [wrapped] that the [n]-th call of [once] created
    (it captures [type] and [handler]). *)
Inductive Subscriber : Type :=
| SubVal (v : JsVal)
| SubOnce (n : nat) (type handler : JsVal).

(** A member of the bridge's [globalHandlers]: a value handed over by the
    host, or the event bus's [_globalForwarder]. *)
Inductive Observer : Type :=
| ObsVal (v : JsVal)
| ObsForwarder.

(** What was called. *)
Inductive Callee : Type :=
| CHost (id : nat)
| CForwarder
| COnce (n : nat).

Inductive Event : Type :=
| Call (f : Callee) (args : list JsVal)
| CallSendMessage (inst : nat) (objectName methodName arg : JsVal)
| CallQuit (inst : nat)
| CallJsonParse (text : string)
| ConsoleError (msg : string) (e : JsVal)
| ConsoleWarn (msg : string).

Inductive PromiseState : Type :=
| Pending
| Fulfilled (v : option Instance).

Record World : Type := {
  (* unityBridge.js *)
  handlers : list (JsVal * list JsVal);
  globalHandlers : list Observer;
  unityInstance : option Instance;
  queuedSends : list OutboundMessage;
  _readyPromise : option nat;
  _readyResolve : option nat;
  (* unityEventBus.js *)
  subscribers : list (JsVal * list Subscriber);
  _installed : bool;
  (* promises created so far (a promise is its index), closures created by
     [once] so far, and everything that was called *)
  promises : list PromiseState;
  closures : nat;
  trace : list Event
}.

(** The state right after the modules were loaded. *)
Definition initial : World :=
  {| handlers := []; globalHandlers := []; unityInstance := None;
     queuedSends := []; _readyPromise := None; _readyResolve := None;
     subscribers := []; _installed := false;
     promises := []; closures := 0; trace := [] |}.

Definition set_handlers x (w : World) : World :=
  {| handlers := x; globalHandlers := globalHandlers w;
     unityInstance := unityInstance w; queuedSends := queuedSends w;
     _readyPromise := _readyPromise w; _readyResolve := _readyResolve w;
     subscribers := subscribers w; _installed := _installed w;
     promises := promises w; closures := closures w; trace := trace w |}.
Definition set_globalHandlers x (w : World) : World :=
  {| handlers := handlers w; globalHandlers := x;
     unityInstance := unityInstance w; queuedSends := queuedSends w;
     _readyPromise := _readyPromise w; _readyResolve := _readyResolve w;
     subscribers := subscribers w; _installed := _installed w;
     promises := promises w; closures := closures w; trace := trace w |}.
Definition set_unityInstance x (w : World) : World :=
  {| handlers := handlers w; globalHandlers := globalHandlers w;
     unityInstance := x; queuedSends := queuedSends w;
     _readyPromise := _readyPromise w; _readyResolve := _readyResolve w;
     subscribers := subscribers w; _installed := _installed w;
     promises := promises w; closures := closures w; trace := trace w |}.
Definition set_queuedSends x (w : World) : World :=
  {| handlers := handlers w; globalHandlers := globalHandlers w;
     unityInstance := unityInstance w; queuedSends := x;
     _readyPromise := _readyPromise w; _readyResolve := _readyResolve w;
     subscribers := subscribers w; _installed := _installed w;
     promises := promises w; closures := closures w; trace := trace w |}.
Definition set_readyPromise x (w : World) : World :=
  {| handlers := handlers w; globalHandlers := globalHandlers w;
     unityInstance := unityInstance w; queuedSends := queuedSends w;
     _readyPromise := x; _readyResolve := _readyResolve w;
     subscribers := subscribers w; _installed := _installed w;
     promises := promises w; closures := closures w; trace := trace w |}.
Definition set_readyResolve x (w : World) : World :=
  {| handlers := handlers w; globalHandlers := globalHandlers w;
     unityInstance := unityInstance w; queuedSends := queuedSends w;
     _readyPromise := _readyPromise w; _readyResolve := x;
     subscribers := subscribers w; _installed := _installed w;
     promises := promises w; closures := closures w; trace := trace w |}.
Definition set_subscribers x (w : World) : World :=
  {| handlers := handlers w; globalHandlers := globalHandlers w;
     unityInstance := unityInstance w; queuedSends := queuedSends w;
     _readyPromise := _readyPromise w; _readyResolve := _readyResolve w;
     subscribers := x; _installed := _installed w;
     promises := promises w; closures := closures w; trace := trace w |}.
Definition set_installed x (w : World) : World :=
  {| handlers := handlers w; globalHandlers := globalHandlers w;
     unityInstance := unityInstance w; queuedSends := queuedSends w;
     _readyPromise := _readyPromise w; _readyResolve := _readyResolve w;
     subscribers := subscribers w; _installed := x;
     promises := promises w; closures := closures w; trace := trace w |}.
Definition set_promises x (w : World) : World :=
  {| handlers := handlers w; globalHandlers := globalHandlers w;
     unityInstance := unityInstance w; queuedSends := queuedSends w;
     _readyPromise := _readyPromise w; _readyResolve := _readyResolve w;
     subscribers := subscribers w; _installed := _installed w;
     promises := x; closures := closures w; trace := trace w |}.
Definition set_closures x (w : World) : World :=
  {| handlers := handlers w; globalHandlers := globalHandlers w;
     unityInstance := unityInstance w; queuedSends := queuedSends w;
     _readyPromise := _readyPromise w; _readyResolve := _readyResolve w;
     subscribers := subscribers w; _installed := _installed w;
     promises := promises w; closures := x; trace := trace w |}.
Definition set_trace x (w : World) : World :=
  {| handlers := handlers w; globalHandlers := globalHandlers w;
     unityInstance := unityInstance w; queuedSends := queuedSends w;
     _readyPromise := _readyPromise w; _readyResolve := _readyResolve w;
     subscribers := subscribers w; _installed := _installed w;
     promises := promises w; closures := closures w; trace := x |}.

(* ===================================================================== *)
(** * Maps and sets in insertion order *)
(* ===================================================================== *)

Section Collections.
Context {K V : Type}.
Variable keq : K -> K -> bool.

(** [m.get(k)] *)
Fixpoint map_get (k : K) (m : list (K * V)) : option V :=
  match m with
  | [] => None
  | (k', v) :: rest => if keq k k' then Some v else map_get k rest
  end.

(** [m.has(k)] *)
Definition map_has (k : K) (m : list (K * V)) : bool :=
  match map_get k m with Some _ => true | None => false end.

(** [m.set(k, v)]: an existing key keeps its place, a new one goes last. *)
Fixpoint map_set (k : K) (v : V) (m : list (K * V)) : list (K * V) :=
  match m with
  | [] => [(k, v)]
  | (k', x) :: rest =>
      if keq k k' then (k', v) :: rest else (k', x) :: map_set k v rest
  end.

(** [m.delete(k)] *)
Fixpoint map_delete (k : K) (m : list (K * V)) : list (K * V) :=
  match m with
  | [] => []
  | (k', x) :: rest =>
      if keq k k' then rest else (k', x) :: map_delete k rest
  end.

(** [s.has(x)] *)
Definition set_has (x : K) (s : list K) : bool := existsb (keq x) s.

(** [s.add(x)] *)
Definition set_add (x : K) (s : list K) : list K :=
  if set_has x s then s else s ++ [x].

(** [s.delete(x)] *)
Fixpoint set_delete (x : K) (s : list K) : list K :=
  match s with
  | [] => []
  | y :: rest => if keq x y then rest else y :: set_delete x rest
  end.
End Collections.

Definition sub_eqb (a b : Subscriber) : bool :=
  match a, b with
  | SubVal x, SubVal y => Js.eqb x y
  | SubOnce n t h, SubOnce n' t' h' => Nat.eqb n n' && Js.eqb t t' && Js.eqb h h'
  | _, _ => false
  end.

Definition obs_eqb (a b : Observer) : bool :=
  match a, b with
  | ObsVal x, ObsVal y => Js.eqb x y
  | ObsForwarder, ObsForwarder => true
  | _, _ => false
  end.

Definition sub_typeof (s : Subscriber) : string :=
  match s with SubVal v => typeof v | SubOnce _ _ _ => "function" end.

Definition obs_typeof (o : Observer) : string :=
  match o with ObsVal v => typeof v | ObsForwarder => "function" end.

(* ===================================================================== *)
(** * Statements: state and exceptions *)
(* ===================================================================== *)

(** A JavaScript statement: it changes the world and completes normally with
    a value, or abruptly with a thrown value. *)
Definition M (A : Type) : Type := World -> World * Completion A.

Definition ret {A} (a : A) : M A := fun w => (w, Returns a).

Definition throw {A} (e : JsVal) : M A := fun w => (w, Throws e).

Definition bind {A B} (m : M A) (k : A -> M B) : M B :=
  fun w => match m w with
           | (w', Returns a) => k a w'
           | (w', Throws e) => (w', Throws e)
           end.

Declare Scope js_scope.
Delimit Scope js_scope with js.
Notation "x <- m ;; k" := (bind m (fun x => k))
  (at level 61, m at next level, right associativity) : js_scope.
Notation "m ;; k" := (bind m (fun _ => k))
  (at level 61, right associativity) : js_scope.
Open Scope js_scope.

(** [try { body } catch (e) { handler }] *)
Definition try_catch {A} (body : M A) (handler : JsVal -> M A) : M A :=
  fun w => match body w with
           | (w', Returns a) => (w', Returns a)
           | (w', Throws e) => handler e w'
           end.

(** [try { body } finally { fin }] *)
Definition try_finally {A} (body : M A) (fin : M unit) : M A :=
  fun w => match body w with
           | (w1, r) =>
               match fin w1 with
               | (w2, Returns _) => (w2, r)
               | (w2, Throws e) => (w2, Throws e)
               end
           end.

Definition read {A} (f : World -> A) : M A := fun w => (w, Returns (f w)).

Definition modify (f : World -> World) : M unit := fun w => (f w, Returns tt).

Definition emit (ev : Event) : M unit :=
  modify (fun w => set_trace (trace w ++ [ev]) w).

(** [for (const x of l) { body }] over a list that the body does not change. *)
Fixpoint for_each {A} (l : list A) (body : A -> M unit) : M unit :=
  match l with
  | [] => ret tt
  | x :: rest => body x ;; for_each rest body
  end.

Definition console_error (msg : string) (e : JsVal) : M unit :=
  emit (ConsoleError msg e).

Definition console_warn (msg : string) : M unit := emit (ConsoleWarn msg).

Definition TypeError : JsVal := Error "not a function".

(** The [TypeError] of a parameter pattern that is given [null] to take a
    property from. *)
Definition DestructureError : JsVal :=
  Error "Cannot destructure property 'queue' of null".

(** The functions of the host application.  What a call does to the modules
    is what it returns or throws; that may depend on the arguments and on
    everything that happened before.  Host functions that call back into the
    bridge or the bus while they run are outside the model. *)
Class Host : Type := {
  host_fn : nat -> list JsVal -> list Event -> Completion JsVal
}.

(** [v(...args)] for a value held in one of the registries. *)
Definition call_value {H : Host} (v : JsVal) (args : list JsVal) : M JsVal :=
  match v with
  | VFun id =>
      past <- read trace ;;
      emit (Call (CHost id) args) ;;
      (fun w => (w, host_fn id args past))
  | _ => throw TypeError
  end.

(* ===================================================================== *)
(** * unityBridge.js *)
(* ===================================================================== *)

Module Bridge.
Section Bridge.
Context {B : Builtins} {H : Host}.

(** The bridge calls whatever function sits in [globalHandlers]; the one
    function of another module that can sit there is the event bus's
    forwarder, whose body is this parameter. *)
Variable forwarder : JsVal -> JsVal -> JsVal -> M JsVal.

Definition new_promise (st : PromiseState) : M nat :=
  fun w => (set_promises (promises w ++ [st]) w, Returns (List.length (promises w))).

Fixpoint settle (p : nat) (v : option Instance) (ps : list PromiseState)
  : list PromiseState :=
  match ps, p with
  | [], _ => []
  | Pending :: rest, 0 => Fulfilled v :: rest
  | st :: rest, 0 => st :: rest
  | st :: rest, S p' => st :: settle p' v rest
  end.

(** The [resolve] function of promise [p]; resolving a settled promise
    does nothing. *)
Definition resolve_promise (p : nat) (v : option Instance) : M unit :=
  modify (fun w => set_promises (settle p v (promises w)) w).

Definition _ensureReadyPromise : M nat :=
  rp <- read _readyPromise ;;
  match rp with
  | Some p => ret p
  | None =>
      p <- new_promise Pending ;;
      modify (set_readyResolve (Some p)) ;;
      modify (set_readyPromise (Some p)) ;;
      ret p
  end.

Definition registerHandler (eventName fn : JsVal) : M unit :=
  modify (fun w =>
    let hs := if map_has Js.eqb eventName (handlers w) then handlers w
              else map_set Js.eqb eventName [] (handlers w) in
    match map_get Js.eqb eventName hs with
    | Some s => set_handlers (map_set Js.eqb eventName (set_add Js.eqb fn s) hs) w
    | None => set_handlers hs w
    end).

Definition unregisterHandler (eventName fn : JsVal) : M unit :=
  modify (fun w =>
    match map_get Js.eqb eventName (handlers w) with
    | Some s =>
        let s' := set_delete Js.eqb fn s in
        if Nat.eqb (List.length s') 0
        then set_handlers (map_delete Js.eqb eventName (handlers w)) w
        else set_handlers (map_set Js.eqb eventName s' (handlers w)) w
    | None => w
    end).

Definition emitToHandlers (eventName payload : JsVal) : M unit :=
  s <- read (fun w => map_get Js.eqb eventName (handlers w)) ;;
  match s with
  | None => ret tt
  | Some s =>
      for_each s (fun fn =>
        try_catch (call_value fn [payload] ;; ret tt)
                  (fun e => console_error "unityBridge handler error" e))
  end.

Definition registerGlobalHandler (fn : Observer) : M unit :=
  if String.eqb (obs_typeof fn) "function"
  then modify (fun w => set_globalHandlers (set_add obs_eqb fn (globalHandlers w)) w)
  else ret tt.

Definition unregisterGlobalHandler (fn : Observer) : M unit :=
  has <- read (fun w => set_has obs_eqb fn (globalHandlers w)) ;;
  if has
  then modify (fun w => set_globalHandlers (set_delete obs_eqb fn (globalHandlers w)) w)
  else ret tt.

(** [fn(type, payload, meta)] for a member of [globalHandlers]. *)
Definition call_observer (fn : Observer) (type payload meta : JsVal) : M JsVal :=
  match fn with
  | ObsVal v => call_value v [type; payload; meta]
  | ObsForwarder =>
      emit (Call CForwarder [type; payload; meta]) ;;
      forwarder type payload meta
  end.

Definition emitToGlobalHandlers (type payload meta : JsVal) : M unit :=
  snapshot <- read globalHandlers ;;
  for_each snapshot (fun fn =>
    try_catch (call_observer fn type payload meta ;; ret tt)
              (fun e => console_error "unityBridge global handler error" e)).

(** The argument handed to [SendMessage] for a payload. *)
Definition outbound_arg (payload : JsVal) : JsVal :=
  if negb (Js.eqb payload VUndefined) && negb (String.eqb (typeof payload) "string")
  then match JSON_stringify payload with
       | Returns s => s
       | Throws _ => VStr (String_ payload)
       end
  else payload.

Definition has_SendMessage (i : option Instance) : bool :=
  match i with
  | Some inst => match SendMessage inst with Some _ => true | None => false end
  | None => false
  end.

Definition doSend (objectName methodName payload : JsVal) : M bool :=
  i <- read unityInstance ;;
  match i with
  | None => ret false
  | Some inst =>
      match SendMessage inst with
      | None => ret false
      | Some call =>
          let arg := outbound_arg payload in
          try_catch
            (emit (CallSendMessage (inst_id inst) objectName methodName arg) ;;
             (fun w => (w, call objectName methodName arg)) ;;
             ret true)
            (fun err =>
               console_error "unityBridge SendMessage failed" err ;;
               ret false)
      end
  end.

Definition setInstance (instance : option Instance) : M unit :=
  modify (set_unityInstance instance) ;;
  (* flush queued sends *)
  i <- read unityInstance ;;
  q <- read queuedSends ;;
  (match i with
   | Some _ =>
       if Nat.ltb 0 (List.length q)
       then
         for_each q (fun item =>
           try_catch (doSend (objectName item) (methodName item) (payload item) ;; ret tt)
                     (fun _ => ret tt)) ;;
         modify (set_queuedSends [])
       else ret tt
   | None => ret tt
   end) ;;
  (* resolve any pending whenReady promise *)
  r <- read _readyResolve ;;
  match r with
  | Some p =>
      i <- read unityInstance ;;
      try_catch (resolve_promise p i) (fun _ => ret tt) ;;
      modify (set_readyPromise None) ;;
      modify (set_readyResolve None)
  | None => ret tt
  end.

Definition clearInstance : M unit :=
  modify (set_unityInstance None) ;;
  modify (set_queuedSends []) ;;
  (* reset ready promise so callers can await next instance *)
  modify (set_readyPromise None) ;;
  modify (set_readyResolve None).

(** [send(objectName, methodName, payload, { queue = true } = {})]; [queue]
    is the value of that property of the options object, [VUndefined] when
    the property or the object is left out. *)
Definition send (objectName methodName payload queue : JsVal) : M bool :=
  let queue := if Js.eqb queue VUndefined then VBool true else queue in
  i <- read unityInstance ;;
  if has_SendMessage i then doSend objectName methodName payload
  else if truthy queue then
    modify (fun w => set_queuedSends
              (queuedSends w ++ [{| objectName := objectName;
                                    methodName := methodName;
                                    payload := payload |}]) w) ;;
    ret true
  else ret false.

(** [send] as a caller reaches it, with whatever it passes for the options.
    The parameter pattern [{ queue = true } = {}] takes [queue] from the
    argument, and from [{}] when the argument is [undefined]; a primitive has
    no such property.  From [null] no property can be taken: the call throws
    a [TypeError] before the body runs. *)
Definition send_call (objectName methodName payload options : JsVal) : M bool :=
  match options with
  | VNull => throw DestructureError
  | _ => send objectName methodName payload (get options "queue")
  end.

(** [Promise.resolve(unityInstance)] is a new promise, already fulfilled. *)
Definition whenReady : M nat :=
  i <- read unityInstance ;;
  match i with
  | Some inst => new_promise (Fulfilled (Some inst))
  | None => _ensureReadyPromise
  end.

(** A DOM event as the listener sees it: [detail] is [None] when the event
    object has no such property. *)
Record DomEvent : Type := { detail : option JsVal }.

(** The listener that [_initGlobalListener] registers on [window] for
    ['UnityMessage'] when the module is loaded; the delivery of such an
    event is a call of this function. *)
Definition _windowUnityMessageListener (e : DomEvent) : M unit :=
  let detail := match detail e with Some d => d | None => VUndefined end in
  if negb (truthy detail) || negb (String.eqb (typeof detail) "object") then ret tt
  else
    let type := get detail "type" in
    let payload := get detail "payload" in
    (* only skip if type is null/undefined; allow 0 or empty-string *)
    if Js.eqb type VUndefined || Js.eqb type VNull then ret tt
    else
      normalized <-
        match payload with
        | VStr text =>
            try_catch (emit (CallJsonParse text) ;;
                       (fun w => (w, JSON_parse text)))
                      (fun _ => ret payload)
        | _ => ret payload
        end ;;
      emitToHandlers type normalized ;;
      emitToGlobalHandlers type normalized
        (if truthy detail then get detail "meta" else detail).
End Bridge.
End Bridge.

(** The functions that [on], [onMessage] and [subscribe] return. *)
Inductive Unsubscribe : Type :=
| Noop
| OffHandler (event fn : JsVal)
| OffGlobal (fn : Observer)
| OffBus (type : JsVal) (handler : Subscriber).

(* ===================================================================== *)
(** * unityApi.js *)
(* ===================================================================== *)

Module Api.
Section Api.
Context {B : Builtins} {H : Host}.

(** [send(payload, objectName, methodName, queue = true)] *)
Definition send (payload objectName methodName queue : JsVal) : M bool :=
  let queue := if Js.eqb queue VUndefined then VBool true else queue in
  if truthy objectName && truthy methodName
  then Bridge.send objectName methodName payload queue
  else
    console_warn "[unity.api] send: no object/method provided." ;;
    ret false.

Definition on (event handler : JsVal) : M Unsubscribe :=
  if negb (String.eqb (typeof handler) "function") then
    try_catch (console_warn "[unity.api] on: handler must be a function")
              (fun _ => ret tt) ;;
    ret Noop
  else
    Bridge.registerHandler event handler ;;
    ret (OffHandler event handler).

Definition off (event handler : JsVal) : M unit :=
  if negb (String.eqb (typeof handler) "function") then
    try_catch (console_warn "[unity.api] off: handler must be a function")
              (fun _ => ret tt)
  else Bridge.unregisterHandler event handler.

Definition onMessage (handler : Observer) : M Unsubscribe :=
  if negb (String.eqb (obs_typeof handler) "function") then
    try_catch (console_warn "[unity.api] onMessage: handler must be a function")
              (fun _ => ret tt) ;;
    ret Noop
  else
    Bridge.registerGlobalHandler handler ;;
    ret (OffGlobal handler).

Definition offMessage (handler : Observer) : M unit :=
  if negb (String.eqb (obs_typeof handler) "function") then
    try_catch (console_warn "[unity.api] offMessage: handler must be a function")
              (fun _ => ret tt)
  else Bridge.unregisterGlobalHandler handler.

Definition whenReady : M nat := Bridge.whenReady.
End Api.
End Api.

(* ===================================================================== *)
(** * unityEventBus.js *)
(* ===================================================================== *)

Module EventBus.
Section EventBus.
Context {B : Builtins} {H : Host}.

Definition _ensureSet (type : JsVal) : M (list Subscriber) :=
  modify (fun w =>
    if map_has Js.eqb type (subscribers w) then w
    else set_subscribers (map_set Js.eqb type [] (subscribers w)) w) ;;
  s <- read (fun w => map_get Js.eqb type (subscribers w)) ;;
  ret (match s with Some s => s | None => [] end).

Definition _install : M unit :=
  inst <- read _installed ;;
  if inst then ret tt
  else
    try_catch (Api.onMessage ObsForwarder ;;
               modify (set_installed true))
              (fun e => console_error "unityEventBus: failed to install global forwarder" e).

Definition _subscriberCount : M nat :=
  read (fun w => fold_left (fun count s => count + List.length (snd s)) (subscribers w) 0).

Definition _maybeUninstall : M unit :=
  inst <- read _installed ;;
  if negb inst then ret tt
  else
    n <- _subscriberCount ;;
    if Nat.eqb n 0 then
      try_catch (Api.offMessage ObsForwarder) (fun _ => ret tt) ;;
      modify (set_installed false)
    else ret tt.

Definition unsubscribe (type : JsVal) (handler : Subscriber) : M unit :=
  s <- read (fun w => map_get Js.eqb type (subscribers w)) ;;
  match s with
  | None => ret tt
  | Some s =>
      let s' := set_delete sub_eqb handler s in
      modify (fun w => set_subscribers (map_set Js.eqb type s' (subscribers w)) w) ;;
      (* If this removed the last subscriber, uninstall the global forwarder *)
      (if Nat.eqb (List.length s') 0
       then modify (fun w => set_subscribers (map_delete Js.eqb type (subscribers w)) w)
       else ret tt) ;;
      _maybeUninstall
  end.

(** [subscribe(type, handler)]; the host passes a value ([SubVal]), [once]
    passes its closure. *)
Definition subscribe (type : JsVal) (handler : Subscriber) : M Unsubscribe :=
  if negb (String.eqb (sub_typeof handler) "function") then ret Noop
  else
    _install ;;
    s <- _ensureSet type ;;
    modify (fun w => set_subscribers
              (map_set Js.eqb type (set_add sub_eqb handler s) (subscribers w)) w) ;;
    ret (OffBus type handler).

(** [fn(payload, meta)] for a member of a subscriber set.  The closure of
    [once] is
    [(payload, meta) => { try { handler(payload, meta); } finally { unsubscribe(type, wrapped); } }]. *)
Definition call_subscriber (fn : Subscriber) (payload meta : JsVal) : M JsVal :=
  match fn with
  | SubVal v => call_value v [payload; meta]
  | SubOnce n type handler =>
      emit (Call (COnce n) [payload; meta]) ;;
      try_finally (call_value handler [payload; meta])
                  (unsubscribe type (SubOnce n type handler)) ;;
      ret VUndefined
  end.

Definition _globalForwarder (type payload meta : JsVal) : M JsVal :=
  s <- read (fun w => map_get Js.eqb type (subscribers w)) ;;
  match s with
  | None => ret VUndefined
  | Some s =>
      if Nat.eqb (List.length s) 0 then ret VUndefined
      else
        for_each s (fun fn =>
          try_catch (call_subscriber fn payload meta ;; ret tt)
                    (fun e => console_error "unityEventBus handler error" e)) ;;
        ret VUndefined
  end.

Definition once (type handler : JsVal) : M unit :=
  if negb (String.eqb (typeof handler) "function") then ret tt
  else
    n <- read closures ;;
    modify (set_closures (S n)) ;;
    subscribe type (SubOnce n type handler) ;;
    ret tt.

(** [clear(type)]; [type == null] holds for [null] and [undefined]. *)
Definition clear (type : JsVal) : M unit :=
  if Js.eqb type VNull || Js.eqb type VUndefined then
    modify (set_subscribers []) ;;
    _maybeUninstall
  else
    modify (fun w => set_subscribers (map_delete Js.eqb type (subscribers w)) w) ;;
    _maybeUninstall.

Definition getSubscriberCount : M nat := _subscriberCount.
End EventBus.
End EventBus.

(* ===================================================================== *)
(** * The page: bridge and bus together *)
(* ===================================================================== *)

Section Page.
Context {B : Builtins} {H : Host}.

(** A ['UnityMessage'] event reaches the bridge's listener. *)
Definition UnityMessage (e : Bridge.DomEvent) : M unit :=
  Bridge._windowUnityMessageListener EventBus._globalForwarder e.

(** Calling a function that [on], [onMessage] or [subscribe] returned. *)
Definition call_unsubscribe (u : Unsubscribe) : M unit :=
  match u with
  | Noop => ret tt
  | OffHandler event fn => Bridge.unregisterHandler event fn
  | OffGlobal fn => Bridge.unregisterGlobalHandler fn
  | OffBus type handler => EventBus.unsubscribe type handler
  end.

(** The event that [window.dispatchEvent(new CustomEvent('UnityMessage',
    { detail }))] delivers. *)
Definition CustomEvent (d : JsVal) : Bridge.DomEvent := {| Bridge.detail := Some d |}.
End Page.

(* ===================================================================== *)
(** * useUnityLoader.js *)
(* ===================================================================== *)

Module Loader.

(** [LOADING_STATES] *)
Inductive LoadingState : Type := IDLE | LOADING | READY | ERROR | RELOADING.

(** The refs and the state of one mounted [useUnityLoader] hook, and what
    the hook has in flight in the browser.

    - [scriptRef] is the injected script element (elements are numbered in
      the order of their creation); [onLoadRef] and [onErrorRef] are always
      the two listeners of that element and are not kept separately.
    - [loadError] is [None] for the [null] that the state starts with and
      that [injectLoader] and [doCleanup] set, and [Some e] after
      [setLoadError(e)].  A creation may be rejected with no reason: [e] is
      then [null] or [undefined], and the state reads as having no error.
    - [canvas] says whether [canvasRef.current] is set, [createUnityInstance]
      whether [window.createUnityInstance] is a function.
    - [listening]: the script elements whose [load] and [error] listeners are
      attached.
    - [creating]: the calls of [createUnityInstance] that have not settled,
      as (load id, script element whose promise waits for it).
    - [settled]: the promises returned by [injectLoader] (one per script
      element) that are settled, with the instance id or the error.
    - [settle_timer]: [reload] waits for its 50 ms timer.
    - [awaiting]: the [injectLoader] promise that [reload] awaits.
    - [log]: calls of [Quit] and [console.error]. *)
Record Hook : Type := {
  unityInstanceRef : option Instance;
  createdRef : bool;
  scriptRef : option nat;
  mountedRef : bool;
  reloadingRef : bool;
  loadingPromiseRef : option nat;
  loadIdRef : nat;
  unityInstance : option Instance;
  loadError : option JsVal;
  loadingState : LoadingState;
  canvas : bool;
  createUnityInstance : bool;
  scripts : nat;
  listening : list nat;
  creating : list (nat * nat);
  settled : list (nat * Completion nat);
  settle_timer : bool;
  awaiting : option nat;
  log : list Event
}.

Definition set_unityInstanceRef (x : option Instance) (h : Hook) : Hook :=
  {| unityInstanceRef := x;
     createdRef := createdRef h;
     scriptRef := scriptRef h;
     mountedRef := mountedRef h;
     reloadingRef := reloadingRef h;
     loadingPromiseRef := loadingPromiseRef h;
     loadIdRef := loadIdRef h;
     unityInstance := unityInstance h;
     loadError := loadError h;
     loadingState := loadingState h;
     canvas := canvas h;
     createUnityInstance := createUnityInstance h;
     scripts := scripts h;
     listening := listening h;
     creating := creating h;
     settled := settled h;
     settle_timer := settle_timer h;
     awaiting := awaiting h;
     log := log h |}.

Definition set_createdRef (x : bool) (h : Hook) : Hook :=
  {| unityInstanceRef := unityInstanceRef h;
     createdRef := x;
     scriptRef := scriptRef h;
     mountedRef := mountedRef h;
     reloadingRef := reloadingRef h;
     loadingPromiseRef := loadingPromiseRef h;
     loadIdRef := loadIdRef h;
     unityInstance := unityInstance h;
     loadError := loadError h;
     loadingState := loadingState h;
     canvas := canvas h;
     createUnityInstance := createUnityInstance h;
     scripts := scripts h;
     listening := listening h;
     creating := creating h;
     settled := settled h;
     settle_timer := settle_timer h;
     awaiting := awaiting h;
     log := log h |}.

Definition set_scriptRef (x : option nat) (h : Hook) : Hook :=
  {| unityInstanceRef := unityInstanceRef h;
     createdRef := createdRef h;
     scriptRef := x;
     mountedRef := mountedRef h;
     reloadingRef := reloadingRef h;
     loadingPromiseRef := loadingPromiseRef h;
     loadIdRef := loadIdRef h;
     unityInstance := unityInstance h;
     loadError := loadError h;
     loadingState := loadingState h;
     canvas := canvas h;
     createUnityInstance := createUnityInstance h;
     scripts := scripts h;
     listening := listening h;
     creating := creating h;
     settled := settled h;
     settle_timer := settle_timer h;
     awaiting := awaiting h;
     log := log h |}.

Definition set_mountedRef (x : bool) (h : Hook) : Hook :=
  {| unityInstanceRef := unityInstanceRef h;
     createdRef := createdRef h;
     scriptRef := scriptRef h;
     mountedRef := x;
     reloadingRef := reloadingRef h;
     loadingPromiseRef := loadingPromiseRef h;
     loadIdRef := loadIdRef h;
     unityInstance := unityInstance h;
     loadError := loadError h;
     loadingState := loadingState h;
     canvas := canvas h;
     createUnityInstance := createUnityInstance h;
     scripts := scripts h;
     listening := listening h;
     creating := creating h;
     settled := settled h;
     settle_timer := settle_timer h;
     awaiting := awaiting h;
     log := log h |}.

Definition set_reloadingRef (x : bool) (h : Hook) : Hook :=
  {| unityInstanceRef := unityInstanceRef h;
     createdRef := createdRef h;
     scriptRef := scriptRef h;
     mountedRef := mountedRef h;
     reloadingRef := x;
     loadingPromiseRef := loadingPromiseRef h;
     loadIdRef := loadIdRef h;
     unityInstance := unityInstance h;
     loadError := loadError h;
     loadingState := loadingState h;
     canvas := canvas h;
     createUnityInstance := createUnityInstance h;
     scripts := scripts h;
     listening := listening h;
     creating := creating h;
     settled := settled h;
     settle_timer := settle_timer h;
     awaiting := awaiting h;
     log := log h |}.

Definition set_loadingPromiseRef (x : option nat) (h : Hook) : Hook :=
  {| unityInstanceRef := unityInstanceRef h;
     createdRef := createdRef h;
     scriptRef := scriptRef h;
     mountedRef := mountedRef h;
     reloadingRef := reloadingRef h;
     loadingPromiseRef := x;
     loadIdRef := loadIdRef h;
     unityInstance := unityInstance h;
     loadError := loadError h;
     loadingState := loadingState h;
     canvas := canvas h;
     createUnityInstance := createUnityInstance h;
     scripts := scripts h;
     listening := listening h;
     creating := creating h;
     settled := settled h;
     settle_timer := settle_timer h;
     awaiting := awaiting h;
     log := log h |}.

Definition set_loadIdRef (x : nat) (h : Hook) : Hook :=
  {| unityInstanceRef := unityInstanceRef h;
     createdRef := createdRef h;
     scriptRef := scriptRef h;
     mountedRef := mountedRef h;
     reloadingRef := reloadingRef h;
     loadingPromiseRef := loadingPromiseRef h;
     loadIdRef := x;
     unityInstance := unityInstance h;
     loadError := loadError h;
     loadingState := loadingState h;
     canvas := canvas h;
     createUnityInstance := createUnityInstance h;
     scripts := scripts h;
     listening := listening h;
     creating := creating h;
     settled := settled h;
     settle_timer := settle_timer h;
     awaiting := awaiting h;
     log := log h |}.

Definition set_unityInstance (x : option Instance) (h : Hook) : Hook :=
  {| unityInstanceRef := unityInstanceRef h;
     createdRef := createdRef h;
     scriptRef := scriptRef h;
     mountedRef := mountedRef h;
     reloadingRef := reloadingRef h;
     loadingPromiseRef := loadingPromiseRef h;
     loadIdRef := loadIdRef h;
     unityInstance := x;
     loadError := loadError h;
     loadingState := loadingState h;
     canvas := canvas h;
     createUnityInstance := createUnityInstance h;
     scripts := scripts h;
     listening := listening h;
     creating := creating h;
     settled := settled h;
     settle_timer := settle_timer h;
     awaiting := awaiting h;
     log := log h |}.

Definition set_loadError (x : option JsVal) (h : Hook) : Hook :=
  {| unityInstanceRef := unityInstanceRef h;
     createdRef := createdRef h;
     scriptRef := scriptRef h;
     mountedRef := mountedRef h;
     reloadingRef := reloadingRef h;
     loadingPromiseRef := loadingPromiseRef h;
     loadIdRef := loadIdRef h;
     unityInstance := unityInstance h;
     loadError := x;
     loadingState := loadingState h;
     canvas := canvas h;
     createUnityInstance := createUnityInstance h;
     scripts := scripts h;
     listening := listening h;
     creating := creating h;
     settled := settled h;
     settle_timer := settle_timer h;
     awaiting := awaiting h;
     log := log h |}.

Definition set_loadingState (x : LoadingState) (h : Hook) : Hook :=
  {| unityInstanceRef := unityInstanceRef h;
     createdRef := createdRef h;
     scriptRef := scriptRef h;
     mountedRef := mountedRef h;
     reloadingRef := reloadingRef h;
     loadingPromiseRef := loadingPromiseRef h;
     loadIdRef := loadIdRef h;
     unityInstance := unityInstance h;
     loadError := loadError h;
     loadingState := x;
     canvas := canvas h;
     createUnityInstance := createUnityInstance h;
     scripts := scripts h;
     listening := listening h;
     creating := creating h;
     settled := settled h;
     settle_timer := settle_timer h;
     awaiting := awaiting h;
     log := log h |}.

Definition set_canvas (x : bool) (h : Hook) : Hook :=
  {| unityInstanceRef := unityInstanceRef h;
     createdRef := createdRef h;
     scriptRef := scriptRef h;
     mountedRef := mountedRef h;
     reloadingRef := reloadingRef h;
     loadingPromiseRef := loadingPromiseRef h;
     loadIdRef := loadIdRef h;
     unityInstance := unityInstance h;
     loadError := loadError h;
     loadingState := loadingState h;
     canvas := x;
     createUnityInstance := createUnityInstance h;
     scripts := scripts h;
     listening := listening h;
     creating := creating h;
     settled := settled h;
     settle_timer := settle_timer h;
     awaiting := awaiting h;
     log := log h |}.

Definition set_createUnityInstance (x : bool) (h : Hook) : Hook :=
  {| unityInstanceRef := unityInstanceRef h;
     createdRef := createdRef h;
     scriptRef := scriptRef h;
     mountedRef := mountedRef h;
     reloadingRef := reloadingRef h;
     loadingPromiseRef := loadingPromiseRef h;
     loadIdRef := loadIdRef h;
     unityInstance := unityInstance h;
     loadError := loadError h;
     loadingState := loadingState h;
     canvas := canvas h;
     createUnityInstance := x;
     scripts := scripts h;
     listening := listening h;
     creating := creating h;
     settled := settled h;
     settle_timer := settle_timer h;
     awaiting := awaiting h;
     log := log h |}.

Definition set_scripts (x : nat) (h : Hook) : Hook :=
  {| unityInstanceRef := unityInstanceRef h;
     createdRef := createdRef h;
     scriptRef := scriptRef h;
     mountedRef := mountedRef h;
     reloadingRef := reloadingRef h;
     loadingPromiseRef := loadingPromiseRef h;
     loadIdRef := loadIdRef h;
     unityInstance := unityInstance h;
     loadError := loadError h;
     loadingState := loadingState h;
     canvas := canvas h;
     createUnityInstance := createUnityInstance h;
     scripts := x;
     listening := listening h;
     creating := creating h;
     settled := settled h;
     settle_timer := settle_timer h;
     awaiting := awaiting h;
     log := log h |}.

Definition set_listening (x : list nat) (h : Hook) : Hook :=
  {| unityInstanceRef := unityInstanceRef h;
     createdRef := createdRef h;
     scriptRef := scriptRef h;
     mountedRef := mountedRef h;
     reloadingRef := reloadingRef h;
     loadingPromiseRef := loadingPromiseRef h;
     loadIdRef := loadIdRef h;
     unityInstance := unityInstance h;
     loadError := loadError h;
     loadingState := loadingState h;
     canvas := canvas h;
     createUnityInstance := createUnityInstance h;
     scripts := scripts h;
     listening := x;
     creating := creating h;
     settled := settled h;
     settle_timer := settle_timer h;
     awaiting := awaiting h;
     log := log h |}.

Definition set_creating (x : list (nat * nat)) (h : Hook) : Hook :=
  {| unityInstanceRef := unityInstanceRef h;
     createdRef := createdRef h;
     scriptRef := scriptRef h;
     mountedRef := mountedRef h;
     reloadingRef := reloadingRef h;
     loadingPromiseRef := loadingPromiseRef h;
     loadIdRef := loadIdRef h;
     unityInstance := unityInstance h;
     loadError := loadError h;
     loadingState := loadingState h;
     canvas := canvas h;
     createUnityInstance := createUnityInstance h;
     scripts := scripts h;
     listening := listening h;
     creating := x;
     settled := settled h;
     settle_timer := settle_timer h;
     awaiting := awaiting h;
     log := log h |}.

Definition set_settled (x : list (nat * Completion nat)) (h : Hook) : Hook :=
  {| unityInstanceRef := unityInstanceRef h;
     createdRef := createdRef h;
     scriptRef := scriptRef h;
     mountedRef := mountedRef h;
     reloadingRef := reloadingRef h;
     loadingPromiseRef := loadingPromiseRef h;
     loadIdRef := loadIdRef h;
     unityInstance := unityInstance h;
     loadError := loadError h;
     loadingState := loadingState h;
     canvas := canvas h;
     createUnityInstance := createUnityInstance h;
     scripts := scripts h;
     listening := listening h;
     creating := creating h;
     settled := x;
     settle_timer := settle_timer h;
     awaiting := awaiting h;
     log := log h |}.

Definition set_settle_timer (x : bool) (h : Hook) : Hook :=
  {| unityInstanceRef := unityInstanceRef h;
     createdRef := createdRef h;
     scriptRef := scriptRef h;
     mountedRef := mountedRef h;
     reloadingRef := reloadingRef h;
     loadingPromiseRef := loadingPromiseRef h;
     loadIdRef := loadIdRef h;
     unityInstance := unityInstance h;
     loadError := loadError h;
     loadingState := loadingState h;
     canvas := canvas h;
     createUnityInstance := createUnityInstance h;
     scripts := scripts h;
     listening := listening h;
     creating := creating h;
     settled := settled h;
     settle_timer := x;
     awaiting := awaiting h;
     log := log h |}.

Definition set_awaiting (x : option nat) (h : Hook) : Hook :=
  {| unityInstanceRef := unityInstanceRef h;
     createdRef := createdRef h;
     scriptRef := scriptRef h;
     mountedRef := mountedRef h;
     reloadingRef := reloadingRef h;
     loadingPromiseRef := loadingPromiseRef h;
     loadIdRef := loadIdRef h;
     unityInstance := unityInstance h;
     loadError := loadError h;
     loadingState := loadingState h;
     canvas := canvas h;
     createUnityInstance := createUnityInstance h;
     scripts := scripts h;
     listening := listening h;
     creating := creating h;
     settled := settled h;
     settle_timer := settle_timer h;
     awaiting := x;
     log := log h |}.

Definition set_log (x : list Event) (h : Hook) : Hook :=
  {| unityInstanceRef := unityInstanceRef h;
     createdRef := createdRef h;
     scriptRef := scriptRef h;
     mountedRef := mountedRef h;
     reloadingRef := reloadingRef h;
     loadingPromiseRef := loadingPromiseRef h;
     loadIdRef := loadIdRef h;
     unityInstance := unityInstance h;
     loadError := loadError h;
     loadingState := loadingState h;
     canvas := canvas h;
     createUnityInstance := createUnityInstance h;
     scripts := scripts h;
     listening := listening h;
     creating := creating h;
     settled := settled h;
     settle_timer := settle_timer h;
     awaiting := awaiting h;
     log := x |}.

(** The hook before its effect has run; the arguments say whether the canvas
    is there and whether the loader script defines [createUnityInstance]. *)
Definition initial (canvas createUnityInstance : bool) : Hook :=
  {| unityInstanceRef := None; createdRef := false; scriptRef := None;
     mountedRef := false; reloadingRef := false; loadingPromiseRef := None;
     loadIdRef := 0; unityInstance := None; loadError := None;
     loadingState := IDLE; canvas := canvas;
     createUnityInstance := createUnityInstance; scripts := 0;
     listening := []; creating := []; settled := []; settle_timer := false;
     awaiting := None; log := [] |}.

Definition setUnityInstance := set_unityInstance.
Definition setLoadError := set_loadError.
Definition setLoadingState := set_loadingState.

Definition console_error (msg : string) (e : JsVal) (h : Hook) : Hook :=
  set_log (log h ++ [ConsoleError msg e]) h.

(** [try { instance.Quit && instance.Quit(); } catch (e) { }] *)
Definition try_Quit (instance : Instance) (h : Hook) : Hook :=
  match Quit instance with
  | Some _ => set_log (log h ++ [CallQuit (inst_id instance)]) h
  | None => h
  end.

(** [resolve] and [reject] of the promise that [injectLoader] returned for
    script element [k].  A [reload] that awaits this promise continues into
    its [finally] block. *)
Definition settle (k : nat) (r : Completion Instance) (h : Hook) : Hook :=
  if existsb (fun s => Nat.eqb (fst s) k) (settled h) then h
  else
    let r' := match r with Returns i => Returns (inst_id i) | Throws e => Throws e end in
    let h := set_settled (settled h ++ [(k, r')]) h in
    match awaiting h with
    | Some p => if Nat.eqb p k
                then set_reloadingRef false (set_awaiting None h)
                else h
    | None => h
    end.

(** The [.then] callback of [initialize]. *)
Definition initialize_then (myLoadId : nat) (instance : Instance) (h : Hook)
  : Hook * Completion Instance :=
  (* If this initialize call is from a previous load, ignore it *)
  if negb (Nat.eqb (loadIdRef h) myLoadId) then
    (try_Quit instance h, Throws (Error "Stale Unity load result"))
  else if negb (mountedRef h) then
    (* if unmounted while creating, try to quit immediately *)
    (try_Quit instance h,
     Throws (Error "Unmounted before Unity instance finished creating"))
  else
    let h := set_unityInstanceRef (Some instance) h in
    let h := setUnityInstance (Some instance) h in
    let h := setLoadingState READY h in
    let h := set_createdRef true h in
    (h, Returns instance).

(** The [.catch] callback of [initialize]. *)
Definition initialize_catch (err : JsVal) (h : Hook) : Hook * Completion Instance :=
  let h := console_error "Failed to create Unity instance:" err h in
  let h := setLoadError (Some err) h in
  let h := setLoadingState ERROR h in
  (h, Throws err).

(** [create(...).then(...).catch(...)] once [create]'s promise has settled
    with [outcome]. *)
Definition initialize_chain (myLoadId : nat) (outcome : Completion Instance) (h : Hook)
  : Hook * Completion Instance :=
  let '(h1, r1) :=
    match outcome with
    | Returns instance => initialize_then myLoadId instance h
    | Throws err => (h, Throws err)
    end in
  match r1 with
  | Returns instance => (h1, Returns instance)
  | Throws err => initialize_catch err h1
  end.

(** [onLoad]: the listener of the [load] event of script element [k]. *)
Definition onLoad (k : nat) (h : Hook) : Hook :=
  let myLoadId := S (loadIdRef h) in
  let h := set_loadIdRef myLoadId h in
  (* initialize(myLoadId), up to the call of create *)
  if negb (canvas h) then
    let err := Error "Unity canvas not found." in
    let h := console_error "" err h in
    let h := setLoadError (Some err) h in
    settle k (Throws err) h
  else if negb (createUnityInstance h) then
    let err := Error "createUnityInstance is not available on window after loader loaded." in
    let h := console_error "" err h in
    let h := setLoadError (Some err) h in
    settle k (Throws err) h
  else set_creating (creating h ++ [(myLoadId, k)]) h.

(** [onError]: the listener of the [error] event of script element [k];
    [is_Error] is [e instanceof Error]. *)
Definition onError (k : nat) (e : JsVal) (is_Error : bool) (h : Hook) : Hook :=
  let err := Error "Failed to load Unity loader script" in
  let h := console_error "Failed to load Unity loader script" e h in
  (* normalize to Error *)
  let normalized :=
    if is_Error then e
    else Error ("Failed to load Unity loader script" ++
                (if truthy e && truthy (get e "message")
                 then ": " ++ RefJson.to_String (get e "message")
                 else EmptyString)) in
  let h := setLoadError (Some normalized) h in
  settle k (Throws normalized) h.

(** [injectLoader]; the result is the new script element, whose number also
    names the promise returned. *)
Definition injectLoader (h : Hook) : Hook * nat :=
  let h := setLoadError None h in
  let k := scripts h in
  let h := set_scripts (S k) h in
  let h := setLoadingState LOADING h in
  let h := set_listening (listening h ++ [k]) h in
  let h := set_scriptRef (Some k) h in
  (h, k).

(** [doCleanup].  Where [Quit] returns a promise the function awaits it; the
    model continues at once, with no other callback in between. *)
Definition doCleanup (h : Hook) : Hook :=
  let h :=
    match scriptRef h with
    | Some k =>
        let h := set_listening (filter (fun j => negb (Nat.eqb j k)) (listening h)) h in
        set_scriptRef None h
    | None => h
    end in
  let h :=
    match unityInstanceRef h with
    | Some instance => set_unityInstanceRef None (try_Quit instance h)
    | None => h
    end in
  let h := setUnityInstance None h in
  let h := set_createdRef false h in
  let h := set_loadingPromiseRef None h in
  let h := setLoadError None h in
  setLoadingState IDLE h.

(** The callbacks that the browser and React run, one at a time. *)
Inductive Step : Type :=
| Mount                                   (* the effect of the hook *)
| Unmount                                 (* the clean-up of the effect *)
| ScriptLoaded (k : nat)                  (* [load] on script element [k] *)
| ScriptFailed (k : nat) (e : JsVal) (is_Error : bool)  (* [error] on it *)
| Created (myLoadId : nat) (outcome : Completion Instance)
                                          (* [create]'s promise settles *)
| Reload                                  (* a call of [reload] *)
| SettleTimer.                            (* the 50 ms timer of [reload] *)

Definition step (s : Step) (h : Hook) : Hook :=
  match s with
  | Mount =>
      let h := set_mountedRef true h in
      let h := setLoadingState LOADING h in
      let '(h, p) := injectLoader h in
      set_loadingPromiseRef (Some p) h
  | Unmount =>
      let h := set_mountedRef false h in
      doCleanup h
  | ScriptLoaded k =>
      if existsb (Nat.eqb k) (listening h) then onLoad k h else h
  | ScriptFailed k e is_Error =>
      if existsb (Nat.eqb k) (listening h) then onError k e is_Error h else h
  | Created myLoadId outcome =>
      match find (fun c => Nat.eqb (fst c) myLoadId) (creating h) with
      | Some (_, k) =>
          let h := set_creating
                     (filter (fun c => negb (Nat.eqb (fst c) myLoadId)) (creating h)) h in
          let '(h, r) := initialize_chain myLoadId outcome h in
          settle k r h
      | None => h
      end
  | Reload =>
      if reloadingRef h then h
      else
        let h := set_reloadingRef true h in
        let h := doCleanup h in
        set_settle_timer true h
  | SettleTimer =>
      if settle_timer h then
        let h := set_settle_timer false h in
        let h := setLoadingState RELOADING h in
        let '(h, p) := injectLoader h in
        let h := set_loadingPromiseRef (Some p) h in
        set_awaiting (Some p) h
      else h
  end.

Definition run (steps : list Step) (h : Hook) : Hook :=
  fold_left (fun h s => step s h) steps h.

End Loader.

(* ===================================================================== *)
(** * UnityGame.jsx: the loaded instance goes to the bridge *)
(* ===================================================================== *)

Module UnityGame.
Section UnityGame.
Context {B : Builtins} {H : Host}.

(** The effect on [loadedInstance]. *)
Definition instance_effect (loadedInstance : option Instance) : M unit :=
  match loadedInstance with
  | Some i => Bridge.setInstance (Some i)
  | None => Bridge.clearInstance
  end.

Definition same_instance (a b : option Instance) : bool :=
  match a, b with
  | Some x, Some y => Nat.eqb (inst_id x) (inst_id y)
  | None, None => true
  | _, _ => false
  end.

(** One callback of the hook, followed by the render it causes: the effect
    runs after the first render and whenever [loadedInstance] changed
    identity.  The effect has no cleanup, and a component that was unmounted
    renders no more: what the hook's cleanup does to [loadedInstance] does
    not reach the bridge. *)
Definition step (s : Loader.Step) (page : Loader.Hook * World) : Loader.Hook * World :=
  let '(h, w) := page in
  let h' := Loader.step s h in
  let changed := negb (same_instance (Loader.unityInstance h) (Loader.unityInstance h')) in
  let first := match s with Loader.Mount => true | _ => false end in
  if first || (changed && Loader.mountedRef h')
  then (h', fst (instance_effect (Loader.unityInstance h') w))
  else (h', w).

Definition run (steps : list Loader.Step) (page : Loader.Hook * World)
  : Loader.Hook * World :=
  fold_left (fun p s => step s p) steps page.
End UnityGame.
End UnityGame.

(* ===================================================================== *)
(** * Properties: vocabulary *)
(* ===================================================================== *)

Open Scope list_scope.

(** What happened between two states: the part of the later trace that the
    earlier one does not have. *)
Definition since (w w' : World) : list Event :=
  skipn (List.length (trace w)) (trace w').

Definition callee_eqb (a b : Callee) : bool :=
  match a, b with
  | CHost i, CHost j => Nat.eqb i j
  | CForwarder, CForwarder => true
  | COnce n, COnce m => Nat.eqb n m
  | _, _ => false
  end.

Fixpoint args_eqb (a b : list JsVal) : bool :=
  match a, b with
  | [], [] => true
  | x :: a', y :: b' => Js.eqb x y && args_eqb a' b'
  | _, _ => false
  end.

(** [is_call f args ev]: the event is the call of [f] with [args]. *)
Definition is_call (f : Callee) (args : list JsVal) (ev : Event) : bool :=
  match ev with
  | Call g xs => callee_eqb f g && args_eqb args xs
  | _ => false
  end.

(** [called_by f ev]: the event is a call of [f], with whatever arguments. *)
Definition called (f : Callee) (ev : Event) : bool :=
  match ev with
  | Call g _ => callee_eqb f g
  | _ => false
  end.

Definition count (p : Event -> bool) (evs : list Event) : nat :=
  List.length (filter p evs).

(** The calls of [SendMessage] among some events, in order: the instance
    called and the three arguments. *)
Fixpoint deliveries (evs : list Event) : list (nat * (JsVal * JsVal * JsVal)) :=
  match evs with
  | [] => []
  | CallSendMessage i o m a :: rest => (i, (o, m, a)) :: deliveries rest
  | _ :: rest => deliveries rest
  end.

Definition is_parse (ev : Event) : bool :=
  match ev with CallJsonParse _ => true | _ => false end.

(** The state of promise [p]. *)
Definition promise (p : nat) (w : World) : option PromiseState :=
  nth_error (promises w) p.

(** The set registered for an event name in the bridge, and the set
    subscribed for a type in the bus; empty when there is none. *)
Definition handlers_for (eventName : JsVal) (w : World) : list JsVal :=
  match map_get Js.eqb eventName (handlers w) with Some s => s | None => [] end.

Definition subscribers_for (type : JsVal) (w : World) : list Subscriber :=
  match map_get Js.eqb type (subscribers w) with Some s => s | None => [] end.

(** The total number of subscribers ([getSubscriberCount], as a function of
    the state). *)
Definition subscriber_count (w : World) : nat :=
  fold_left (fun count s => count + List.length (snd s)) (subscribers w) 0.

(** The number of installations of the bus's forwarder in the bridge. *)
Definition forwarder_installations (w : World) : nat :=
  List.length (filter (obs_eqb ObsForwarder) (globalHandlers w)).

(** Sets are sets: the registries hold no value twice, the key of every map
    occurs once, and closure ids in use were handed out by [once]. *)
Definition keys {V} (m : list (JsVal * V)) : list JsVal := map fst m.

Record wf (w : World) : Prop := {
  wf_handler_keys : NoDup (keys (handlers w));
  wf_handler_sets : forall k s, In (k, s) (handlers w) -> NoDup s;
  wf_global : NoDup (globalHandlers w);
  wf_global_fun : forall o, In o (globalHandlers w) -> obs_typeof o = "function";
  wf_sub_keys : NoDup (keys (subscribers w));
  wf_sub_sets : forall k s, In (k, s) (subscribers w) -> NoDup s;
  wf_closures : forall k s n t h,
      In (k, s) (subscribers w) -> In (SubOnce n t h) s -> n < closures w
}.

(** The invariant of the event bus's reference-counted activation: the flag
    [_installed] is set exactly when there are subscribers, and the bridge
    then holds the forwarder once, and otherwise not at all. *)
Definition bus_inv (w : World) : Prop :=
  _installed w = Nat.ltb 0 (subscriber_count w) /\
  forwarder_installations w = (if Nat.ltb 0 (subscriber_count w) then 1 else 0).

(** The readiness future: while [_readyPromise] is set, it is the promise
    that [_readyResolve] resolves, and it is pending. *)
Definition ready_inv (w : World) : Prop :=
  match _readyPromise w with
  | Some p => _readyResolve w = Some p /\ promise p w = Some Pending
  | None => _readyResolve w = None
  end.

(** The value that the listener hands to handlers for a raw payload. *)
Definition normalize {B : Builtins} (payload : JsVal) : JsVal :=
  match payload with
  | VStr text => match JSON_parse text with Returns v => v | Throws _ => payload end
  | _ => payload
  end.

Definition is_object (v : JsVal) : bool :=
  match v with VArr _ | VObj _ => true | _ => false end.

Definition nullish (v : JsVal) : bool :=
  match v with VUndefined | VNull => true | _ => false end.

(** [send] is called with queuing enabled: [queue] left out, or truthy. *)
Definition queue_enabled (queue : JsVal) : bool :=
  match queue with VUndefined => true | _ => truthy queue end.

(** The sum of the sizes of the sets of a map. *)
Fixpoint total {K V} (m : list (K * list V)) : nat :=
  match m with
  | [] => 0
  | e :: rest => List.length (snd e) + total rest
  end.

(** [wp m w Q]: run from [w], the statement [m] adds some events [evs] to
    the trace, and its completion [r] and final state [w'] satisfy
    [Q r w' evs]. *)
Definition wp {A} (m : M A) (w : World)
  (Q : Completion A -> World -> list Event -> Prop) : Prop :=
  exists evs, trace (fst (m w)) = trace w ++ evs /\ Q (snd (m w)) (fst (m w)) evs.

Definition serialized {B : Builtins} (payload : JsVal) : JsVal :=
  match payload with
  | VStr _ => payload
  | _ => match JSON_stringify payload with
         | Returns v => v
         | Throws _ => VStr (String_ payload)
         end
  end.

Definition delivery (inst : Instance) {B : Builtins} (msg : OutboundMessage)
  : nat * (JsVal * JsVal * JsVal) :=
  (inst_id inst, (objectName msg, methodName msg, serialized (payload msg))).

Fixpoint send_all {B : Builtins} {H : Host} (calls : list (OutboundMessage * JsVal))
  : M (list bool) :=
  match calls with
  | [] => ret []
  | (msg, queue) :: rest =>
      b <- Bridge.send (objectName msg) (methodName msg) (payload msg) queue ;;
      bs <- send_all rest ;;
      ret (b :: bs)
  end.

(** What the flush of the queue hands to the instance. *)
Definition flushed {B : Builtins} (instance : option Instance) (q : list OutboundMessage)
  : list (nat * (JsVal * JsVal * JsVal)) :=
  match instance with
  | Some inst =>
      match SendMessage inst with
      | Some _ => map (delivery inst) q
      | None => []
      end
  | None => []
  end.

(** [n] calls of the same operation in a row, with their results. *)
Fixpoint call_n {A} (n : nat) (m : M A) : M (list A) :=
  match n with
  | 0 => ret []
  | S k => a <- m ;; rest <- call_n k m ;; ret (a :: rest)
  end.

(** The calls of functions among some events, in order. *)
Fixpoint calls (evs : list Event) : list (Callee * list JsVal) :=
  match evs with
  | [] => []
  | Call f args :: rest => (f, args) :: calls rest
  | _ :: rest => calls rest
  end.

(** The functions among the members of a per-type handler set. *)
Definition fun_ids (s : list JsVal) : list nat :=
  flat_map (fun v => match v with VFun id => [id] | _ => [] end) s.

(** The events of a dispatch loop: calls and [console.error]. *)
Definition loop_event (ev : Event) : Prop :=
  match ev with
  | Call _ _ | ConsoleError _ _ => True
  | _ => False
  end.

(** Nothing but the trace differs between [w] and [w']. *)
Definition only_trace (w w' : World) : Prop := w' = set_trace (trace w') w.

(** The state after [_install]. *)
Definition installed_state (w : World) : World :=
  if _installed w then w
  else set_installed true
         (set_globalHandlers (set_add obs_eqb ObsForwarder (globalHandlers w)) w).

(** The state after [_maybeUninstall]. *)
Definition uninstalled (w : World) : World :=
  if _installed w && Nat.eqb (subscriber_count w) 0
  then set_installed false
         (set_globalHandlers (set_delete obs_eqb ObsForwarder (globalHandlers w)) w)
  else w.

(** The subscriber map after the removal of [handler] from the set of
    [type]. *)
Definition without (type : JsVal) (handler : Subscriber)
  (subs : list (JsVal * list Subscriber)) : list (JsVal * list Subscriber) :=
  match map_get Js.eqb type subs with
  | None => subs
  | Some s =>
      let s' := set_delete sub_eqb handler s in
      if Nat.eqb (List.length s') 0
      then map_delete Js.eqb type (map_set Js.eqb type s' subs)
      else map_set Js.eqb type s' subs
  end.

(** The state after [unsubscribe(type, handler)]. *)
Definition unsubscribed (type : JsVal) (handler : Subscriber) (w : World) : World :=
  match map_get Js.eqb type (subscribers w) with
  | None => w
  | Some _ => uninstalled (set_subscribers (without type handler (subscribers w)) w)
  end.

(** The state after [subscribe(type, handler)] with a function. *)
Definition subscribed (type : JsVal) (handler : Subscriber) (w : World) : World :=
  set_subscribers
    (map_set Js.eqb type (set_add sub_eqb handler (subscribers_for type w)) (subscribers w))
    (installed_state w).

(** The state after [clear(type)]. *)
Definition cleared (type : JsVal) (w : World) : World :=
  if nullish type then uninstalled (set_subscribers [] w)
  else uninstalled (set_subscribers (map_delete Js.eqb type (subscribers w)) w).

(** What holds of the bus between the removal of a subscriber and the call
    of [_maybeUninstall]: the flag tells whether the forwarder is in the
    bridge, and is set if there are subscribers. *)
Definition bus_pre (w : World) : Prop :=
  forwarder_installations w = (if _installed w then 1 else 0) /\
  (_installed w = false -> subscriber_count w = 0).

(** The registries after the call of one subscriber: the closure of [once]
    unsubscribes itself. *)
Definition after_sub (x : Subscriber) (w : World) : World :=
  match x with
  | SubVal _ => w
  | SubOnce _ type _ => unsubscribed type x w
  end.

Definition after_subs (l : list Subscriber) (w : World) : World :=
  fold_left (fun w x => after_sub x w) l w.

(** The calls that the call of one subscriber makes. *)
Definition sub_calls (payload meta : JsVal) (x : Subscriber) : list (Callee * list JsVal) :=
  match x with
  | SubVal (VFun id) => [(CHost id, [payload; meta])]
  | SubVal _ => []
  | SubOnce n _ (VFun id) => [(COnce n, [payload; meta]); (CHost id, [payload; meta])]
  | SubOnce n _ _ => [(COnce n, [payload; meta])]
  end.

(** The registries after the call of one global observer, and the calls it
    makes. *)
Definition after_obs (type : JsVal) (o : Observer) (w : World) : World :=
  match o with
  | ObsVal _ => w
  | ObsForwarder => after_subs (subscribers_for type w) w
  end.

Definition obs_calls (type payload meta : JsVal) (w : World) (o : Observer)
  : list (Callee * list JsVal) :=
  match o with
  | ObsVal (VFun id) => [(CHost id, [type; payload; meta])]
  | ObsVal _ => []
  | ObsForwarder =>
      (CForwarder, [type; payload; meta]) ::
      flat_map (sub_calls payload meta) (subscribers_for type w)
  end.

(** The loop over a snapshot of [globalHandlers]: the registries after it
    and the calls made. *)
Fixpoint global_run (type payload meta : JsVal) (l : list Observer) (w : World)
  : World * list (Callee * list JsVal) :=
  match l with
  | [] => (w, [])
  | o :: rest =>
      let r := global_run type payload meta rest (after_obs type o w) in
      (fst r, obs_calls type payload meta w o ++ snd r)
  end.

(** The calls of one inbound event, for its type, normalized payload and
    meta: the handlers of the type, then the global observers. *)
Definition dispatch_calls (type payload meta : JsVal) (w : World)
  : list (Callee * list JsVal) :=
  map (fun id => (CHost id, [payload])) (fun_ids (handlers_for type w)) ++
  snd (global_run type payload meta (globalHandlers w) w).

(** The registries after one inbound event. *)
Definition dispatched (type payload meta : JsVal) (w : World) : World :=
  fst (global_run type payload meta (globalHandlers w) w).

Definition call_is (f : Callee) (args : list JsVal) (c : Callee * list JsVal) : bool :=
  callee_eqb f (fst c) && args_eqb args (snd c).

Definition ccount (q : Callee * list JsVal -> bool) (l : list (Callee * list JsVal)) : nat :=
  List.length (filter q l).

(** No closure of [once] with id [n] is subscribed. *)
Definition absent (n : nat) (w : World) : Prop :=
  forall type x, In x (subscribers_for type w) ->
                 match x with SubOnce m _ _ => m <> n | SubVal _ => True end.

(** The call of subscriber [x] calls the host function [id]. *)
Definition calls_host (id : nat) (x : Subscriber) : bool :=
  match x with
  | SubVal (VFun j) => Nat.eqb j id
  | SubOnce _ _ (VFun j) => Nat.eqb j id
  | _ => false
  end.

(** The event is a call of host function [id] as a subscriber of the bus,
    that is with a payload and a meta argument. *)
Definition bus_call (id : nat) (ev : Event) : bool :=
  match ev with
  | Call (CHost j) [_; _] => Nat.eqb j id
  | _ => false
  end.

(** The delivery of a sequence of ['UnityMessage'] events, one after the
    other. *)
Definition dispatch_all {B : Builtins} {H : Host} (ds : list JsVal) : M unit :=
  for_each ds (fun d => UnityMessage (CustomEvent d)).

(** The subscriber sets only lose members. *)
Definition sub_shrinks (w w' : World) : Prop :=
  forall type x, In x (subscribers_for type w') -> In x (subscribers_for type w).

Definition once_is (n : nat) (c : Callee * list JsVal) : bool :=
  callee_eqb (COnce n) (fst c).

Definition host2_is (id : nat) (c : Callee * list JsVal) : bool :=
  match c with
  | (CHost j, [_; _]) => Nat.eqb j id
  | _ => false
  end.

(** No subscriber of [type] calls the host function [id]. *)
Definition hostfree (id : nat) (type : JsVal) (w : World) : Prop :=
  forall x, In x (subscribers_for type w) -> calls_host id x = false.

(** The operations on the page: the exported functions of the bridge, of
    the api and of the bus, called by the application with its own values,
    and the delivery of a ['UnityMessage'] event.  The function that [on],
    [onMessage] or [subscribe] returns does what [unregisterHandler],
    [unregisterGlobalHandler] or [unsubscribe] does with the same
    arguments. *)
Inductive Op : Type :=
| BridgeRegisterHandler (eventName fn : JsVal)
| BridgeUnregisterHandler (eventName fn : JsVal)
| BridgeRegisterGlobalHandler (fn : JsVal)
| BridgeUnregisterGlobalHandler (fn : JsVal)
| BridgeSetInstance (instance : option Instance)
| BridgeClearInstance
| BridgeSend (objectName methodName payload queue : JsVal)
| BridgeWhenReady
| ApiSend (payload objectName methodName queue : JsVal)
| ApiOn (event handler : JsVal)
| ApiOff (event handler : JsVal)
| ApiOnMessage (handler : JsVal)
| ApiOffMessage (handler : JsVal)
| BusSubscribe (type handler : JsVal)
| BusUnsubscribe (type handler : JsVal)
| BusOnce (type handler : JsVal)
| BusClear (type : JsVal)
| BusGetSubscriberCount
| WindowEvent (e : Bridge.DomEvent).

(** A call as a statement: the value it returns is dropped. *)
Definition statement {A} (m : M A) : M unit := m ;; ret tt.

Definition run_op {B : Builtins} {H : Host} (op : Op) : M unit :=
  match op with
  | BridgeRegisterHandler eventName fn => Bridge.registerHandler eventName fn
  | BridgeUnregisterHandler eventName fn => Bridge.unregisterHandler eventName fn
  | BridgeRegisterGlobalHandler fn => Bridge.registerGlobalHandler (ObsVal fn)
  | BridgeUnregisterGlobalHandler fn => Bridge.unregisterGlobalHandler (ObsVal fn)
  | BridgeSetInstance instance => Bridge.setInstance instance
  | BridgeClearInstance => Bridge.clearInstance
  | BridgeSend objectName methodName payload queue =>
      statement (Bridge.send objectName methodName payload queue)
  | BridgeWhenReady => statement Bridge.whenReady
  | ApiSend payload objectName methodName queue =>
      statement (Api.send payload objectName methodName queue)
  | ApiOn event handler => statement (Api.on event handler)
  | ApiOff event handler => Api.off event handler
  | ApiOnMessage handler => statement (Api.onMessage (ObsVal handler))
  | ApiOffMessage handler => Api.offMessage (ObsVal handler)
  | BusSubscribe type handler => statement (EventBus.subscribe type (SubVal handler))
  | BusUnsubscribe type handler => EventBus.unsubscribe type (SubVal handler)
  | BusOnce type handler => EventBus.once type handler
  | BusClear type => EventBus.clear type
  | BusGetSubscriberCount => statement EventBus.getSubscriberCount
  | WindowEvent e => UnityMessage e
  end.

(** The state of the modules after a history of operations, from the state
    in which they are loaded. *)
Definition run_ops {B : Builtins} {H : Host} (ops : list Op) : M unit :=
  for_each ops run_op.

Definition page_inv (w : World) : Prop := wf w /\ bus_inv w /\ ready_inv w.

(** A statement that completes normally and keeps the invariants. *)
Definition keeps {A} (m : M A) : Prop :=
  forall w, page_inv w -> (exists a, snd (m w) = Returns a) /\ page_inv (fst (m w)).

(** Two states with the same registries, flags and promises. *)
Record same_registries (w w' : World) : Prop := {
  same_handlers : handlers w' = handlers w;
  same_globalHandlers : globalHandlers w' = globalHandlers w;
  same_subscribers : subscribers w' = subscribers w;
  same_installed : _installed w' = _installed w;
  same_closures : closures w' = closures w;
  same_readyPromise : _readyPromise w' = _readyPromise w;
  same_readyResolve : _readyResolve w' = _readyResolve w;
  same_promises : promises w' = promises w
}.

(* ===================================================================== *)
(** * Further properties: vocabulary *)
(* ===================================================================== *)

(** The observers that the application registered with the bridge: the
    members of [globalHandlers] other than the forwarder of the bus. *)
Definition host_observers (w : World) : list Observer :=
  filter (fun o => negb (obs_eqb ObsForwarder o)) (globalHandlers w).

(** The event is [console.error(msg, ...)], or [console.warn(msg)]. *)
Definition is_console_error (msg : string) (ev : Event) : bool :=
  match ev with ConsoleError m _ => String.eqb m msg | _ => false end.

Definition is_console_warn (msg : string) (ev : Event) : bool :=
  match ev with ConsoleWarn m => String.eqb m msg | _ => false end.

(** What the dispatch of an inbound event can add to the trace. *)
Definition inbound_event (ev : Event) : Prop :=
  match ev with
  | Call _ _ | ConsoleError _ _ | CallJsonParse _ => True
  | _ => False
  end.

(** The outbound side of the bridge: handle, queue and readiness future. *)
Record same_outbound (w w' : World) : Prop := {
  same_unityInstance : unityInstance w' = unityInstance w;
  same_queuedSends : queuedSends w' = queuedSends w;
  same_ready_promise : _readyPromise w' = _readyPromise w;
  same_ready_resolve : _readyResolve w' = _readyResolve w;
  same_promise_store : promises w' = promises w
}.

(** [w'] differs from [w] at most in what belongs to the event bus (its
    subscribers, its flag, its closures, the installation of its forwarder)
    and in the trace: the handlers and observers that the application
    registered with the bridge and the outbound side are the same. *)
Record bus_step (w w' : World) : Prop := {
  bus_step_handlers : handlers w' = handlers w;
  bus_step_observers : host_observers w' = host_observers w;
  bus_step_outbound : same_outbound w w'
}.

(** The state after [console.warn(msg)]. *)
Definition warned (msg : string) (w : World) : World :=
  set_trace (trace w ++ [ConsoleWarn msg]) w.

(** The callback that unityEventBus.js hands to [import.meta.hot.dispose]. *)
Definition hot_dispose {B : Builtins} {H : Host} : M unit :=
  try_catch (inst <- read _installed ;;
             if inst then Api.offMessage ObsForwarder else ret tt)
            (fun _ => ret tt) ;;
  modify (set_installed false) ;;
  modify (set_subscribers []).

(** [isLoading] and [isReady], as [useUnityLoader] returns them. *)
Definition isLoading (h : Loader.Hook) : bool :=
  match Loader.loadingState h with
  | Loader.LOADING | Loader.RELOADING => true
  | _ => false
  end.

Definition isReady (h : Loader.Hook) : bool :=
  match Loader.loadingState h with
  | Loader.READY => true
  | _ => false
  end.

(** What holds of the hook after every callback. *)
Record loader_inv (h : Loader.Hook) : Prop := {
  inv_ref : Loader.unityInstanceRef h = Loader.unityInstance h;
  inv_created :
    Loader.createdRef h =
      match Loader.unityInstance h with Some _ => true | None => false end;
  inv_ready : Loader.loadingState h = Loader.READY -> Loader.unityInstance h <> None;
  inv_error : Loader.loadingState h = Loader.ERROR -> Loader.loadError h <> None;
  inv_reloading : Loader.loadingState h <> Loader.RELOADING;
  inv_ids : Forall (fun c => fst c <= Loader.loadIdRef h) (Loader.creating h);
  inv_ids_distinct : NoDup (map fst (Loader.creating h));
  inv_scripts : Forall (fun s => fst s < Loader.scripts h) (Loader.settled h);
  inv_creating_scripts : Forall (fun c => snd c < Loader.scripts h) (Loader.creating h);
  inv_listening : Forall (fun k => k < Loader.scripts h) (Loader.listening h);
  inv_awaiting : forall p, Loader.awaiting h = Some p -> p < Loader.scripts h
}.

(* ===================================================================== *)
(** * UnityMessage.jslib *)
(* ===================================================================== *)

Section Jslib.
Context {B : Builtins} {H : Host}.

(** [window.dispatchEvent(new CustomEvent('UnityMessage', { detail: msg }))]:
    the listeners run before it returns; the bridge's is the one listener
    that the repository registers. *)
Definition dispatchEvent (msg : JsVal) : M unit := UnityMessage (CustomEvent msg).

Definition NotifyReactUnityIsReady : M unit :=
  let msg := VObj [("type", VStr "UnityReady"); ("payload", VNull)] in
  dispatchEvent msg.

(** [jsonStr] is what [UTF8ToString(jsonPtr)] returned. *)
Definition SendGameResultsToJS (jsonStr : string) : M unit :=
  let payload := VStr jsonStr in
  let msg := VObj [("type", VStr "GameResult"); ("payload", payload)] in
  dispatchEvent msg.
End Jslib.

(* ===================================================================== *)
(** * UnityOverlay.jsx *)
(* ===================================================================== *)

(** What [UnityOverlay] returns: the error box, with its message and the
    Retry button; the box with the spinner; or [null]. *)
Inductive Overlay : Type :=
| ErrorOverlay (msg : JsVal)
| LoadingOverlay
| NoOverlay.

Definition UnityOverlay {B : Builtins} (loadError unityReady isLoading isReady : JsVal)
  : Overlay :=
  if truthy loadError then
    ErrorOverlay
      (if truthy (if truthy loadError then get loadError "message" else loadError)
       then get loadError "message"
       else VStr (String_ loadError))
  else
    (* Prefer booleans when provided; fall back to unityReady if needed. *)
    let showLoading :=
      if String.eqb (typeof isLoading) "boolean"
      then (if truthy isLoading then VBool (negb (truthy isReady)) else isLoading)
      else VBool (negb (truthy unityReady)) in
    if truthy showLoading then LoadingOverlay else NoOverlay.

(** The overlay as [UnityGame] renders it, from what the hook returns and
    its own [unityReady]. *)
Definition game_overlay {B : Builtins} (h : Loader.Hook) (unityReady : JsVal) : Overlay :=
  UnityOverlay (match Loader.loadError h with Some e => e | None => VNull end)
    unityReady (VBool (isLoading h)) (VBool (isReady h)).





(** The instances that the creations of a history settle with. *)
Definition created_instances (steps : list Loader.Step) : list Instance :=
  flat_map (fun s => match s with
                     | Loader.Created _ (Returns i) => [i]
                     | _ => []
                     end) steps.

(** [inst_id] stands for the identity of the instance object: among these
    instances, two with the same id are one. *)
Definition identified (l : list Instance) : Prop :=
  forall i j, In i l -> In j l -> inst_id i = inst_id j -> i = j.

(* ===================================================================== *)
(** * Concrete inputs *)
(* ===================================================================== *)

Module Sample.

(** An instance with [SendMessage] and [Quit], as the engine builds it. *)
Definition engine (id : nat) : Instance :=
  {| inst_id := id;
     SendMessage := Some (fun _ _ _ => Returns VUndefined);
     Quit := Some (Returns VUndefined) |}.

(** A host whose functions all return, and one whose function 1 throws. *)
Definition quiet : Host := {| host_fn := fun _ _ _ => Returns VUndefined |}.

Definition faulty : Host :=
  {| host_fn := fun id _ _ =>
                  match id with
                  | 1 => Throws (Error "boom")
                  | _ => Returns VUndefined
                  end |}.

Definition q : string := String RefJson.dquote EmptyString.

(** ['{"userId":"user-123"}'], ['{"a":1}'] and ['{"score":10}'] *)
Definition json_user : string :=
  ("{" ++ q ++ "userId" ++ q ++ ":" ++ q ++ "user-123" ++ q ++ "}")%string.

Definition json_a : string := ("{" ++ q ++ "a" ++ q ++ ":1}")%string.

Definition json_score : string := ("{" ++ q ++ "score" ++ q ++ ":10}")%string.

(** [send({userId:'user-123'}, 'JSEventManager', 'OnStartRound')] *)
Definition start_round : OutboundMessage :=
  {| objectName := VStr "JSEventManager";
     methodName := VStr "OnStartRound";
     payload := VObj [("userId", VStr "user-123")] |}.

(** The detail of a ['GameResult'] event, as [SendGameResultsToJS] of
    [UnityMessage.jslib] builds it. *)
Definition game_result (payload : string) : JsVal :=
  VObj [("type", VStr "GameResult"); ("payload", VStr payload)].

(** The page after [on('GameResult', f1)], [on('GameResult', f2)],
    [onMessage(f3)] and [subscribe('GameResult', f4)]. *)
Definition listening {B : Builtins} {H : Host} : World :=
  fst ((Api.on (VStr "GameResult") (VFun 1) ;;
        Api.on (VStr "GameResult") (VFun 2) ;;
        Api.onMessage (ObsVal (VFun 3)) ;;
        EventBus.subscribe (VStr "GameResult") (SubVal (VFun 4))) initial).

(** A first load is under way when [reload] starts a second one: mount, the
    loader script arrives, [reload] is called and its timer fires, the second
    loader script arrives.  Two creations are now pending, with load ids 1
    and 2. *)
Definition overlapping_loads : list Loader.Step :=
  [Loader.Mount; Loader.ScriptLoaded 0; Loader.Reload; Loader.SettleTimer;
   Loader.ScriptLoaded 1].

(** A handle that has no [SendMessage]. *)
Definition mute (id : nat) : Instance :=
  {| inst_id := id; SendMessage := None; Quit := None |}.

(** The hook after a first load that went well. *)
Definition loaded : Loader.Hook :=
  Loader.run [Loader.Mount; Loader.ScriptLoaded 0; Loader.Created 1 (Returns (engine 1))]
    (Loader.initial true true).

End Sample.

(* ===================================================================== *)
(** * Equality tests decide equality *)
(* ===================================================================== *)

Section JsValInd.
Variable P : JsVal -> Prop.
Hypothesis Hundef : P VUndefined.
Hypothesis Hnull : P VNull.
Hypothesis Hbool : forall b, P (VBool b).
Hypothesis Hnum : forall n, P (VNum n).
Hypothesis Hstr : forall s, P (VStr s).
Hypothesis Harr : forall items, Forall P items -> P (VArr items).
Hypothesis Hobj : forall fields, Forall (fun kv => P (snd kv)) fields -> P (VObj fields).
Hypothesis Hfun : forall id, P (VFun id).

(** Induction on values, with the hypothesis for every item of an array and
every field of an object. *)
Lemma JsVal_nested_ind : forall v, P v.
Proof.
  fix IH 1. intros [ | | b | n | s | items | fields | id ].
  - exact Hundef.
  - exact Hnull.
  - apply Hbool.
  - apply Hnum.
  - apply Hstr.
  - apply Harr. induction items as [|x items IHl]; constructor; [apply IH | exact IHl].
  - apply Hobj. induction fields as [|[k x] fields IHl]; constructor; [apply IH | exact IHl].
  - apply Hfun.
Qed.
End JsValInd.

Lemma eqb_eq (a b : JsVal) : Js.eqb a b = true <-> a = b.
Proof.
  revert b. induction a using JsVal_nested_ind; intros c; destruct c; cbn;
    try (split; [discriminate | congruence]); try (split; [reflexivity | reflexivity]).
  - rewrite Bool.eqb_true_iff. split; congruence.
  - rewrite Z.eqb_eq. split; congruence.
  - rewrite String.eqb_eq. split; congruence.
  - revert items0. induction H as [|x xs Hx Hxs IH]; intros [|y ys];
      try (split; [reflexivity || discriminate | reflexivity || congruence]).
    rewrite andb_true_iff, Hx. specialize (IH ys).
    split.
    + intros [-> Hgo]. apply IH in Hgo. congruence.
    + intros Heq. injection Heq as -> ->. split; [reflexivity|]. apply IH. reflexivity.
  - revert fields0. induction H as [|[k x] xs Hx Hxs IH]; intros [|[k' y] ys];
      try (split; [reflexivity || discriminate | reflexivity || congruence]).
    cbn in Hx. rewrite !andb_true_iff, Hx, String.eqb_eq. specialize (IH ys).
    split.
    + intros [[-> ->] Hgo]. apply IH in Hgo. congruence.
    + intros Heq. injection Heq as -> -> ->. repeat split. apply IH. reflexivity.
  - rewrite Nat.eqb_eq. split; congruence.
Qed.

Lemma eqb_refl (a : JsVal) : Js.eqb a a = true.
Proof. apply eqb_eq. reflexivity. Qed.

Lemma eqb_neq (a b : JsVal) : Js.eqb a b = false <-> a <> b.
Proof.
  rewrite <- eqb_eq. destruct (Js.eqb a b); split; congruence.
Qed.

Lemma sub_eqb_eq (a b : Subscriber) : sub_eqb a b = true <-> a = b.
Proof.
  destruct a, b; cbn; try (split; [discriminate | congruence]).
  - rewrite eqb_eq. split; congruence.
  - rewrite !andb_true_iff, Nat.eqb_eq, !eqb_eq. split.
    + intros [[-> ->] ->]. reflexivity.
    + intros Heq. injection Heq as -> -> ->. auto.
Qed.

Lemma obs_eqb_eq (a b : Observer) : obs_eqb a b = true <-> a = b.
Proof.
  destruct a, b; cbn; try (split; [discriminate | congruence]).
  - rewrite eqb_eq. split; congruence.
  - split; reflexivity.
Qed.

Lemma callee_eqb_eq (a b : Callee) : callee_eqb a b = true <-> a = b.
Proof.
  destruct a, b; cbn; try (split; [discriminate | congruence]);
    try rewrite Nat.eqb_eq; split; congruence.
Qed.

Lemma args_eqb_eq (a b : list JsVal) : args_eqb a b = true <-> a = b.
Proof.
  revert b. induction a as [|x a IH]; intros [|y b]; cbn;
    try (split; [discriminate | congruence]); try (split; reflexivity).
  rewrite andb_true_iff, eqb_eq, IH. split.
  - intros [-> ->]. reflexivity.
  - intros Heq. injection Heq as -> ->. auto.
Qed.

(* ===================================================================== *)
(** * Maps and sets *)
(* ===================================================================== *)

Section CollectionFacts.
Context {K V : Type}.
Variable keq : K -> K -> bool.
Hypothesis keq_eq : forall a b, keq a b = true <-> a = b.

Lemma keq_refl a : keq a a = true.
Proof. apply keq_eq. reflexivity. Qed.

Lemma keq_false a b : keq a b = false <-> a <> b.
Proof. rewrite <- keq_eq. destruct (keq a b); split; congruence. Qed.

Lemma map_get_set_eq k (v : V) m : map_get keq k (map_set keq k v m) = Some v.
Proof.
  induction m as [|[k' x] m IH]; cbn.
  - rewrite keq_refl. reflexivity.
  - destruct (keq k k') eqn:E; cbn; rewrite E; auto.
Qed.

Lemma map_get_set_ne k k' (v : V) m :
  k <> k' -> map_get keq k (map_set keq k' v m) = map_get keq k m.
Proof.
  intros Hne. induction m as [|[j x] m IH]; cbn.
  - apply keq_false in Hne. rewrite Hne. reflexivity.
  - destruct (keq k' j) eqn:E; cbn.
    + apply keq_eq in E. subst j. apply keq_false in Hne. rewrite Hne. reflexivity.
    + destruct (keq k j); auto.
Qed.

Lemma map_get_In k (s : V) m : map_get keq k m = Some s -> In (k, s) m.
Proof.
  induction m as [|[j x] m IH]; cbn; [discriminate|].
  destruct (keq k j) eqn:E.
  - apply keq_eq in E. subst j. intros [= ->]. auto.
  - auto.
Qed.

Lemma map_get_None k (m : list (K * V)) :
  map_get keq k m = None -> ~ In k (map fst m).
Proof.
  induction m as [|[j x] m IH]; cbn; [tauto|].
  destruct (keq k j) eqn:E; [discriminate|].
  apply keq_false in E. intros Hn [Hj | Hin]; [congruence | tauto].
Qed.

Lemma In_map_get k (s : V) m :
  NoDup (map fst m) -> In (k, s) m -> map_get keq k m = Some s.
Proof.
  induction m as [|[j x] m IH]; cbn; [tauto|].
  intros Hnd [Heq | Hin].
  - injection Heq as -> ->. rewrite keq_refl. reflexivity.
  - inversion Hnd as [|? ? Hj Hnd']; subst.
    destruct (keq k j) eqn:E; auto.
    apply keq_eq in E. subst j. exfalso. apply Hj.
    apply (in_map fst) in Hin. exact Hin.
Qed.

Lemma keys_map_set_In k k' (v : V) m :
  In k (map fst (map_set keq k' v m)) <-> k = k' \/ In k (map fst m).
Proof.
  induction m as [|[j x] m IH]; cbn.
  - intuition congruence.
  - destruct (keq k' j) eqn:E; cbn.
    + apply keq_eq in E. subst j. intuition congruence.
    + rewrite IH. intuition congruence.
Qed.

Lemma NoDup_keys_map_set k (v : V) m :
  NoDup (map fst m) -> NoDup (map fst (map_set keq k v m)).
Proof.
  induction m as [|[j x] m IH]; cbn; intros Hnd.
  - constructor; [intros [] | constructor].
  - inversion Hnd as [|? ? Hj Hnd']; subst.
    destruct (keq k j) eqn:E; cbn.
    + constructor; assumption.
    + constructor; [|auto]. rewrite keys_map_set_In.
      apply keq_false in E. intros [<- | Hin]; [congruence | tauto].
Qed.

Lemma In_map_set k (v : V) m j s :
  In (j, s) (map_set keq k v m) -> (j = k /\ s = v) \/ In (j, s) m.
Proof.
  induction m as [|[i x] m IH]; cbn.
  - intros [[= <- <-] | []]. auto.
  - destruct (keq k i) eqn:E; cbn.
    + apply keq_eq in E. subst i. intros [[= <- <-] | Hin]; auto.
    + intros [Heq | Hin]; auto. destruct (IH Hin); auto.
Qed.

Lemma In_map_delete k m j (s : V) :
  In (j, s) (map_delete keq k m) -> In (j, s) m.
Proof.
  induction m as [|[i x] m IH]; cbn; [tauto|].
  destruct (keq k i); cbn; intuition.
Qed.

Lemma keys_map_delete_In k m j :
  In j (map fst (map_delete (V:=V) keq k m)) -> In j (map fst m).
Proof.
  induction m as [|[i x] m IH]; cbn; [tauto|].
  destruct (keq k i); cbn; intuition.
Qed.

Lemma NoDup_keys_map_delete k (m : list (K * V)) :
  NoDup (map fst m) -> NoDup (map fst (map_delete keq k m)).
Proof.
  induction m as [|[j x] m IH]; cbn; intros Hnd; [constructor|].
  inversion Hnd as [|? ? Hj Hnd']; subst.
  destruct (keq k j); cbn; [assumption|].
  constructor; [|auto]. intros Hin. apply Hj.
  eapply keys_map_delete_In; eauto.
Qed.

Lemma map_get_delete_eq k (m : list (K * V)) :
  NoDup (map fst m) -> map_get keq k (map_delete keq k m) = None.
Proof.
  induction m as [|[j x] m IH]; cbn; intros Hnd; [reflexivity|].
  inversion Hnd as [|? ? Hj Hnd']; subst.
  destruct (keq k j) eqn:E; cbn.
  - apply keq_eq in E. subst j.
    destruct (map_get keq k m) eqn:G; [|reflexivity].
    apply map_get_In in G. apply (in_map fst) in G. tauto.
  - rewrite E. auto.
Qed.

Lemma map_get_delete_ne k k' (m : list (K * V)) :
  k <> k' -> map_get keq k (map_delete keq k' m) = map_get keq k m.
Proof.
  intros Hne. induction m as [|[j x] m IH]; cbn; [reflexivity|].
  destruct (keq k' j) eqn:E; cbn.
  - apply keq_eq in E. subst j. apply keq_false in Hne. rewrite Hne. reflexivity.
  - destruct (keq k j); auto.
Qed.

(** Sets *)

Lemma set_has_In x (s : list K) : set_has keq x s = true <-> In x s.
Proof.
  unfold set_has. rewrite existsb_exists. split.
  - intros [y [Hin E]]. apply keq_eq in E. subst. exact Hin.
  - intros Hin. exists x. split; [exact Hin | apply keq_refl].
Qed.

Lemma In_set_add x y (s : list K) : In x (set_add keq y s) <-> x = y \/ In x s.
Proof.
  unfold set_add. destruct (set_has keq y s) eqn:E.
  - apply set_has_In in E. intuition congruence.
  - rewrite in_app_iff. cbn. intuition congruence.
Qed.

Lemma NoDup_set_add y (s : list K) : NoDup s -> NoDup (set_add keq y s).
Proof.
  unfold set_add. intros Hnd. destruct (set_has keq y s) eqn:E; [assumption|].
  assert (~ In y s) as Hn.
  { intros Hin. apply set_has_In in Hin. congruence. }
  clear E. induction s as [|z s IH]; cbn.
  - constructor; [intros [] | constructor].
  - inversion Hnd as [|? ? Hz Hnd']; subst. constructor.
    + rewrite in_app_iff. cbn. cbn in Hn. intuition congruence.
    + apply IH; [assumption|]. cbn in Hn. tauto.
Qed.

Lemma In_set_delete x y (s : list K) : In x (set_delete keq y s) -> In x s.
Proof.
  induction s as [|z s IH]; cbn; [tauto|].
  destruct (keq y z); cbn; intuition.
Qed.

Lemma NoDup_set_delete y (s : list K) : NoDup s -> NoDup (set_delete keq y s).
Proof.
  induction s as [|z s IH]; cbn; intros Hnd; [constructor|].
  inversion Hnd as [|? ? Hz Hnd']; subst.
  destruct (keq y z); [assumption|].
  constructor; [|auto]. intros Hin. apply Hz. eapply In_set_delete; eauto.
Qed.

Lemma In_set_delete_iff x y (s : list K) :
  NoDup s -> (In x (set_delete keq y s) <-> x <> y /\ In x s).
Proof.
  induction s as [|z s IH]; cbn; intros Hnd; [tauto|].
  inversion Hnd as [|? ? Hz Hnd']; subst.
  destruct (keq y z) eqn:E.
  - apply keq_eq in E. subst z. split.
    + intros Hin. split; [intros ->; tauto | auto].
    + intros [Hne [Heq | Hin]]; [congruence | assumption].
  - apply keq_false in E. cbn. rewrite (IH Hnd'). intuition congruence.
Qed.

Lemma set_delete_not_In y (s : list K) : ~ In y s -> set_delete keq y s = s.
Proof.
  induction s as [|z s IH]; cbn; intros Hn; [reflexivity|].
  destruct (keq y z) eqn:E.
  - apply keq_eq in E. subst. tauto.
  - f_equal. apply IH. tauto.
Qed.

Lemma length_set_delete_In y (s : list K) :
  In y s -> S (List.length (set_delete keq y s)) = List.length s.
Proof.
  induction s as [|z s IH]; cbn; [tauto|].
  destruct (keq y z) eqn:E; [reflexivity|].
  intros [Heq | Hin].
  - subst. rewrite keq_refl in E. discriminate.
  - cbn. f_equal. auto.
Qed.

Lemma length_set_add y (s : list K) :
  List.length (set_add keq y s) = if set_has keq y s then List.length s else S (List.length s).
Proof.
  unfold set_add. destruct (set_has keq y s); [reflexivity|].
  rewrite length_app. cbn. lia.
Qed.
End CollectionFacts.

Lemma fold_left_total {K V} (m : list (K * list V)) n :
  fold_left (fun count s => count + List.length (snd s)) m n = n + total m.
Proof.
  revert n. induction m as [|e m IH]; intros n; cbn; [lia|].
  rewrite IH. lia.
Qed.

Section TotalFacts.
Context {K V : Type}.
Variable keq : K -> K -> bool.
Hypothesis keq_eq : forall a b, keq a b = true <-> a = b.

Lemma total_map_set_Some k (s s' : list V) m :
  map_get keq k m = Some s ->
  total (map_set keq k s' m) + List.length s = total m + List.length s'.
Proof.
  induction m as [|[j x] m IH]; cbn; [discriminate|].
  destruct (keq k j) eqn:E; cbn.
  - intros [= ->]. lia.
  - intros G. specialize (IH G). lia.
Qed.

Lemma total_map_set_None k (s' : list V) m :
  map_get keq k m = None ->
  total (map_set keq k s' m) = total m + List.length s'.
Proof.
  induction m as [|[j x] m IH]; cbn.
  - intros _. lia.
  - destruct (keq k j) eqn:E; cbn; [discriminate|].
    intros G. specialize (IH G). lia.
Qed.

Lemma total_map_delete k (s : list V) m :
  map_get keq k m = Some s ->
  total (map_delete keq k m) + List.length s = total m.
Proof.
  induction m as [|[j x] m IH]; cbn; [discriminate|].
  destruct (keq k j) eqn:E; cbn.
  - intros [= ->]. lia.
  - intros G. specialize (IH G). lia.
Qed.

Lemma total_map_delete_None k (m : list (K * list V)) :
  map_get keq k m = None -> map_delete keq k m = m.
Proof.
  induction m as [|[j x] m IH]; cbn; [reflexivity|].
  destruct (keq k j) eqn:E; [discriminate|].
  intros G. f_equal. auto.
Qed.
End TotalFacts.

(* ===================================================================== *)
(** * Reasoning about statements *)
(* ===================================================================== *)

Lemma since_app (w w' : World) evs : trace w' = trace w ++ evs -> since w w' = evs.
Proof.
  intros E. unfold since. rewrite E.
  rewrite skipn_app, skipn_all, Nat.sub_diag. reflexivity.
Qed.

Lemma wp_elim {A} (m : M A) w Q :
  wp m w Q -> Q (snd (m w)) (fst (m w)) (since w (fst (m w))).
Proof.
  intros [evs [E HQ]]. rewrite (since_app _ _ _ E). exact HQ.
Qed.

Lemma wp_trace {A} (m : M A) w Q :
  wp m w Q -> trace (fst (m w)) = trace w ++ since w (fst (m w)).
Proof.
  intros [evs [E HQ]]. rewrite (since_app _ _ _ E). exact E.
Qed.

Lemma wp_conseq {A} (m : M A) w (Q Q' : Completion A -> World -> list Event -> Prop) :
  wp m w Q -> (forall r w' evs, Q r w' evs -> Q' r w' evs) -> wp m w Q'.
Proof. intros [evs [E HQ]] Himp. exists evs. auto. Qed.

Lemma wp_ret {A} (a : A) w Q : Q (Returns a) w [] -> wp (ret a) w Q.
Proof. intros HQ. exists []. cbn. rewrite app_nil_r. auto. Qed.

Lemma wp_throw {A} e w (Q : Completion A -> World -> list Event -> Prop) :
  Q (Throws e) w [] -> wp (throw e) w Q.
Proof. intros HQ. exists []. cbn. rewrite app_nil_r. auto. Qed.

Lemma wp_outcome {A} (c : Completion A) w Q :
  Q c w [] -> wp (fun w => (w, c)) w Q.
Proof. intros HQ. exists []. cbn. rewrite app_nil_r. auto. Qed.

Lemma wp_read {A} (f : World -> A) w Q : Q (Returns (f w)) w [] -> wp (read f) w Q.
Proof. intros HQ. exists []. cbn. rewrite app_nil_r. auto. Qed.

Lemma wp_modify (f : World -> World) w Q :
  trace (f w) = trace w -> Q (Returns tt) (f w) [] -> wp (modify f) w Q.
Proof. intros E HQ. exists []. cbn. rewrite app_nil_r. auto. Qed.

Lemma wp_emit ev w Q :
  Q (Returns tt) (set_trace (trace w ++ [ev]) w) [ev] -> wp (emit ev) w Q.
Proof. intros HQ. exists [ev]. cbn. auto. Qed.

Lemma wp_bind {A C} (m : M A) (k : A -> M C) w Q :
  wp m w (fun r w1 e1 =>
            match r with
            | Returns a => wp (k a) w1 (fun r2 w2 e2 => Q r2 w2 (e1 ++ e2))
            | Throws e => Q (Throws e) w1 e1
            end) ->
  wp (bind m k) w Q.
Proof.
  unfold wp, bind. destruct (m w) as [w1 [a|e]]; cbn.
  - intros [e1 [E1 [e2 [E2 HQ]]]]. exists (e1 ++ e2).
    rewrite E2, E1, app_assoc. auto.
  - intros [e1 [E1 HQ]]. exists e1. auto.
Qed.

Lemma wp_try_catch {A} (body : M A) (handler : JsVal -> M A) w Q :
  wp body w (fun r w1 e1 =>
               match r with
               | Returns a => Q (Returns a) w1 e1
               | Throws e => wp (handler e) w1 (fun r2 w2 e2 => Q r2 w2 (e1 ++ e2))
               end) ->
  wp (try_catch body handler) w Q.
Proof.
  unfold wp, try_catch. destruct (body w) as [w1 [a|e]]; cbn.
  - intros [e1 [E1 HQ]]. exists e1. auto.
  - intros [e1 [E1 [e2 [E2 HQ]]]]. exists (e1 ++ e2).
    rewrite E2, E1, app_assoc. auto.
Qed.

Lemma wp_try_finally {A} (body : M A) (fin : M unit) w Q :
  wp body w (fun r w1 e1 =>
               wp fin w1 (fun r2 w2 e2 =>
                            match r2 with
                            | Returns _ => Q r w2 (e1 ++ e2)
                            | Throws e => Q (Throws e) w2 (e1 ++ e2)
                            end)) ->
  wp (try_finally body fin) w Q.
Proof.
  unfold wp, try_finally. destruct (body w) as [w1 r]; cbn.
  intros [e1 [E1 [e2 [E2 HQ]]]]. exists (e1 ++ e2).
  destruct (fin w1) as [w2 [u|e]]; cbn in *; rewrite E2, E1, app_assoc; auto.
Qed.

(** A loop, with an invariant over what is left of the list, the state and
    the events of the loop so far. *)
Lemma wp_for_each {A} (I : list A -> World -> list Event -> Prop)
  (body : A -> M unit) l w Q :
  I l w [] ->
  (forall x rest w evs, I (x :: rest) w evs ->
     wp (body x) w (fun r w' e => r = Returns tt /\ I rest w' (evs ++ e))) ->
  (forall w' evs, I [] w' evs -> Q (Returns tt) w' evs) ->
  wp (for_each l body) w Q.
Proof.
  intros Hinit Hbody Hpost.
  assert (G : forall l w evs0, I l w evs0 ->
            wp (for_each l body) w
              (fun r w' e => r = Returns tt /\ I [] w' (evs0 ++ e))).
  { clear l w Hinit. induction l as [|x rest IH]; intros w evs0 HI; cbn [for_each].
    - apply wp_ret. rewrite app_nil_r. auto.
    - apply wp_bind. eapply wp_conseq; [apply (Hbody _ _ _ _ HI)|].
      cbn. intros r w' e [-> HI'].
      eapply wp_conseq; [apply (IH _ _ HI')|].
      cbn. intros r w'' e' [-> HI'']. rewrite app_assoc. auto. }
  eapply wp_conseq; [apply (G _ _ _ Hinit)|].
  cbn. intros r w' e [-> HI]. auto.
Qed.

Ltac wp_step :=
  lazymatch goal with
  | |- wp (bind _ _) _ _ => apply wp_bind
  | |- wp (ret _) _ _ => apply wp_ret
  | |- wp (throw _) _ _ => apply wp_throw
  | |- wp (read _) _ _ => apply wp_read
  | |- wp (modify _) _ _ => apply wp_modify; [reflexivity|]
  | |- wp (emit _) _ _ => apply wp_emit
  | |- wp (console_error _ _) _ _ => apply wp_emit
  | |- wp (console_warn _) _ _ => apply wp_emit
  | |- wp (try_catch _ _) _ _ => apply wp_try_catch
  | |- wp (try_finally _ _) _ _ => apply wp_try_finally
  | |- wp (fun w => (w, _)) _ _ => apply wp_outcome
  end.

Ltac simpl_world :=
  cbn [handlers globalHandlers unityInstance queuedSends _readyPromise
       _readyResolve subscribers _installed promises closures trace
       set_handlers set_globalHandlers set_unityInstance set_queuedSends
       set_readyPromise set_readyResolve set_subscribers set_installed
       set_promises set_closures set_trace app].

Ltac wp_steps := simpl_world; repeat (wp_step; cbn beta iota; simpl_world).

(* ===================================================================== *)
(** * The bridge: sending *)
(* ===================================================================== *)

Section SendFacts.
Context {B : Builtins} {H : Host}.

(** What [doSend] does when there is a handle with [SendMessage]. *)
Lemma doSend_spec o m p w inst call Q :
  unityInstance w = Some inst ->
  SendMessage inst = Some call ->
  (let ev := CallSendMessage (inst_id inst) o m (Bridge.outbound_arg p) in
   match call o m (Bridge.outbound_arg p) with
   | Returns _ => Q (Returns true) (set_trace (trace w ++ [ev]) w) [ev]
   | Throws err =>
       let w1 := set_trace (trace w ++ [ev]) w in
       let ev2 := ConsoleError "unityBridge SendMessage failed" err in
       Q (Returns false) (set_trace (trace w1 ++ [ev2]) w1) [ev; ev2]
   end) ->
  wp (Bridge.doSend o m p) w Q.
Proof.
  intros Hi Hc HQ. unfold Bridge.doSend.
  wp_steps. rewrite Hi, Hc. wp_steps.
  cbn zeta in HQ. destruct (call o m (Bridge.outbound_arg p)); wp_steps; exact HQ.
Qed.
End SendFacts.

Section SendTheorems.
Context {B : Builtins} {H : Host}.

Lemma outbound_arg_serialized p : Bridge.outbound_arg p = serialized p.
Proof.
  unfold Bridge.outbound_arg, serialized.
  destruct p; cbn; try reflexivity.
  rewrite JSON_stringify_undefined. reflexivity.
Qed.

Lemma since_refl w : since w w = [].
Proof. apply since_app. rewrite app_nil_r. reflexivity. Qed.


Lemma send_queue_default q :
  truthy (if Js.eqb q VUndefined then VBool true else q) = queue_enabled q.
Proof. destruct q; reflexivity. Qed.

Lemma send_spec o m p queue w Q :
  match unityInstance w with
  | Some {| inst_id := i; SendMessage := Some call |} =>
      let ev := CallSendMessage i o m (serialized p) in
      match call o m (serialized p) with
      | Returns _ => Q (Returns true) (set_trace (trace w ++ [ev]) w) [ev]
      | Throws err =>
          let w1 := set_trace (trace w ++ [ev]) w in
          let ev2 := ConsoleError "unityBridge SendMessage failed" err in
          Q (Returns false) (set_trace (trace w1 ++ [ev2]) w1) [ev; ev2]
      end
  | _ =>
      if queue_enabled queue
      then Q (Returns true)
             (set_queuedSends
                (queuedSends w ++ [{| objectName := o; methodName := m; payload := p |}]) w)
             []
      else Q (Returns false) w []
  end ->
  wp (Bridge.send o m p queue) w Q.
Proof.
  intros HQ. unfold Bridge.send. wp_steps.
  rewrite send_queue_default.
  destruct (unityInstance w) as [[i [call|] qt]|] eqn:Hi; cbn [Bridge.has_SendMessage SendMessage].
  - eapply doSend_spec; [exact Hi | reflexivity |].
    cbn [inst_id]. rewrite outbound_arg_serialized. exact HQ.
  - destruct (queue_enabled queue); wp_steps; exact HQ.
  - destruct (queue_enabled queue); wp_steps; exact HQ.
Qed.

(** [send] with [null] for the options throws before it does anything. *)
Lemma send_call_null (w : World) (o m p : JsVal) :
  Bridge.send_call o m p VNull w = (w, Throws DestructureError).
Proof. reflexivity. Qed.


End SendTheorems.

Lemma deliveries_app a b : deliveries (a ++ b) = deliveries a ++ deliveries b.
Proof.
  induction a as [|ev a IH]; cbn; [reflexivity|].
  destruct ev; cbn; rewrite ?IH; reflexivity.
Qed.

Lemma settle_length p v ps : List.length (Bridge.settle p v ps) = List.length ps.
Proof.
  revert p. induction ps as [|st ps IH]; intros p; [destruct p; reflexivity|].
  destruct st, p; cbn; rewrite ?IH; reflexivity.
Qed.

Lemma settle_pending p v ps :
  nth_error ps p = Some Pending -> nth_error (Bridge.settle p v ps) p = Some (Fulfilled v).
Proof.
  revert p. induction ps as [|st ps IH]; intros p; [destruct p; discriminate|].
  destruct p; cbn.
  - intros [= ->]. reflexivity.
  - intros E. destruct st; cbn; auto.
Qed.

Lemma settle_other p q v ps :
  p <> q -> nth_error (Bridge.settle p v ps) q = nth_error ps q.
Proof.
  revert p q. induction ps as [|st ps IH]; intros p q Hne; [destruct p; reflexivity|].
  destruct p, q; cbn; try congruence.
  - destruct st; reflexivity.
  - destruct st; reflexivity.
  - destruct st; cbn; apply IH; congruence.
Qed.

Lemma settle_fulfilled p q v u ps :
  nth_error ps q = Some (Fulfilled u) -> nth_error (Bridge.settle p v ps) q = Some (Fulfilled u).
Proof.
  revert p q. induction ps as [|st ps IH]; intros p q; [destruct q; discriminate|].
  destruct p, q; cbn.
  - intros [= ->]. reflexivity.
  - destruct st; auto.
  - intros [= ->]. reflexivity.
  - intros E. destruct st; cbn; auto.
Qed.

Section SetInstanceFacts.
Context {B : Builtins} {H : Host}.

(** The flush of the queue: one call of [SendMessage] per item, in order,
  and nothing but the trace changes. *)
Lemma flush_spec q w inst Q :
  unityInstance w = Some inst ->
  (forall evs, deliveries evs = flushed (Some inst) q ->
               Q (Returns tt) (set_trace (trace w ++ evs) w) evs) ->
  wp (for_each q (fun item =>
        try_catch (Bridge.doSend (objectName item) (methodName item) (payload item) ;; ret tt)
                  (fun _ => ret tt))) w Q.
Proof.
  intros Hi HQ.
  apply (wp_for_each (fun rest w' evs =>
           w' = set_trace (trace w ++ evs) w /\
           deliveries evs ++ flushed (Some inst) rest = flushed (Some inst) q)).
  - split; [|reflexivity]. rewrite app_nil_r. destruct w; reflexivity.
  - intros x rest w1 evs [-> Hd]. wp_steps.
    unfold flushed in Hd.
    destruct (SendMessage inst) as [call|] eqn:Hc.
    + eapply doSend_spec; [exact Hi | exact Hc |].
      cbn zeta. rewrite outbound_arg_serialized.
      destruct (call (objectName x) (methodName x) (serialized (payload x))); wp_steps.
      * split; [reflexivity|]. split.
        -- rewrite <- !app_assoc. reflexivity.
        -- unfold flushed. rewrite Hc, <- Hd.
           rewrite !deliveries_app, <- !app_assoc. reflexivity.
      * split; [reflexivity|]. split.
        -- rewrite <- !app_assoc. reflexivity.
        -- unfold flushed. rewrite Hc, <- Hd.
           rewrite !deliveries_app, <- !app_assoc. reflexivity.
    + unfold Bridge.doSend. wp_steps. rewrite Hi, Hc. wp_steps.
      split; [reflexivity|]. rewrite !app_nil_r. split; [reflexivity|].
      unfold flushed. rewrite Hc. exact Hd.
  - intros w' evs [-> Hd]. apply HQ.
    assert (flushed (Some inst) [] = []) as E
      by (unfold flushed; destruct (SendMessage inst); reflexivity).
    rewrite E, app_nil_r in Hd. exact Hd.
Qed.

(** [setInstance], field by field. *)
Lemma setInstance_spec w instance Q :
  (forall evs w',
      deliveries evs = flushed instance (queuedSends w) ->
      trace w' = trace w ++ evs ->
      unityInstance w' = instance ->
      queuedSends w' = match instance with Some _ => [] | None => queuedSends w end ->
      _readyResolve w' = None ->
      _readyPromise w' = match _readyResolve w with Some _ => None | None => _readyPromise w end ->
      promises w' = match _readyResolve w with
                    | Some p => Bridge.settle p instance (promises w)
                    | None => promises w
                    end ->
      handlers w' = handlers w -> globalHandlers w' = globalHandlers w ->
      subscribers w' = subscribers w -> _installed w' = _installed w ->
      closures w' = closures w ->
      Q (Returns tt) w' evs) ->
  wp (Bridge.setInstance instance) w Q.
Proof.
  intros HQ. unfold Bridge.setInstance. wp_steps.
  destruct instance as [inst|].
  - destruct (Nat.ltb 0 (List.length (queuedSends w))) eqn:Hlen.
    + wp_steps. eapply flush_spec; [reflexivity|].
      intros evs Hd. wp_steps.
      destruct (_readyResolve w) as [p|] eqn:Hr; unfold Bridge.resolve_promise; wp_steps;
        rewrite ?app_nil_r; apply HQ; cbn; rewrite ?Hr; auto.
    + assert (queuedSends w = []) as Hq.
      { destruct (queuedSends w); [reflexivity | discriminate]. }
      wp_steps.
      destruct (_readyResolve w) as [p|] eqn:Hr; unfold Bridge.resolve_promise; wp_steps;
        apply HQ; cbn; rewrite ?Hr, ?Hq, ?app_nil_r; auto;
        destruct (SendMessage inst); reflexivity.
  - wp_steps.
    destruct (_readyResolve w) as [p|] eqn:Hr; unfold Bridge.resolve_promise; wp_steps;
      apply HQ; cbn; rewrite ?Hr, ?app_nil_r; auto.
Qed.


End SetInstanceFacts.

Section ReadyFacts.
Context {B : Builtins} {H : Host}.

Lemma whenReady_spec w Q :
  match unityInstance w with
  | Some inst =>
      Q (Returns (List.length (promises w)))
        (set_promises (promises w ++ [Fulfilled (Some inst)]) w) []
  | None =>
      match _readyPromise w with
      | Some p => Q (Returns p) w []
      | None =>
          let p := List.length (promises w) in
          Q (Returns p)
            (set_readyPromise (Some p)
               (set_readyResolve (Some p)
                  (set_promises (promises w ++ [Pending]) w))) []
      end
  end ->
  wp Bridge.whenReady w Q.
Proof.
  intros HQ. unfold Bridge.whenReady. wp_steps.
  destruct (unityInstance w) as [inst|].
  - exists []. cbn. rewrite app_nil_r. auto.
  - unfold Bridge._ensureReadyPromise. wp_steps.
    destruct (_readyPromise w) as [p|]; wp_steps; [exact HQ|].
    exists []. cbn. rewrite app_nil_r. split; [reflexivity|].
    wp_steps. exact HQ.
Qed.

Lemma whenReady_pending w p :
  unityInstance w = None -> _readyPromise w = Some p ->
  Bridge.whenReady w = (w, Returns p).
Proof.
  intros Hi Hp.
  assert (G : snd (Bridge.whenReady w) = Returns p /\ fst (Bridge.whenReady w) = w).
  { refine (wp_elim Bridge.whenReady w (fun r w' _ => r = Returns p /\ w' = w) _).
    apply whenReady_spec. rewrite Hi, Hp. auto. }
  destruct (Bridge.whenReady w) as [w' r]. cbn in G. destruct G as [-> ->]. reflexivity.
Qed.

Lemma call_n_whenReady_pending n w p :
  unityInstance w = None -> _readyPromise w = Some p ->
  call_n n Bridge.whenReady w = (w, Returns (repeat p n)).
Proof.
  intros Hi Hp. induction n as [|n IH]; cbn; [reflexivity|].
  unfold bind. rewrite (whenReady_pending _ _ Hi Hp), IH. reflexivity.
Qed.

Lemma nth_error_snoc {A} (l : list A) x : nth_error (l ++ [x]) (List.length l) = Some x.
Proof.
  rewrite nth_error_app2 by lia. rewrite Nat.sub_diag. reflexivity.
Qed.

Lemma nth_error_length_None {A} (l : list A) : nth_error l (List.length l) = None.
Proof. apply nth_error_None. lia. Qed.

(** The first [whenReady] without a handle: its result is pending, and it
  is the promise that the next [setInstance] resolves. *)
Lemma whenReady_first w :
  unityInstance w = None -> ready_inv w ->
  exists p, snd (Bridge.whenReady w) = Returns p /\
            let w1 := fst (Bridge.whenReady w) in
            unityInstance w1 = None /\ _readyPromise w1 = Some p /\
            _readyResolve w1 = Some p /\ promise p w1 = Some Pending /\
            queuedSends w1 = queuedSends w.
Proof.
  intros Hi Hinv.
  refine (wp_elim Bridge.whenReady w
            (fun r w1 _ => exists p, r = Returns p /\
               unityInstance w1 = None /\ _readyPromise w1 = Some p /\
               _readyResolve w1 = Some p /\ promise p w1 = Some Pending /\
               queuedSends w1 = queuedSends w) _).
  apply whenReady_spec. rewrite Hi. unfold ready_inv in Hinv.
  destruct (_readyPromise w) as [p|] eqn:Hp.
  - destruct Hinv as [Hr Hpend]. exists p. repeat split; auto.
  - cbn zeta. eexists. split; [reflexivity|]. cbn. unfold promise. cbn.
    rewrite nth_error_snoc. repeat split; auto.
Qed.

(** C7.  [whenReady()] before [setInstance(h)] and [whenReady()] after it
  are both fulfilled with the handle [h]; while there is no handle all
  calls of [whenReady()] return one and the same pending promise; after
  [clearInstance()] the next [whenReady()] returns a promise that did not
  exist before, is pending, and is fulfilled by the next [setInstance]. *)
Theorem whenReady_one_future_per_handle (w : World) (inst : Instance) :
  unityInstance w = None ->
  ready_inv w ->
  (* called before and after [setInstance]: the same handle *)
  (let w1 := fst (Bridge.whenReady w) in
   let w2 := fst (Bridge.setInstance (Some inst) w1) in
   let w3 := fst (Bridge.whenReady w2) in
   exists p q,
     snd (Bridge.whenReady w) = Returns p /\
     snd (Bridge.whenReady w2) = Returns q /\
     promise p w1 = Some Pending /\
     promise p w3 = Some (Fulfilled (Some inst)) /\
     promise q w3 = Some (Fulfilled (Some inst))) /\
  (* while there is no handle: one pending future for all callers *)
  (forall n,
     let w1 := fst (Bridge.whenReady w) in
     exists p,
       snd (Bridge.whenReady w) = Returns p /\
       promise p w1 = Some Pending /\
       call_n n Bridge.whenReady w1 = (w1, Returns (repeat p n))) /\
  (* after [clearInstance]: a new pending future, for the next handle *)
  (forall (w0 : World) (next : Instance),
     let w1 := fst (Bridge.clearInstance w0) in
     let w2 := fst (Bridge.whenReady w1) in
     exists p,
       snd (Bridge.whenReady w1) = Returns p /\
       promise p w0 = None /\
       promise p w2 = Some Pending /\
       promise p (fst (Bridge.setInstance (Some next) w2)) =
         Some (Fulfilled (Some next))).
Proof.
  intros Hi Hinv.
  destruct (whenReady_first w Hi Hinv) as [p [Hr [Hi1 [Hp1 [Hr1 [Hpend Hq1]]]]]].
  cbn zeta in *.
  split; [|split].
  - set (w1 := fst (Bridge.whenReady w)) in *.
    assert (G : unityInstance (fst (Bridge.setInstance (Some inst) w1)) = Some inst /\
                promise p (fst (Bridge.setInstance (Some inst) w1)) =
                  Some (Fulfilled (Some inst))).
    { refine (wp_elim (Bridge.setInstance (Some inst)) w1
                (fun _ w' _ => unityInstance w' = Some inst /\
                               promise p w' = Some (Fulfilled (Some inst))) _).
      apply setInstance_spec. intros evs w' _ _ Hu _ _ _ Hps _ _ _ _ _.
      split; [exact Hu|]. unfold promise. rewrite Hps, Hr1.
      apply settle_pending. exact Hpend. }
    destruct G as [Hi2 Hp2].
    set (w2 := fst (Bridge.setInstance (Some inst) w1)) in *.
    exists p, (List.length (promises w2)). split; [exact Hr|].
    refine (wp_elim Bridge.whenReady w2
              (fun r w3 _ => r = Returns (List.length (promises w2)) /\
                 promise p w1 = Some Pending /\
                 promise p w3 = Some (Fulfilled (Some inst)) /\
                 promise (List.length (promises w2)) w3 = Some (Fulfilled (Some inst))) _).
    apply whenReady_spec. rewrite Hi2.
    split; [reflexivity|]. split; [exact Hpend|].
    unfold promise in *. cbn. split.
    + rewrite nth_error_app1; [exact Hp2|].
      apply nth_error_Some. rewrite Hp2. discriminate.
    + apply nth_error_snoc.
  - intros n. exists p. split; [exact Hr|]. split; [exact Hpend|].
    apply call_n_whenReady_pending; assumption.
  - intros w0 next.
    assert (G : fst (Bridge.clearInstance w0) =
                set_readyResolve None (set_readyPromise None
                  (set_queuedSends [] (set_unityInstance None w0)))) by reflexivity.
    rewrite G. clear G.
    set (w1 := set_readyResolve None _).
    assert (G : snd (Bridge.whenReady w1) = Returns (List.length (promises w0)) /\
                fst (Bridge.whenReady w1) =
                  set_readyPromise (Some (List.length (promises w0)))
                    (set_readyResolve (Some (List.length (promises w0)))
                       (set_promises (promises w0 ++ [Pending]) w1))).
    { refine (wp_elim Bridge.whenReady w1 (fun r w' _ => r = _ /\ w' = _) _).
      apply whenReady_spec. cbn. auto. }
    destruct G as [Hres Hw2]. rewrite Hw2.
    exists (List.length (promises w0)). split; [exact Hres|].
    split; [apply nth_error_length_None|].
    split; [unfold promise; cbn; apply nth_error_snoc|].
    refine (wp_elim (Bridge.setInstance (Some next)) _
              (fun _ w' _ => promise (List.length (promises w0)) w' =
                             Some (Fulfilled (Some next))) _).
    apply setInstance_spec. intros evs w' _ _ _ _ _ _ Hps _ _ _ _ _.
    unfold promise. rewrite Hps. cbn.
    apply settle_pending. apply nth_error_snoc.
Qed.
End ReadyFacts.

Lemma calls_app a b : calls (a ++ b) = calls a ++ calls b.
Proof.
  induction a as [|ev a IH]; cbn; [reflexivity|].
  destruct ev; cbn; rewrite ?IH; reflexivity.
Qed.

Lemma only_trace_refl w : only_trace w w.
Proof. unfold only_trace. destruct w; reflexivity. Qed.

Lemma only_trace_set w evs : only_trace w (set_trace evs w).
Proof. reflexivity. Qed.

Lemma only_trace_trans a b c : only_trace a b -> only_trace b c -> only_trace a c.
Proof. unfold only_trace. intros -> ->. reflexivity. Qed.

Lemma only_trace_set_trans w w' evs : only_trace w w' -> only_trace w (set_trace evs w').
Proof. unfold only_trace. intros ->. reflexivity. Qed.

Section DispatchFacts.
Context {B : Builtins} {H : Host}.

Lemma call_value_spec v args w Q :
  match v with
  | VFun id =>
      Q (host_fn id args (trace w))
        (set_trace (trace w ++ [Call (CHost id) args]) w) [Call (CHost id) args]
  | _ => Q (Throws TypeError) w []
  end ->
  wp (call_value v args) w Q.
Proof.
  intros HQ. unfold call_value. destruct v; try (wp_steps; exact HQ).
Qed.

(** One guarded call of a value: the call if the value is a function, then
  possibly [console.error]; it completes normally. *)
Lemma guarded_call_spec v args msg w Q :
  (forall evs w', only_trace w w' -> Forall loop_event evs ->
      calls evs = match v with VFun id => [(CHost id, args)] | _ => [] end ->
      Q (Returns tt) w' evs) ->
  wp (try_catch (call_value v args ;; ret tt) (fun e => console_error msg e)) w Q.
Proof.
  intros HQ. wp_steps. apply call_value_spec.
  destruct v; wp_steps;
    try (apply HQ; [reflexivity | repeat constructor | reflexivity]).
  destruct (host_fn id args (trace w)); wp_steps; apply HQ;
    try reflexivity; repeat constructor.
Qed.

Lemma emitToHandlers_spec eventName payload w Q :
  (forall evs w', only_trace w w' -> Forall loop_event evs ->
      calls evs = map (fun id => (CHost id, [payload])) (fun_ids (handlers_for eventName w)) ->
      Q (Returns tt) w' evs) ->
  wp (Bridge.emitToHandlers eventName payload) w Q.
Proof.
  intros HQ. unfold Bridge.emitToHandlers. wp_steps.
  unfold handlers_for in HQ.
  destruct (map_get Js.eqb eventName (handlers w)) as [s|].
  - apply (wp_for_each (fun rest w' evs =>
             only_trace w w' /\ Forall loop_event evs /\
             calls evs ++ map (fun id => (CHost id, [payload])) (fun_ids rest) =
             map (fun id => (CHost id, [payload])) (fun_ids s))).
    + split; [apply only_trace_refl|]. auto.
    + intros x rest w1 evs [Ho [Ht Hc]].
      apply guarded_call_spec. intros e w2 Ho2 Ht2 Hc2.
      split; [reflexivity|]. split; [eapply only_trace_trans; eauto|].
      split; [apply Forall_app; auto|].
      rewrite calls_app, Hc2, <- Hc, <- app_assoc. f_equal.
      destruct x; reflexivity.
    + intros w' evs [Ho [Ht Hc]]. apply HQ; auto.
      cbn in Hc. rewrite app_nil_r in Hc. exact Hc.
  - wp_steps. apply HQ; [apply only_trace_refl | constructor | reflexivity].
Qed.
End DispatchFacts.

(* ===================================================================== *)
(** * The event bus: what its operations do to the state *)
(* ===================================================================== *)

Lemma map_set_set {V} k (v v' : V) m :
  map_set Js.eqb k v (map_set Js.eqb k v' m) = map_set Js.eqb k v m.
Proof.
  induction m as [|[j x] m IH]; cbn.
  - rewrite eqb_refl. reflexivity.
  - destruct (Js.eqb k j) eqn:E; cbn; rewrite E; [reflexivity|]. f_equal. exact IH.
Qed.

Section BusSpecs.
Context {B : Builtins} {H : Host}.

Lemma install_spec w Q :
  Q (Returns tt) (installed_state w) [] -> wp EventBus._install w Q.
Proof.
  intros HQ. unfold EventBus._install, installed_state in *. wp_steps.
  destruct (_installed w); wp_steps; [exact HQ|].
  unfold Api.onMessage. cbn. wp_steps.
  unfold Bridge.registerGlobalHandler. cbn. wp_steps. exact HQ.
Qed.

Lemma maybeUninstall_spec w Q :
  Q (Returns tt) (uninstalled w) [] -> wp EventBus._maybeUninstall w Q.
Proof.
  intros HQ. unfold EventBus._maybeUninstall, uninstalled in *. wp_steps.
  destruct (_installed w) eqn:Hi; cbn [negb andb] in *; wp_steps; [|exact HQ].
  unfold EventBus._subscriberCount. wp_steps.
  fold (subscriber_count w).
  destruct (Nat.eqb (subscriber_count w) 0); wp_steps; [|exact HQ].
  unfold Api.offMessage. cbn. unfold Bridge.unregisterGlobalHandler. wp_steps.
  destruct (set_has obs_eqb ObsForwarder (globalHandlers w)) eqn:Hh; wp_steps.
  - exact HQ.
  - rewrite (set_delete_not_In obs_eqb obs_eqb_eq) in HQ.
    + destruct w; exact HQ.
    + intros Hin. apply (set_has_In obs_eqb obs_eqb_eq) in Hin. congruence.
Qed.

Lemma unsubscribe_spec type handler w Q :
  Q (Returns tt) (unsubscribed type handler w) [] ->
  wp (EventBus.unsubscribe type handler) w Q.
Proof.
  intros HQ. unfold EventBus.unsubscribe, unsubscribed, without in *. wp_steps.
  destruct (map_get Js.eqb type (subscribers w)) as [s|]; wp_steps; [|exact HQ].
  destruct (Nat.eqb (List.length (set_delete sub_eqb handler s)) 0); wp_steps;
    apply maybeUninstall_spec; exact HQ.
Qed.

Lemma subscribe_spec type handler w Q :
  sub_typeof handler = "function" ->
  Q (Returns (OffBus type handler)) (subscribed type handler w) [] ->
  wp (EventBus.subscribe type handler) w Q.
Proof.
  intros Hf HQ. unfold EventBus.subscribe. rewrite Hf.
  change (negb (String.eqb "function" "function")) with false. cbn iota.
  wp_steps. apply install_spec. unfold EventBus._ensureSet. wp_steps.
  unfold subscribed, subscribers_for in HQ.
  assert (subscribers (installed_state w) = subscribers w) as Hs.
  { unfold installed_state. destruct (_installed w); reflexivity. }
  unfold map_has. apply wp_modify.
  { destruct (map_get Js.eqb type (subscribers (installed_state w))); reflexivity. }
  rewrite Hs.
  destruct (map_get Js.eqb type (subscribers w)) as [s|] eqn:Hg; wp_steps.
  - rewrite ?Hs, ?Hg. wp_steps. rewrite ?Hs. exact HQ.
  - rewrite ?(map_get_set_eq Js.eqb eqb_eq). wp_steps. rewrite ?map_set_set, ?Hs. exact HQ.
Qed.

Lemma once_spec type handler w Q :
  typeof handler = "function" ->
  Q (Returns tt)
    (subscribed type (SubOnce (closures w) type handler)
       (set_closures (S (closures w)) w)) [] ->
  wp (EventBus.once type handler) w Q.
Proof.
  intros Hf HQ. unfold EventBus.once. rewrite Hf.
  change (negb (String.eqb "function" "function")) with false. cbn iota.
  wp_steps. apply subscribe_spec; [reflexivity|]. wp_steps. exact HQ.
Qed.

Lemma clear_spec type w Q :
  Q (Returns tt) (cleared type w) [] -> wp (EventBus.clear type) w Q.
Proof.
  intros HQ. unfold EventBus.clear, cleared in *.
  destruct type; cbn in *; wp_steps; apply maybeUninstall_spec; exact HQ.
Qed.
End BusSpecs.

(* ===================================================================== *)
(** * Well-formedness and the invariant of the bus are preserved *)
(* ===================================================================== *)

Lemma subscriber_count_total w : subscriber_count w = total (subscribers w).
Proof. unfold subscriber_count. rewrite fold_left_total. reflexivity. Qed.

Lemma bus_inv_pre w : bus_inv w -> bus_pre w.
Proof.
  unfold bus_inv, bus_pre. intros [Hi Hf]. rewrite Hi, Hf. split; [reflexivity|].
  destruct (Nat.ltb_spec 0 (subscriber_count w)); [discriminate | lia].
Qed.

Lemma wf_initial : wf initial.
Proof.
  constructor; cbn; try constructor; try tauto.
Qed.

Lemma bus_inv_initial : bus_inv initial.
Proof. split; reflexivity. Qed.

Lemma wf_set_trace w evs : wf w -> wf (set_trace evs w).
Proof. intros []. constructor; assumption. Qed.

Lemma wf_only_trace w w' : only_trace w w' -> wf w -> wf w'.
Proof. intros ->. apply wf_set_trace. Qed.

Lemma bus_inv_only_trace w w' : only_trace w w' -> bus_inv w -> bus_inv w'.
Proof. intros ->. auto. Qed.

Lemma wf_set_subscribers w subs :
  wf w ->
  NoDup (keys subs) ->
  (forall k s, In (k, s) subs -> NoDup s) ->
  (forall k s n t h, In (k, s) subs -> In (SubOnce n t h) s -> n < closures w) ->
  wf (set_subscribers subs w).
Proof. intros [] ? ? ?. constructor; assumption. Qed.

Lemma wf_set_globalHandlers w gh :
  wf w ->
  NoDup gh ->
  (forall o, In o gh -> obs_typeof o = "function") ->
  wf (set_globalHandlers gh w).
Proof. intros [] ? ?. constructor; assumption. Qed.

Lemma wf_set_installed w b : wf w -> wf (set_installed b w).
Proof. intros []. constructor; assumption. Qed.

Lemma wf_set_closures w n : wf w -> closures w <= n -> wf (set_closures n w).
Proof.
  intros Hwf Hle. constructor; try apply Hwf.
  cbn. intros k s m t h Hin Hs. pose proof (wf_closures _ Hwf _ _ _ _ _ Hin Hs). lia.
Qed.

Lemma installations_NoDup (gh : list Observer) :
  NoDup gh ->
  List.length (filter (obs_eqb ObsForwarder) gh) =
    if set_has obs_eqb ObsForwarder gh then 1 else 0.
Proof.
  induction gh as [|o gh IH]; intros Hnd; [reflexivity|].
  inversion Hnd as [|? ? Ho Hnd']; subst. unfold set_has in *. cbn [filter existsb].
  destruct (obs_eqb ObsForwarder o) eqn:E; cbn [orb List.length].
  - apply obs_eqb_eq in E. subst o. rewrite (IH Hnd').
    destruct (existsb (obs_eqb ObsForwarder) gh) eqn:E2; [|reflexivity].
    exfalso. apply Ho. apply (set_has_In obs_eqb obs_eqb_eq). exact E2.
  - apply IH. exact Hnd'.
Qed.

Lemma wf_installed_state w : wf w -> wf (installed_state w).
Proof.
  intros Hwf. unfold installed_state. destruct (_installed w); [exact Hwf|].
  apply wf_set_installed. apply wf_set_globalHandlers; [exact Hwf | |].
  - apply (NoDup_set_add obs_eqb obs_eqb_eq). apply Hwf.
  - intros o Hin. apply (In_set_add obs_eqb obs_eqb_eq) in Hin.
    destruct Hin as [-> | Hin]; [reflexivity | apply Hwf; exact Hin].
Qed.

Lemma wf_uninstalled w : wf w -> wf (uninstalled w).
Proof.
  intros Hwf. unfold uninstalled.
  destruct (_installed w && Nat.eqb (subscriber_count w) 0); [|exact Hwf].
  apply wf_set_installed. apply wf_set_globalHandlers; [exact Hwf | |].
  - apply (NoDup_set_delete obs_eqb). apply Hwf.
  - intros o Hin. apply In_set_delete in Hin. apply Hwf. exact Hin.
Qed.

Lemma bus_inv_uninstalled w : wf w -> bus_pre w -> bus_inv (uninstalled w).
Proof.
  intros Hwf [Hf Hc]. unfold uninstalled.
  destruct (_installed w) eqn:Hi; cbn [andb].
  - destruct (Nat.eqb_spec (subscriber_count w) 0) as [Hz|Hnz].
    + split.
      * change (false = Nat.ltb 0 (subscriber_count w)). rewrite Hz. reflexivity.
      * change (List.length (filter (obs_eqb ObsForwarder)
                  (set_delete obs_eqb ObsForwarder (globalHandlers w))) =
                if Nat.ltb 0 (subscriber_count w) then 1 else 0).
        rewrite Hz. change (if Nat.ltb 0 0 then 1 else 0) with 0.
        rewrite installations_NoDup by (apply (NoDup_set_delete obs_eqb); apply Hwf).
        destruct (set_has obs_eqb ObsForwarder
                    (set_delete obs_eqb ObsForwarder (globalHandlers w))) eqn:E;
          [|reflexivity].
        apply (set_has_In obs_eqb obs_eqb_eq) in E.
        apply (In_set_delete_iff obs_eqb obs_eqb_eq) in E; [|apply Hwf].
        destruct E as [E _]. congruence.
    + unfold bus_inv. rewrite Hi, Hf.
      destruct (Nat.ltb_spec 0 (subscriber_count w)); [auto | lia].
  - specialize (Hc eq_refl). unfold bus_inv. rewrite Hi, Hf, Hc. auto.
Qed.

(** Removing a subscriber *)

Lemma without_keys type handler subs k :
  In k (keys (without type handler subs)) -> In k (keys subs).
Proof.
  unfold without, keys.
  destruct (map_get Js.eqb type subs) as [s|] eqn:Hg; [|tauto].
  destruct (Nat.eqb _ 0); intros Hin.
  - apply keys_map_delete_In in Hin.
    apply (keys_map_set_In Js.eqb eqb_eq) in Hin. destruct Hin as [-> | Hin]; [|exact Hin].
    apply (map_get_In Js.eqb eqb_eq) in Hg. apply (in_map fst) in Hg. exact Hg.
  - apply (keys_map_set_In Js.eqb eqb_eq) in Hin. destruct Hin as [-> | Hin]; [|exact Hin].
    apply (map_get_In Js.eqb eqb_eq) in Hg. apply (in_map fst) in Hg. exact Hg.
Qed.

Lemma without_NoDup_keys type handler subs :
  NoDup (keys subs) -> NoDup (keys (without type handler subs)).
Proof.
  unfold without, keys. intros Hnd.
  destruct (map_get Js.eqb type subs) as [s|]; [|exact Hnd].
  destruct (Nat.eqb _ 0).
  - apply (NoDup_keys_map_delete Js.eqb).
    apply (NoDup_keys_map_set Js.eqb eqb_eq). exact Hnd.
  - apply (NoDup_keys_map_set Js.eqb eqb_eq). exact Hnd.
Qed.

(** Every set of the map after the removal is a set of the map before, or
    the set of [type] without [handler]. *)
Lemma without_In type handler subs k s' :
  In (k, s') (without type handler subs) ->
  In (k, s') subs \/
  (k = type /\ exists s, map_get Js.eqb type subs = Some s /\
                         s' = set_delete sub_eqb handler s).
Proof.
  unfold without.
  destruct (map_get Js.eqb type subs) as [s|] eqn:Hg; [|auto].
  destruct (Nat.eqb _ 0); intros Hin.
  - apply In_map_delete in Hin. apply (In_map_set Js.eqb eqb_eq) in Hin.
    destruct Hin as [[-> ->] | Hin]; [right; eauto | auto].
  - apply (In_map_set Js.eqb eqb_eq) in Hin.
    destruct Hin as [[-> ->] | Hin]; [right; eauto | auto].
Qed.

Lemma without_total type handler subs :
  total (without type handler subs) <= total subs.
Proof.
  unfold without.
  destruct (map_get Js.eqb type subs) as [s|] eqn:Hg; [|lia].
  pose proof (total_map_set_Some Js.eqb type s (set_delete sub_eqb handler s) subs Hg) as Ht.
  assert (List.length (set_delete sub_eqb handler s) <= List.length s) as Hle.
  { clear. induction s as [|x s IH]; cbn; [lia|].
    destruct (sub_eqb handler x); cbn; lia. }
  destruct (Nat.eqb _ 0).
  - pose proof (total_map_delete Js.eqb type (set_delete sub_eqb handler s)
                  (map_set Js.eqb type (set_delete sub_eqb handler s) subs)
                  (map_get_set_eq Js.eqb eqb_eq _ _ _)) as Hd.
    lia.
  - lia.
Qed.

Lemma wf_without type handler w :
  wf w -> wf (set_subscribers (without type handler (subscribers w)) w).
Proof.
  intros Hwf. apply wf_set_subscribers; [exact Hwf | | |].
  - apply without_NoDup_keys. apply Hwf.
  - intros k s Hin. apply without_In in Hin.
    destruct Hin as [Hin | [-> [s0 [Hg ->]]]].
    + eapply wf_sub_sets; eauto.
    + apply (NoDup_set_delete sub_eqb).
      apply (map_get_In Js.eqb eqb_eq) in Hg. eapply wf_sub_sets; eauto.
  - intros k s n t h Hin Hs. apply without_In in Hin.
    destruct Hin as [Hin | [-> [s0 [Hg ->]]]].
    + eapply wf_closures; eauto.
    + apply In_set_delete in Hs.
      apply (map_get_In Js.eqb eqb_eq) in Hg. eapply wf_closures; eauto.
Qed.

Lemma bus_pre_without type handler w :
  bus_pre w -> bus_pre (set_subscribers (without type handler (subscribers w)) w).
Proof.
  intros [Hf Hc]. split; [exact Hf|].
  simpl_world. intros Hi. specialize (Hc Hi).
  rewrite subscriber_count_total in *. simpl_world.
  pose proof (without_total type handler (subscribers w)). lia.
Qed.

Lemma wf_unsubscribed type handler w : wf w -> wf (unsubscribed type handler w).
Proof.
  intros Hwf. unfold unsubscribed.
  destruct (map_get Js.eqb type (subscribers w)); [|exact Hwf].
  apply wf_uninstalled. apply wf_without. exact Hwf.
Qed.

Lemma bus_inv_unsubscribed type handler w :
  wf w -> bus_inv w -> bus_inv (unsubscribed type handler w).
Proof.
  intros Hwf Hinv. unfold unsubscribed.
  destruct (map_get Js.eqb type (subscribers w)); [|exact Hinv].
  apply bus_inv_uninstalled; [apply wf_without; exact Hwf|].
  apply bus_pre_without. apply bus_inv_pre. exact Hinv.
Qed.

(** Adding a subscriber *)

Lemma total_ge_set {K V} (k : K) (s : list V) m :
  In (k, s) m -> List.length s <= total m.
Proof.
  induction m as [|e m IH]; cbn; [tauto|].
  intros [-> | Hin]; cbn; [lia|]. specialize (IH Hin). lia.
Qed.

Lemma wf_subscribed type handler w :
  wf w ->
  (forall n t h, handler = SubOnce n t h -> n < closures w) ->
  wf (subscribed type handler w).
Proof.
  intros Hwf Hn. unfold subscribed.
  assert (subscribers (installed_state w) = subscribers w) as Hs
    by (unfold installed_state; destruct (_installed w); reflexivity).
  assert (closures (installed_state w) = closures w) as Hcl
    by (unfold installed_state; destruct (_installed w); reflexivity).
  apply wf_set_subscribers; [apply wf_installed_state; exact Hwf | | |].
  - apply (NoDup_keys_map_set Js.eqb eqb_eq). apply Hwf.
  - intros k s Hin. apply (In_map_set Js.eqb eqb_eq) in Hin.
    destruct Hin as [[-> ->] | Hin]; [|eapply wf_sub_sets; eauto].
    apply (NoDup_set_add sub_eqb sub_eqb_eq). unfold subscribers_for.
    destruct (map_get Js.eqb type (subscribers w)) as [s0|] eqn:Hg; [|constructor].
    apply (map_get_In Js.eqb eqb_eq) in Hg. eapply wf_sub_sets; eauto.
  - rewrite Hcl. intros k s n t h Hin Hsn. apply (In_map_set Js.eqb eqb_eq) in Hin.
    destruct Hin as [[-> ->] | Hin]; [|eapply wf_closures; eauto].
    apply (In_set_add sub_eqb sub_eqb_eq) in Hsn. destruct Hsn as [Heq | Hsn].
    + eapply Hn. symmetry. exact Heq.
    + unfold subscribers_for in Hsn.
      destruct (map_get Js.eqb type (subscribers w)) as [s0|] eqn:Hg; [|destruct Hsn].
      apply (map_get_In Js.eqb eqb_eq) in Hg. eapply wf_closures; eauto.
Qed.

Lemma subscribed_In type handler w :
  In handler (subscribers_for type (subscribed type handler w)).
Proof.
  unfold subscribed, subscribers_for. cbn.
  rewrite (map_get_set_eq Js.eqb eqb_eq).
  apply (In_set_add sub_eqb sub_eqb_eq). auto.
Qed.

Lemma subscribers_for_count type w x :
  In x (subscribers_for type w) -> 0 < subscriber_count w.
Proof.
  unfold subscribers_for. rewrite subscriber_count_total.
  destruct (map_get Js.eqb type (subscribers w)) as [s|] eqn:Hg; [|intros []].
  intros Hin. apply (map_get_In Js.eqb eqb_eq) in Hg.
  apply total_ge_set in Hg. destruct s; [destruct Hin | cbn in Hg; lia].
Qed.

Lemma bus_inv_subscribed type handler w :
  wf w -> bus_inv w -> bus_inv (subscribed type handler w).
Proof.
  intros Hwf [Hi Hf].
  pose proof (subscribers_for_count _ _ _ (subscribed_In type handler w)) as Hpos.
  unfold bus_inv. apply Nat.ltb_lt in Hpos. rewrite Hpos.
  unfold subscribed, installed_state, forwarder_installations in *.
  destruct (_installed w) eqn:Hinst; cbn.
  - rewrite <- Hi in Hf. auto.
  - split; [reflexivity|].
    rewrite installations_NoDup by (apply (NoDup_set_add obs_eqb obs_eqb_eq); apply Hwf).
    assert (set_has obs_eqb ObsForwarder (set_add obs_eqb ObsForwarder (globalHandlers w)) = true)
      as -> ; [|reflexivity].
    apply (set_has_In obs_eqb obs_eqb_eq). apply (In_set_add obs_eqb obs_eqb_eq). auto.
Qed.

(** Clearing *)

Lemma wf_cleared type w : wf w -> wf (cleared type w).
Proof.
  intros Hwf. unfold cleared. destruct (nullish type); apply wf_uninstalled.
  - apply wf_set_subscribers; [exact Hwf | constructor | intros ? ? [] | intros ? ? ? ? ? []].
  - apply wf_set_subscribers; [exact Hwf | | |].
    + apply (NoDup_keys_map_delete Js.eqb). apply Hwf.
    + intros k s Hin. apply In_map_delete in Hin. eapply wf_sub_sets; eauto.
    + intros k s n t h Hin. apply In_map_delete in Hin. eapply wf_closures; eauto.
Qed.

Lemma total_map_delete_le {V} k (m : list (JsVal * list V)) :
  total (map_delete Js.eqb k m) <= total m.
Proof.
  induction m as [|[j x] m IH]; cbn; [lia|].
  destruct (Js.eqb k j); cbn; lia.
Qed.

Lemma bus_inv_cleared type w : wf w -> bus_inv w -> bus_inv (cleared type w).
Proof.
  intros Hwf Hinv. apply bus_inv_pre in Hinv. destruct Hinv as [Hf Hc].
  unfold cleared. destruct (nullish type); apply bus_inv_uninstalled.
  - apply wf_set_subscribers; [exact Hwf | constructor | intros ? ? [] | intros ? ? ? ? ? []].
  - split; [exact Hf | reflexivity].
  - apply wf_set_subscribers; [exact Hwf | | |].
    + apply (NoDup_keys_map_delete Js.eqb). apply Hwf.
    + intros k s Hin. apply In_map_delete in Hin. eapply wf_sub_sets; eauto.
    + intros k s n t h Hin. apply In_map_delete in Hin. eapply wf_closures; eauto.
  - split; [exact Hf|]. simpl_world. intros Hi. specialize (Hc Hi).
    rewrite subscriber_count_total in *. simpl_world.
    pose proof (total_map_delete_le type (subscribers w)). lia.
Qed.

(* ===================================================================== *)
(** * Dispatch, without the trace *)
(* ===================================================================== *)

Lemma uninstalled_set_trace evs w :
  uninstalled (set_trace evs w) = set_trace evs (uninstalled w).
Proof.
  unfold uninstalled. simpl_world.
  change (subscriber_count (set_trace evs w)) with (subscriber_count w).
  destruct (_installed w && Nat.eqb (subscriber_count w) 0); reflexivity.
Qed.

Lemma unsubscribed_set_trace type x evs w :
  unsubscribed type x (set_trace evs w) = set_trace evs (unsubscribed type x w).
Proof.
  unfold unsubscribed. simpl_world.
  destruct (map_get Js.eqb type (subscribers w)); [|reflexivity].
  rewrite <- uninstalled_set_trace. reflexivity.
Qed.

Lemma after_sub_set_trace x evs w :
  after_sub x (set_trace evs w) = set_trace evs (after_sub x w).
Proof. destruct x; [reflexivity | apply unsubscribed_set_trace]. Qed.

Lemma after_subs_set_trace l evs w :
  after_subs l (set_trace evs w) = set_trace evs (after_subs l w).
Proof.
  revert w. induction l as [|x l IH]; intros w; cbn; [reflexivity|].
  rewrite after_sub_set_trace. apply IH.
Qed.

Lemma after_sub_only_trace x a b :
  only_trace a b -> only_trace (after_sub x a) (after_sub x b).
Proof.
  unfold only_trace. intros ->. rewrite after_sub_set_trace. reflexivity.
Qed.

Lemma after_subs_only_trace l a b :
  only_trace a b -> only_trace (after_subs l a) (after_subs l b).
Proof.
  unfold only_trace. intros ->. rewrite after_subs_set_trace. reflexivity.
Qed.

Lemma after_obs_only_trace type o a b :
  only_trace a b -> only_trace (after_obs type o a) (after_obs type o b).
Proof.
  destruct o; cbn; [auto|]. intros Ho.
  replace (subscribers_for type b) with (subscribers_for type a)
    by (rewrite Ho; reflexivity).
  apply after_subs_only_trace. exact Ho.
Qed.

Lemma global_run_only_trace type payload meta l a b :
  only_trace a b ->
  only_trace (fst (global_run type payload meta l a)) (fst (global_run type payload meta l b)) /\
  snd (global_run type payload meta l a) = snd (global_run type payload meta l b).
Proof.
  revert a b. induction l as [|o l IH]; intros a b Ho; cbn; [auto|].
  destruct (IH _ _ (after_obs_only_trace type o a b Ho)) as [H1 H2].
  split; [exact H1|]. rewrite H2. f_equal.
  destruct o as [v|]; [reflexivity|]. cbn. rewrite Ho. reflexivity.
Qed.

Lemma global_run_app type payload meta a b w :
  global_run type payload meta (a ++ b) w =
    (fst (global_run type payload meta b (fst (global_run type payload meta a w))),
     snd (global_run type payload meta a w) ++
     snd (global_run type payload meta b (fst (global_run type payload meta a w)))).
Proof.
  revert w. induction a as [|o a IH]; intros w; cbn [global_run app fst snd].
  - destruct (global_run type payload meta b w); reflexivity.
  - rewrite IH. cbn [fst snd]. rewrite app_assoc. reflexivity.
Qed.

Section ForwardFacts.
Context {B : Builtins} {H : Host}.

Lemma guarded_sub_spec x payload meta msg w Q :
  (forall evs w', only_trace (after_sub x w) w' -> Forall loop_event evs ->
      calls evs = sub_calls payload meta x ->
      Q (Returns tt) w' evs) ->
  wp (try_catch (EventBus.call_subscriber x payload meta ;; ret tt)
                (fun e => console_error msg e)) w Q.
Proof.
  intros HQ. destruct x as [v | n type handler]; cbn [EventBus.call_subscriber].
  - apply guarded_call_spec. intros evs w' Ho Hl Hc. apply HQ; auto.
  - wp_steps. apply call_value_spec.
    destruct handler; wp_steps; apply unsubscribe_spec;
      try (wp_steps; apply HQ;
           [cbn [after_sub]; rewrite !unsubscribed_set_trace; reflexivity
           | repeat constructor | reflexivity]).
    destruct (host_fn id [payload; meta] _); wp_steps; apply HQ;
      try (cbn [after_sub]; rewrite !unsubscribed_set_trace; reflexivity);
      try reflexivity; repeat constructor.
Qed.

Lemma globalForwarder_spec type payload meta w Q :
  (forall evs w', only_trace (after_subs (subscribers_for type w) w) w' ->
      Forall loop_event evs ->
      calls evs = flat_map (sub_calls payload meta) (subscribers_for type w) ->
      Q (Returns VUndefined) w' evs) ->
  wp (EventBus._globalForwarder type payload meta) w Q.
Proof.
  intros HQ. unfold EventBus._globalForwarder. wp_steps.
  unfold subscribers_for in HQ.
  destruct (map_get Js.eqb type (subscribers w)) as [s|].
  - destruct (Nat.eqb_spec (List.length s) 0) as [Hz|Hnz].
    + destruct s; [|discriminate]. wp_steps.
      apply HQ; [apply only_trace_refl | constructor | reflexivity].
    + wp_steps.
      apply (wp_for_each (fun rest w' evs =>
               exists done, s = done ++ rest /\
                 only_trace (after_subs done w) w' /\ Forall loop_event evs /\
                 calls evs = flat_map (sub_calls payload meta) done)).
      * exists []. repeat split; [apply only_trace_refl | constructor].
      * intros x rest w1 evs [done [-> [Ho [Hl Hc]]]].
        apply guarded_sub_spec. intros e w2 Ho2 Hl2 Hc2.
        split; [reflexivity|]. exists (done ++ [x]).
        split; [rewrite <- app_assoc; reflexivity|].
        split.
        { unfold after_subs. rewrite fold_left_app. cbn.
          eapply only_trace_trans; [|exact Ho2]. apply after_sub_only_trace. exact Ho. }
        split; [apply Forall_app; auto|].
        rewrite calls_app, Hc, Hc2, flat_map_app. cbn. rewrite app_nil_r. reflexivity.
      * intros w' evs [done [-> [Ho [Hl Hc]]]]. rewrite app_nil_r in *.
        wp_steps. rewrite app_nil_r. apply HQ; auto.
  - wp_steps. apply HQ; [apply only_trace_refl | constructor | reflexivity].
Qed.

Lemma guarded_obs_spec o type payload meta msg w Q :
  (forall evs w', only_trace (after_obs type o w) w' -> Forall loop_event evs ->
      calls evs = obs_calls type payload meta w o ->
      Q (Returns tt) w' evs) ->
  wp (try_catch (Bridge.call_observer EventBus._globalForwarder o type payload meta ;; ret tt)
                (fun e => console_error msg e)) w Q.
Proof.
  intros HQ. destruct o as [v|]; cbn [Bridge.call_observer].
  - apply guarded_call_spec. intros evs w' Ho Hl Hc. apply HQ; auto.
  - wp_steps. apply globalForwarder_spec. intros evs w' Ho Hl Hc. wp_steps.
    apply HQ.
    + cbn [after_obs]. eapply only_trace_trans; [|exact Ho].
      change (subscribers_for type (set_trace _ w)) with (subscribers_for type w).
      rewrite after_subs_set_trace. reflexivity.
    + rewrite app_nil_r. constructor; [exact I | exact Hl].
    + rewrite app_nil_r. cbn. rewrite Hc. reflexivity.
Qed.

Lemma emitToGlobalHandlers_spec type payload meta w Q :
  (forall evs w',
      only_trace (fst (global_run type payload meta (globalHandlers w) w)) w' ->
      Forall loop_event evs ->
      calls evs = snd (global_run type payload meta (globalHandlers w) w) ->
      Q (Returns tt) w' evs) ->
  wp (Bridge.emitToGlobalHandlers EventBus._globalForwarder type payload meta) w Q.
Proof.
  intros HQ. unfold Bridge.emitToGlobalHandlers. wp_steps.
  apply (wp_for_each (fun rest w' evs =>
           exists done, globalHandlers w = done ++ rest /\
             only_trace (fst (global_run type payload meta done w)) w' /\
             Forall loop_event evs /\
             calls evs = snd (global_run type payload meta done w))).
  - exists []. repeat split; [apply only_trace_refl | constructor].
  - intros o rest w1 evs [done [Hl [Ho [Hev Hc]]]].
    apply guarded_obs_spec. intros e w2 Ho2 Hev2 Hc2.
    split; [reflexivity|]. exists (done ++ [o]).
    split; [rewrite Hl, <- app_assoc; reflexivity|].
    rewrite global_run_app. cbn [global_run fst snd].
    destruct (global_run_only_trace type payload meta [o] _ _ Ho) as [G1 G2].
    cbn [global_run fst snd] in G1, G2. rewrite !app_nil_r in G2.
    split; [eapply only_trace_trans; [exact G1 | exact Ho2]|].
    split; [apply Forall_app; auto|].
    rewrite calls_app, Hc, Hc2, app_nil_r, G2. reflexivity.
  - intros w' evs [done [Hl [Ho [Hev Hc]]]]. rewrite app_nil_r in Hl.
    rewrite <- Hl in *. apply HQ; auto.
Qed.
End ForwardFacts.

Lemma count_app p (a b : list Event) : count p (a ++ b) = count p a + count p b.
Proof. unfold count. rewrite filter_app, length_app. reflexivity. Qed.

Lemma count_parse_loop evs : Forall loop_event evs -> count is_parse evs = 0.
Proof.
  induction 1 as [|ev evs Hev _ IH]; [reflexivity|].
  unfold count in *. destruct ev; cbn in *; try contradiction; exact IH.
Qed.

Section ListenerFacts.
Context {B : Builtins} {H : Host}.

Lemma UnityMessage_spec d w Q :
  is_object d = true ->
  nullish (get d "type") = false ->
  (forall evs w',
      only_trace (dispatched (get d "type") (normalize (get d "payload")) (get d "meta") w) w' ->
      calls evs =
        dispatch_calls (get d "type") (normalize (get d "payload")) (get d "meta") w ->
      count is_parse evs = match get d "payload" with VStr _ => 1 | _ => 0 end ->
      Q (Returns tt) w' evs) ->
  wp (UnityMessage (CustomEvent d)) w Q.
Proof.
  intros Hobj Hty HQ.
  unfold UnityMessage, Bridge._windowUnityMessageListener, CustomEvent.
  cbn [Bridge.detail].
  assert (negb (truthy d) || negb (String.eqb (typeof d) "object") = false) as ->
    by (destruct d; try discriminate; reflexivity).
  assert (Js.eqb (get d "type") VUndefined || Js.eqb (get d "type") VNull = false) as ->
    by (destruct (get d "type"); try discriminate; reflexivity).
  assert (truthy d = true) as -> by (destruct d; try discriminate; reflexivity).
  unfold dispatched, dispatch_calls in HQ.
  set (type := get d "type") in *. set (meta := get d "meta") in *.
  wp_step.
  assert (G : forall Q',
             (forall w1 evs1, only_trace w w1 ->
                calls evs1 = [] ->
                count is_parse evs1 = match get d "payload" with VStr _ => 1 | _ => 0 end ->
                Q' (Returns (normalize (get d "payload"))) w1 evs1) ->
             wp match get d "payload" with
                | VStr text =>
                    try_catch (emit (CallJsonParse text) ;; (fun w => (w, JSON_parse text)))
                              (fun _ => ret (get d "payload"))
                | _ => ret (get d "payload")
                end w Q').
  { intros Q' HQ'.
    destruct (get d "payload") as [| | | |text| | |];
      try (wp_steps; apply HQ'; [apply only_trace_refl | reflexivity | reflexivity]).
    unfold normalize in HQ'.
    wp_steps. destruct (JSON_parse text); wp_steps;
      apply HQ'; reflexivity. }
  apply G. clear G. intros w1 evs1 Ho1 Hc1 Hp1. cbn beta iota.
  wp_step. apply emitToHandlers_spec. intros evs2 w2 Ho2 Hl2 Hc2. cbn beta iota.
  apply emitToGlobalHandlers_spec. intros evs3 w3 Ho3 Hl3 Hc3.
  assert (only_trace w w2) as Ho12 by (eapply only_trace_trans; eauto).
  assert (globalHandlers w2 = globalHandlers w) as Hg by (rewrite Ho12; reflexivity).
  assert (handlers_for type w1 = handlers_for type w) as Hh by (rewrite Ho1; reflexivity).
  rewrite Hg in Ho3, Hc3.
  destruct (global_run_only_trace type (normalize (get d "payload")) meta
              (globalHandlers w) _ _ Ho12) as [G1 G2].
  apply HQ.
  - eapply only_trace_trans; [exact G1 | exact Ho3].
  - rewrite !calls_app, Hc1, Hc2, Hc3, Hh, G2. reflexivity.
  - rewrite !count_app, Hp1, (count_parse_loop _ Hl2), (count_parse_loop _ Hl3). lia.
Qed.

(** An event without an object as its detail, or without a type, is
  dropped. *)
Lemma UnityMessage_dropped e w :
  match Bridge.detail e with
  | None => True
  | Some d => is_object d = false \/ nullish (get d "type") = true
  end ->
  UnityMessage e w = (w, Returns tt).
Proof.
  unfold UnityMessage, Bridge._windowUnityMessageListener.
  destruct (Bridge.detail e) as [d|]; [|reflexivity].
  intros [Hno | Hnull].
  - assert (negb (truthy d) || negb (String.eqb (typeof d) "object") = true) as ->
      by (destruct d as [| |b|n|s| | |]; try discriminate; cbn [truthy typeof];
          try reflexivity;
          [destruct b | destruct (Z.eqb n 0) | destruct (String.eqb s EmptyString)];
          reflexivity).
    reflexivity.
  - destruct (negb (truthy d) || negb (String.eqb (typeof d) "object")); [reflexivity|].
    destruct (get d "type"); try discriminate; reflexivity.
Qed.
End ListenerFacts.

(* ===================================================================== *)
(** * Counting calls *)
(* ===================================================================== *)

Lemma In_calls f args evs : In (Call f args) evs <-> In (f, args) (calls evs).
Proof.
  induction evs as [|ev evs IH]; cbn; [tauto|].
  destruct ev; cbn; rewrite IH; intuition congruence.
Qed.

Lemma count_is_call f args evs :
  count (is_call f args) evs = ccount (call_is f args) (calls evs).
Proof.
  unfold count, ccount. induction evs as [|ev evs IH]; [reflexivity|].
  destruct ev; cbn; try exact IH.
  unfold call_is. cbn. destruct (callee_eqb f f0 && args_eqb args args0); cbn; rewrite IH; reflexivity.
Qed.

Lemma ccount_app q a b : ccount q (a ++ b) = ccount q a + ccount q b.
Proof. unfold ccount. rewrite filter_app, length_app. reflexivity. Qed.

Lemma ccount_none q l : (forall c, In c l -> q c = false) -> ccount q l = 0.
Proof.
  unfold ccount. induction l as [|c l IH]; intros Hq; [reflexivity|].
  cbn. rewrite (Hq c) by (left; reflexivity). apply IH. intros c' Hin. apply Hq. right. exact Hin.
Qed.

Lemma ccount_flat_map_zero {A} q (f : A -> list (Callee * list JsVal)) l :
  (forall y, In y l -> ccount q (f y) = 0) -> ccount q (flat_map f l) = 0.
Proof.
  induction l as [|y l IH]; intros Hz; [reflexivity|].
  cbn [flat_map]. rewrite ccount_app, (Hz y) by (left; reflexivity).
  apply IH. intros z Hin. apply Hz. right. exact Hin.
Qed.

Lemma ccount_flat_map_one {A} q (f : A -> list (Callee * list JsVal)) l x :
  NoDup l -> In x l ->
  (forall y, In y l -> y <> x -> ccount q (f y) = 0) ->
  ccount q (flat_map f l) = ccount q (f x).
Proof.
  induction l as [|y l IH]; intros Hnd Hin Hz; [destruct Hin|].
  inversion Hnd as [|? ? Hy Hnd']; subst. cbn [flat_map]. rewrite ccount_app.
  destruct Hin as [-> | Hin].
  - rewrite ccount_flat_map_zero; [lia|].
    intros z Hin. apply Hz; [right; exact Hin | intros ->; contradiction].
  - rewrite (Hz y); [|left; reflexivity | intros ->; contradiction].
    apply IH; auto. intros z Hz' Hne. apply Hz; [right; exact Hz' | exact Hne].
Qed.

Lemma fun_ids_In id s : In id (fun_ids s) <-> In (VFun id) s.
Proof.
  unfold fun_ids. rewrite in_flat_map. split.
  - intros [v [Hin Hv]]. destruct v; cbn in Hv; try tauto.
    destruct Hv as [<- | []]. exact Hin.
  - intros Hin. exists (VFun id). cbn. auto.
Qed.

Lemma fun_ids_NoDup s : NoDup s -> NoDup (fun_ids s).
Proof.
  induction s as [|v s IH]; intros Hnd; [constructor|].
  inversion Hnd as [|? ? Hv Hnd']; subst.
  destruct v; cbn; auto.
  constructor; [|auto]. rewrite fun_ids_In. exact Hv.
Qed.

Lemma callee_eqb_refl f : callee_eqb f f = true.
Proof. apply callee_eqb_eq. reflexivity. Qed.

Lemma args_eqb_refl a : args_eqb a a = true.
Proof. apply args_eqb_eq. reflexivity. Qed.

Lemma call_is_true f args c : call_is f args c = true <-> c = (f, args).
Proof.
  unfold call_is. rewrite andb_true_iff, callee_eqb_eq, args_eqb_eq.
  destruct c as [g xs]. cbn. split; [intros [-> ->]; reflexivity | intros [= -> ->]; auto].
Qed.

Lemma call_is_false f args c : c <> (f, args) -> call_is f args c = false.
Proof.
  intros Hne. destruct (call_is f args c) eqn:E; [|reflexivity].
  apply call_is_true in E. contradiction.
Qed.

Lemma map_flat_map {A C} (f : A -> C) l : map f l = flat_map (fun x => [f x]) l.
Proof. induction l as [|x l IH]; cbn; [reflexivity | rewrite IH; reflexivity]. Qed.

Lemma ccount_handlers id payload ids :
  NoDup ids -> In id ids ->
  ccount (call_is (CHost id) [payload]) (map (fun j => (CHost j, [payload])) ids) = 1.
Proof.
  intros Hnd Hin. rewrite map_flat_map.
  rewrite (ccount_flat_map_one _ _ ids id Hnd Hin).
  - unfold ccount, call_is. cbn. rewrite Nat.eqb_refl, eqb_refl. reflexivity.
  - intros j _ Hne. apply ccount_none. intros c [<- | []].
    apply call_is_false. congruence.
Qed.

(** The shape of the calls of the global observers *)

Lemma sub_calls_shape payload meta x c :
  In c (sub_calls payload meta x) ->
  snd c = [payload; meta] /\ fst c <> CForwarder.
Proof.
  destruct x as [v | n t h]; [destruct v | destruct h]; cbn; intros Hin;
    repeat (destruct Hin as [<- | Hin]); try (destruct Hin); cbn; split; congruence.
Qed.

Lemma flat_sub_calls_shape payload meta l c :
  In c (flat_map (sub_calls payload meta) l) ->
  snd c = [payload; meta] /\ fst c <> CForwarder.
Proof.
  rewrite in_flat_map. intros [x [_ Hin]]. eapply sub_calls_shape; eauto.
Qed.

Lemma obs_calls_shape type payload meta w o c :
  In c (obs_calls type payload meta w o) ->
  snd c = [type; payload; meta] \/ (snd c = [payload; meta] /\ fst c <> CForwarder).
Proof.
  destruct o as [v|].
  - destruct v; cbn; intros Hin; try (destruct Hin; fail).
    destruct Hin as [<- | []]. left. reflexivity.
  - cbn. intros [<- | Hin]; [left; reflexivity|].
    right. eapply flat_sub_calls_shape; eauto.
Qed.

Lemma global_run_shape type payload meta l w c :
  In c (snd (global_run type payload meta l w)) ->
  snd c = [type; payload; meta] \/ (snd c = [payload; meta] /\ fst c <> CForwarder).
Proof.
  revert w. induction l as [|o l IH]; intros w; cbn [global_run snd]; [intros []|].
  rewrite in_app_iff. intros [Hin | Hin]; [eapply obs_calls_shape; eauto | eauto].
Qed.

Lemma global_run_In_val type payload meta l w id :
  In (ObsVal (VFun id)) l ->
  In (CHost id, [type; payload; meta]) (snd (global_run type payload meta l w)).
Proof.
  revert w. induction l as [|o l IH]; intros w; [intros []|].
  cbn [global_run snd]. rewrite in_app_iff. intros [-> | Hin]; [left; cbn; auto | right; auto].
Qed.

Lemma global_run_In_forwarder type payload meta l w :
  In ObsForwarder l ->
  In (CForwarder, [type; payload; meta]) (snd (global_run type payload meta l w)).
Proof.
  revert w. induction l as [|o l IH]; intros w; [intros []|].
  cbn [global_run snd]. rewrite in_app_iff. intros [-> | Hin]; [left; cbn; auto | right; auto].
Qed.

(** Without the forwarder the loop leaves the registries alone. *)
Lemma global_run_vals type payload meta l w w0 :
  ~ In ObsForwarder l ->
  global_run type payload meta l w = (w, flat_map (obs_calls type payload meta w0) l).
Proof.
  induction l as [|o l IH]; intros Hn; [reflexivity|].
  cbn [global_run flat_map]. destruct o as [v|]; [|cbn in Hn; tauto].
  cbn [after_obs]. rewrite IH by (cbn in Hn; tauto). reflexivity.
Qed.

(** With the forwarder once in the snapshot, every observer runs against the
    registries as they were before the loop, except that those after the
    forwarder see what the closures of [once] removed. *)
Lemma global_run_NoDup type payload meta l w :
  NoDup l ->
  global_run type payload meta l w =
    (if set_has obs_eqb ObsForwarder l
     then after_subs (subscribers_for type w) w else w,
     flat_map (obs_calls type payload meta w) l).
Proof.
  induction l as [|o l IH]; intros Hnd; [reflexivity|].
  inversion Hnd as [|? ? Ho Hnd']; subst.
  cbn [global_run flat_map]. unfold set_has. cbn [existsb].
  destruct o as [v|].
  - cbn [after_obs obs_eqb orb]. rewrite (IH Hnd'). reflexivity.
  - cbn [after_obs obs_eqb orb].
    rewrite (global_run_vals _ _ _ l _ w Ho). reflexivity.
Qed.

Lemma ccount_global_val type payload meta w l id :
  NoDup l -> In (ObsVal (VFun id)) l ->
  ccount (call_is (CHost id) [type; payload; meta])
    (flat_map (obs_calls type payload meta w) l) = 1.
Proof.
  intros Hnd Hin. rewrite (ccount_flat_map_one _ _ l _ Hnd Hin).
  - unfold ccount, call_is. cbn. rewrite Nat.eqb_refl, !eqb_refl. reflexivity.
  - intros o _ Hne. apply ccount_none. intros c Hc. apply call_is_false.
    destruct o as [v|]; [destruct v|]; cbn in Hc; try (destruct Hc; fail).
    + destruct Hc as [<- | []]. congruence.
    + destruct Hc as [<- | Hc]; [congruence|].
      apply flat_sub_calls_shape in Hc. destruct Hc as [Hs _].
      intros ->. discriminate.
Qed.

Lemma ccount_global_forwarder type payload meta w l :
  NoDup l -> In ObsForwarder l ->
  ccount (call_is CForwarder [type; payload; meta])
    (flat_map (obs_calls type payload meta w) l) = 1.
Proof.
  intros Hnd Hin. rewrite (ccount_flat_map_one _ _ l _ Hnd Hin).
  - cbn [obs_calls]. change (?x :: ?l) with ([x] ++ l). rewrite ccount_app.
    rewrite (ccount_none _ (flat_map _ _)).
    + unfold ccount, call_is. cbn. rewrite !eqb_refl. reflexivity.
    + intros c Hc. apply flat_sub_calls_shape in Hc. destruct Hc as [_ Hf].
      apply call_is_false. intros ->. apply Hf. reflexivity.
  - intros o _ Hne. apply ccount_none. intros c Hc. apply call_is_false.
    destruct o as [v|]; [destruct v|congruence]; cbn in Hc; try (destruct Hc; fail).
    destruct Hc as [<- | []]. congruence.
Qed.

(* ===================================================================== *)
(** * Inbound events *)
(* ===================================================================== *)

Section InboundTheorems.
Context {B : Builtins} {H : Host}.

(** What one inbound event calls, and that it completes normally. *)
Lemma UnityMessage_calls d w :
  is_object d = true ->
  nullish (get d "type") = false ->
  let type := get d "type" in
  let norm := normalize (get d "payload") in
  let meta := get d "meta" in
  let w' := fst (UnityMessage (CustomEvent d) w) in
  snd (UnityMessage (CustomEvent d) w) = Returns tt /\
  only_trace (dispatched type norm meta w) w' /\
  calls (since w w') = dispatch_calls type norm meta w /\
  count is_parse (since w w') = match get d "payload" with VStr _ => 1 | _ => 0 end.
Proof.
  intros Hobj Hty. cbn zeta.
  refine (wp_elim (UnityMessage (CustomEvent d)) w
            (fun r w' evs =>
               r = Returns tt /\
               only_trace (dispatched (get d "type") (normalize (get d "payload"))
                             (get d "meta") w) w' /\
               calls evs = dispatch_calls (get d "type") (normalize (get d "payload"))
                             (get d "meta") w /\
               count is_parse evs = match get d "payload" with VStr _ => 1 | _ => 0 end) _).
  apply UnityMessage_spec; auto.
Qed.

Lemma dispatch_calls_handler type norm meta w id :
  In (VFun id) (handlers_for type w) ->
  In (CHost id, [norm]) (dispatch_calls type norm meta w).
Proof.
  intros Hin. unfold dispatch_calls. rewrite in_app_iff. left.
  apply in_map_iff. exists id. split; [reflexivity|]. apply fun_ids_In. exact Hin.
Qed.

Lemma dispatch_calls_shape type norm meta w c :
  In c (dispatch_calls type norm meta w) ->
  snd c = [norm] \/ snd c = [type; norm; meta] \/ snd c = [norm; meta].
Proof.
  unfold dispatch_calls. rewrite in_app_iff. intros [Hin | Hin].
  - apply in_map_iff in Hin. destruct Hin as [id [<- _]]. auto.
  - apply global_run_shape in Hin. tauto.
Qed.

(** C4.  For an inbound event with a type, the payload is normalized once:
  a string that [JSON.parse] accepts becomes the parsed value, another
  string stays as it is, a payload that is no string passes unchanged; every
  handler registered for the type and every global observer is called with
  that one normalized value, and no call of the event carries another. *)
Theorem inbound_payload_normalized_once (w : World) (d : JsVal) :
  is_object d = true ->
  nullish (get d "type") = false ->
  let type := get d "type" in
  let raw := get d "payload" in
  let meta := get d "meta" in
  let norm := normalize raw in
  let evs := since w (fst (UnityMessage (CustomEvent d) w)) in
  (* the normalized payload *)
  match raw with
  | VStr text =>
      match JSON_parse text with
      | Returns v => norm = v
      | Throws _ => norm = raw
      end
  | _ => norm = raw
  end /\
  (* computed once *)
  count is_parse evs = match raw with VStr _ => 1 | _ => 0 end /\
  (* and handed to every handler of the type and every global observer *)
  (forall id, In (VFun id) (handlers_for type w) -> In (Call (CHost id) [norm]) evs) /\
  (forall id, In (ObsVal (VFun id)) (globalHandlers w) ->
              In (Call (CHost id) [type; norm; meta]) evs) /\
  (In ObsForwarder (globalHandlers w) -> In (Call CForwarder [type; norm; meta]) evs) /\
  (* no call of the event carries another payload *)
  (forall f args, In (Call f args) evs ->
                  args = [norm] \/ args = [type; norm; meta] \/ args = [norm; meta]).
Proof.
  intros Hobj Hty type raw meta norm evs.
  destruct (UnityMessage_calls d w Hobj Hty) as [_ [_ [Hc Hp]]].
  fold type raw meta norm evs in Hc, Hp.
  split; [|split; [exact Hp|]].
  { subst norm. unfold normalize. destruct raw; try reflexivity.
    destruct (JSON_parse s); reflexivity. }
  split; [|split; [|split]].
  - intros id Hin. apply In_calls. rewrite Hc. apply dispatch_calls_handler. exact Hin.
  - intros id Hin. apply In_calls. rewrite Hc. unfold dispatch_calls.
    rewrite in_app_iff. right. apply global_run_In_val. exact Hin.
  - intros Hin. apply In_calls. rewrite Hc. unfold dispatch_calls.
    rewrite in_app_iff. right. apply global_run_In_forwarder. exact Hin.
  - intros f args Hin. apply In_calls in Hin. rewrite Hc in Hin.
    apply dispatch_calls_shape in Hin. exact Hin.
Qed.

Lemma handlers_for_NoDup type w : wf w -> NoDup (handlers_for type w).
Proof.
  intros Hwf. unfold handlers_for.
  destruct (map_get Js.eqb type (handlers w)) as [s|] eqn:Hg; [|constructor].
  apply (map_get_In Js.eqb eqb_eq) in Hg. eapply wf_handler_sets; eauto.
Qed.

(** C5.  Whatever the handlers and observers do when they are called, throw
  included, an inbound event completes normally, and every handler
  registered for its type and every global observer is called exactly once
  with the event. *)
Theorem handler_faults_are_isolated (w : World) (d : JsVal) :
  wf w ->
  is_object d = true ->
  nullish (get d "type") = false ->
  let type := get d "type" in
  let norm := normalize (get d "payload") in
  let meta := get d "meta" in
  let evs := since w (fst (UnityMessage (CustomEvent d) w)) in
  (* nothing is raised to the caller *)
  snd (UnityMessage (CustomEvent d) w) = Returns tt /\
  (* every handler of the type and every global observer is called once *)
  (forall id, In (VFun id) (handlers_for type w) ->
              count (is_call (CHost id) [norm]) evs = 1) /\
  (forall id, In (ObsVal (VFun id)) (globalHandlers w) ->
              count (is_call (CHost id) [type; norm; meta]) evs = 1) /\
  (In ObsForwarder (globalHandlers w) ->
   count (is_call CForwarder [type; norm; meta]) evs = 1).
Proof.
  intros Hwf Hobj Hty type norm meta evs.
  destruct (UnityMessage_calls d w Hobj Hty) as [Hr [_ [Hc _]]].
  fold type norm meta evs in Hc.
  split; [exact Hr|].
  assert (Hg : snd (global_run type norm meta (globalHandlers w) w) =
               flat_map (obs_calls type norm meta w) (globalHandlers w)).
  { rewrite global_run_NoDup by apply Hwf. reflexivity. }
  split; [|split].
  - intros id Hin. rewrite count_is_call, Hc. unfold dispatch_calls.
    rewrite ccount_app, ccount_handlers.
    + rewrite ccount_none; [reflexivity|].
      intros c Hc'. apply call_is_false. apply global_run_shape in Hc'.
      intros ->. cbn in Hc'. destruct Hc' as [Hc' | [Hc' _]]; discriminate.
    + apply fun_ids_NoDup. apply handlers_for_NoDup. exact Hwf.
    + apply fun_ids_In. exact Hin.
  - intros id Hin. rewrite count_is_call, Hc. unfold dispatch_calls.
    rewrite ccount_app, Hg, ccount_global_val; [|apply Hwf | exact Hin].
    rewrite ccount_none; [reflexivity|].
    intros c Hc'. apply call_is_false. apply in_map_iff in Hc'.
    destruct Hc' as [j [<- _]]. congruence.
  - intros Hin. rewrite count_is_call, Hc. unfold dispatch_calls.
    rewrite ccount_app, Hg, ccount_global_forwarder; [|apply Hwf | exact Hin].
    rewrite ccount_none; [reflexivity|].
    intros c Hc'. apply call_is_false. apply in_map_iff in Hc'.
    destruct Hc' as [j [<- _]]. congruence.
Qed.

(** C10.  An inbound event without a detail, with a detail that is no
  object, or whose type is [null] or [undefined] changes nothing and calls
  nobody; an event whose type is [0] or the empty string is dispatched to
  the handlers of that type and to the global observers. *)
Theorem events_without_type_are_dropped (w : World) :
  (* no detail, a detail that is no object, no type: nothing happens *)
  (forall e : Bridge.DomEvent,
      match Bridge.detail e with
      | None => True
      | Some d =>
          is_object d = false \/ get d "type" = VNull \/ get d "type" = VUndefined
      end ->
      UnityMessage e w = (w, Returns tt)) /\
  (* the types 0 and '' are dispatched like any other *)
  (forall d : JsVal,
      is_object d = true ->
      get d "type" = VNum 0 \/ get d "type" = VStr EmptyString ->
      let type := get d "type" in
      let norm := normalize (get d "payload") in
      let meta := get d "meta" in
      let evs := since w (fst (UnityMessage (CustomEvent d) w)) in
      snd (UnityMessage (CustomEvent d) w) = Returns tt /\
      (forall id, In (VFun id) (handlers_for type w) -> In (Call (CHost id) [norm]) evs) /\
      (forall id, In (ObsVal (VFun id)) (globalHandlers w) ->
                  In (Call (CHost id) [type; norm; meta]) evs) /\
      (In ObsForwarder (globalHandlers w) -> In (Call CForwarder [type; norm; meta]) evs)).
Proof.
  split.
  - intros e He. apply UnityMessage_dropped.
    destruct (Bridge.detail e) as [d|]; [|exact I].
    destruct He as [He | [He | He]]; [auto | right; rewrite He; reflexivity ..].
  - intros d Hobj Hty type norm meta evs.
    assert (nullish (get d "type") = false) as Hn
      by (destruct Hty as [-> | ->]; reflexivity).
    destruct (UnityMessage_calls d w Hobj Hn) as [Hr [_ [Hc _]]].
    fold type norm meta evs in Hc.
    split; [exact Hr|]. split; [|split].
    + intros id Hin. apply In_calls. rewrite Hc. apply dispatch_calls_handler. exact Hin.
    + intros id Hin. apply In_calls. rewrite Hc. unfold dispatch_calls.
      rewrite in_app_iff. right. apply global_run_In_val. exact Hin.
    + intros Hin. apply In_calls. rewrite Hc. unfold dispatch_calls.
      rewrite in_app_iff. right. apply global_run_In_forwarder. exact Hin.
Qed.
End InboundTheorems.

(* ===================================================================== *)
(** * The event bus: its operations as functions of the state *)
(* ===================================================================== *)

Lemma wp_run {A} (m : M A) w (a : A) w' :
  wp m w (fun r w1 _ => r = Returns a /\ w1 = w') -> m w = (w', Returns a).
Proof.
  intros [evs [_ [Hr Hw]]]. destruct (m w) as [w1 r]. cbn in *. subst. reflexivity.
Qed.

Section BusRuns.
Context {B : Builtins} {H : Host}.

Lemma subscribe_run type handler w :
  EventBus.subscribe type handler w =
    if String.eqb (sub_typeof handler) "function"
    then (subscribed type handler w, Returns (OffBus type handler))
    else (w, Returns Noop).
Proof.
  destruct (String.eqb (sub_typeof handler) "function") eqn:E.
  - apply wp_run. apply subscribe_spec; [apply String.eqb_eq; exact E | auto].
  - unfold EventBus.subscribe. rewrite E. reflexivity.
Qed.

Lemma unsubscribe_run type handler w :
  EventBus.unsubscribe type handler w = (unsubscribed type handler w, Returns tt).
Proof. apply wp_run. apply unsubscribe_spec. auto. Qed.

Lemma once_run type handler w :
  EventBus.once type handler w =
    if String.eqb (typeof handler) "function"
    then (subscribed type (SubOnce (closures w) type handler)
            (set_closures (S (closures w)) w), Returns tt)
    else (w, Returns tt).
Proof.
  destruct (String.eqb (typeof handler) "function") eqn:E.
  - apply wp_run. apply once_spec; [apply String.eqb_eq; exact E | auto].
  - unfold EventBus.once. rewrite E. reflexivity.
Qed.

Lemma clear_run type w : EventBus.clear type w = (cleared type w, Returns tt).
Proof. apply wp_run. apply clear_spec. auto. Qed.
End BusRuns.

Lemma bus_inv_set_closures w n : bus_inv w -> bus_inv (set_closures n w).
Proof. auto. Qed.

Lemma installations_one_In w : forwarder_installations w = 1 -> In ObsForwarder (globalHandlers w).
Proof.
  unfold forwarder_installations. intros Hl.
  destruct (filter (obs_eqb ObsForwarder) (globalHandlers w)) as [|o l] eqn:E; [discriminate|].
  assert (In o (filter (obs_eqb ObsForwarder) (globalHandlers w))) as Hin
    by (rewrite E; left; reflexivity).
  apply filter_In in Hin. destruct Hin as [Hin Ho].
  apply obs_eqb_eq in Ho. subst o. exact Hin.
Qed.

Lemma bus_inv_installed w x type :
  bus_inv w -> In x (subscribers_for type w) -> In ObsForwarder (globalHandlers w).
Proof.
  intros [_ Hf] Hin. apply installations_one_In.
  apply subscribers_for_count in Hin. apply Nat.ltb_lt in Hin.
  rewrite Hin in Hf. exact Hf.
Qed.

Lemma subscribers_uninstalled w : subscribers (uninstalled w) = subscribers w.
Proof.
  unfold uninstalled.
  destruct (_installed w && Nat.eqb (subscriber_count w) 0); reflexivity.
Qed.

Lemma closures_uninstalled w : closures (uninstalled w) = closures w.
Proof.
  unfold uninstalled.
  destruct (_installed w && Nat.eqb (subscriber_count w) 0); reflexivity.
Qed.

Lemma handlers_uninstalled w : handlers (uninstalled w) = handlers w.
Proof.
  unfold uninstalled.
  destruct (_installed w && Nat.eqb (subscriber_count w) 0); reflexivity.
Qed.

Lemma subscribers_unsubscribed type x w :
  subscribers (unsubscribed type x w) = without type x (subscribers w).
Proof.
  unfold unsubscribed.
  destruct (map_get Js.eqb type (subscribers w)) eqn:E.
  - rewrite subscribers_uninstalled. reflexivity.
  - unfold without. rewrite E. reflexivity.
Qed.

Lemma without_get_ne type x subs k :
  k <> type -> map_get Js.eqb k (without type x subs) = map_get Js.eqb k subs.
Proof.
  intros Hne. unfold without.
  destruct (map_get Js.eqb type subs) as [s|]; [|reflexivity].
  destruct (Nat.eqb _ 0).
  - rewrite (map_get_delete_ne Js.eqb eqb_eq) by exact Hne.
    apply (map_get_set_ne Js.eqb eqb_eq). exact Hne.
  - apply (map_get_set_ne Js.eqb eqb_eq). exact Hne.
Qed.

Lemma subscribers_for_unsubscribed_ne type x w k :
  k <> type -> subscribers_for k (unsubscribed type x w) = subscribers_for k w.
Proof.
  intros Hne. unfold subscribers_for.
  rewrite subscribers_unsubscribed, without_get_ne by exact Hne. reflexivity.
Qed.

Lemma subscribers_for_subscribed_ne type x w k :
  k <> type -> subscribers_for k (subscribed type x w) = subscribers_for k w.
Proof.
  intros Hne. unfold subscribers_for, subscribed. cbn.
  rewrite (map_get_set_ne Js.eqb eqb_eq) by exact Hne. reflexivity.
Qed.

(** The first run of the forwarder in a snapshot calls the subscribers of
    the type as they are before the loop. *)
Lemma global_run_In_sub type payload meta l w x c :
  In ObsForwarder l ->
  In x (subscribers_for type w) ->
  In c (sub_calls payload meta x) ->
  In c (snd (global_run type payload meta l w)).
Proof.
  intros Hf Hx Hc. induction l as [|o l IH]; [destruct Hf|].
  cbn [global_run snd]. rewrite in_app_iff.
  destruct o as [v|].
  - right. cbn [after_obs]. apply IH. destruct Hf as [Hf | Hf]; [discriminate | exact Hf].
  - left. cbn [obs_calls]. right. apply in_flat_map. exists x. auto.
Qed.

(* ===================================================================== *)
(** * once *)
(* ===================================================================== *)

Lemma sub_shrinks_refl w : sub_shrinks w w.
Proof. intros type x Hin. exact Hin. Qed.

Lemma sub_shrinks_trans a b c : sub_shrinks a b -> sub_shrinks b c -> sub_shrinks a c.
Proof. intros H1 H2 type x Hin. apply H1. apply H2. exact Hin. Qed.

Lemma sub_shrinks_only_trace a b : only_trace a b -> sub_shrinks a b.
Proof. intros -> type x Hin. exact Hin. Qed.

Lemma subscribers_for_unsubscribed_eq type x w :
  wf w ->
  subscribers_for type (unsubscribed type x w) =
    set_delete sub_eqb x (subscribers_for type w).
Proof.
  intros Hwf. unfold subscribers_for. rewrite subscribers_unsubscribed. unfold without.
  destruct (map_get Js.eqb type (subscribers w)) as [s|] eqn:Hg.
  - destruct (Nat.eqb_spec (List.length (set_delete sub_eqb x s)) 0) as [Hz|Hnz].
    + rewrite (map_get_delete_eq Js.eqb eqb_eq).
      * destruct (set_delete sub_eqb x s); [reflexivity | discriminate].
      * apply (NoDup_keys_map_set Js.eqb eqb_eq). apply Hwf.
    + rewrite (map_get_set_eq Js.eqb eqb_eq). reflexivity.
  - rewrite Hg. reflexivity.
Qed.

Lemma sub_shrinks_unsubscribed type x w : wf w -> sub_shrinks w (unsubscribed type x w).
Proof.
  intros Hwf k y Hin. destruct (eqb_neq k type) as [_ Hd].
  destruct (Js.eqb k type) eqn:E.
  - apply eqb_eq in E. subst k. rewrite subscribers_for_unsubscribed_eq in Hin by exact Hwf.
    eapply In_set_delete. exact Hin.
  - rewrite subscribers_for_unsubscribed_ne in Hin; [exact Hin|].
    apply eqb_neq. exact E.
Qed.

Lemma wf_after_sub x w : wf w -> wf (after_sub x w).
Proof. destruct x; cbn; [auto | apply wf_unsubscribed]. Qed.

Lemma bus_inv_after_sub x w : wf w -> bus_inv w -> bus_inv (after_sub x w).
Proof. destruct x; cbn; [auto | apply bus_inv_unsubscribed]. Qed.

Lemma sub_shrinks_after_sub x w : wf w -> sub_shrinks w (after_sub x w).
Proof. destruct x; cbn; [intros; apply sub_shrinks_refl | apply sub_shrinks_unsubscribed]. Qed.

Lemma after_subs_inv l w :
  wf w -> bus_inv w ->
  wf (after_subs l w) /\ bus_inv (after_subs l w) /\ sub_shrinks w (after_subs l w).
Proof.
  revert w. induction l as [|x l IH]; intros w Hwf Hinv; cbn.
  - split; [exact Hwf|]. split; [exact Hinv | apply sub_shrinks_refl].
  - destruct (IH (after_sub x w) (wf_after_sub x w Hwf) (bus_inv_after_sub x w Hwf Hinv))
      as [H1 [H2 H3]].
    split; [exact H1|]. split; [exact H2|].
    eapply sub_shrinks_trans; [apply sub_shrinks_after_sub; exact Hwf | exact H3].
Qed.

(** A closure of [once] that is in the snapshot of its own type is no longer
    subscribed after the loop. *)
Lemma after_subs_removes l w n type h :
  wf w -> bus_inv w ->
  In (SubOnce n type h) l ->
  ~ In (SubOnce n type h) (subscribers_for type (after_subs l w)).
Proof.
  revert w. induction l as [|x l IH]; intros w Hwf Hinv Hin; [destruct Hin|].
  cbn [after_subs fold_left]. fold (after_subs l (after_sub x w)).
  destruct Hin as [-> | Hin].
  - intros Hc.
    destruct (after_subs_inv l (after_sub (SubOnce n type h) w)
                (wf_after_sub _ w Hwf) (bus_inv_after_sub _ w Hwf Hinv)) as [_ [_ Hs]].
    apply Hs in Hc. cbn [after_sub] in Hc.
    rewrite subscribers_for_unsubscribed_eq in Hc by exact Hwf.
    apply (In_set_delete_iff sub_eqb sub_eqb_eq) in Hc.
    + destruct Hc as [Hc _]. congruence.
    + unfold subscribers_for.
      destruct (map_get Js.eqb type (subscribers w)) as [s|] eqn:Hg; [|constructor].
      apply (map_get_In Js.eqb eqb_eq) in Hg. eapply wf_sub_sets; eauto.
  - apply IH; [apply wf_after_sub; exact Hwf | apply bus_inv_after_sub; assumption | exact Hin].
Qed.

Lemma subscribers_for_NoDup type w : wf w -> NoDup (subscribers_for type w).
Proof.
  intros Hwf. unfold subscribers_for.
  destruct (map_get Js.eqb type (subscribers w)) as [s|] eqn:Hg; [|constructor].
  apply (map_get_In Js.eqb eqb_eq) in Hg. eapply wf_sub_sets; eauto.
Qed.

(** The registries after one event. *)
Lemma dispatched_eq type payload meta w :
  wf w ->
  dispatched type payload meta w =
    if set_has obs_eqb ObsForwarder (globalHandlers w)
    then after_subs (subscribers_for type w) w else w.
Proof.
  intros Hwf. unfold dispatched. rewrite global_run_NoDup by apply Hwf. reflexivity.
Qed.

Lemma dispatched_inv type payload meta w :
  wf w -> bus_inv w ->
  wf (dispatched type payload meta w) /\ bus_inv (dispatched type payload meta w) /\
  sub_shrinks w (dispatched type payload meta w).
Proof.
  intros Hwf Hinv. rewrite dispatched_eq by exact Hwf.
  destruct (set_has obs_eqb ObsForwarder (globalHandlers w)).
  - apply after_subs_inv; assumption.
  - split; [exact Hwf|]. split; [exact Hinv | apply sub_shrinks_refl].
Qed.

(** Counting the calls of one event *)

Lemma count_calls p q evs :
  (forall f args, p (Call f args) = q (f, args)) ->
  (forall ev, match ev with Call _ _ => True | _ => p ev = false end) ->
  count p evs = ccount q (calls evs).
Proof.
  intros Hc Hn. unfold count, ccount. induction evs as [|ev evs IH]; [reflexivity|].
  pose proof (Hn ev) as Hev.
  destruct ev; cbn [filter calls]; rewrite ?Hev; try exact IH.
  rewrite Hc. destruct (q (f, args)); cbn [List.length]; rewrite IH; reflexivity.
Qed.

Lemma count_called_once n evs :
  count (called (COnce n)) evs = ccount (once_is n) (calls evs).
Proof. apply count_calls; [reflexivity | intros []; auto]. Qed.

Lemma count_bus_call id evs :
  count (bus_call id) evs = ccount (host2_is id) (calls evs).
Proof. apply count_calls; [reflexivity | intros []; auto]. Qed.

(** Of the calls of one event, those of closures of [once] and those of
    host functions as subscribers are the ones the forwarder makes. *)
Lemma ccount_dispatch_calls q type payload meta w :
  wf w ->
  (forall j args, List.length args <> 2 -> q (CHost j, args) = false) ->
  (forall args, q (CForwarder, args) = false) ->
  ccount q (dispatch_calls type payload meta w) =
    if set_has obs_eqb ObsForwarder (globalHandlers w)
    then ccount q (flat_map (sub_calls payload meta) (subscribers_for type w))
    else 0.
Proof.
  intros Hwf Hq Hf. unfold dispatch_calls. rewrite ccount_app.
  rewrite ccount_none.
  2:{ intros c Hin. apply in_map_iff in Hin. destruct Hin as [j [<- _]].
      apply Hq. cbn. lia. }
  rewrite global_run_NoDup by apply Hwf. cbn [snd plus].
  destruct (set_has obs_eqb ObsForwarder (globalHandlers w)) eqn:E.
  - apply (set_has_In obs_eqb obs_eqb_eq) in E.
    rewrite (ccount_flat_map_one _ _ _ ObsForwarder (wf_global _ Hwf) E).
    + cbn [obs_calls]. change (?x :: ?l) with ([x] ++ l) at 1. rewrite ccount_app.
      rewrite (ccount_none _ [_]); [reflexivity|].
      intros c [<- | []]. apply Hf.
    + intros o _ Hne. apply ccount_none. intros c Hc.
      destruct o as [v|]; [|congruence].
      destruct v; cbn in Hc; try (destruct Hc; fail).
      destruct Hc as [<- | []]. apply Hq. cbn. lia.
  - apply ccount_flat_map_zero. intros o Hin. apply ccount_none. intros c Hc.
    destruct o as [v|].
    + destruct v; cbn in Hc; try (destruct Hc; fail).
      destruct Hc as [<- | []]. apply Hq. cbn. lia.
    + exfalso. apply (set_has_In obs_eqb obs_eqb_eq) in Hin. congruence.
Qed.

Lemma absent_shrinks n w w' : sub_shrinks w w' -> absent n w -> absent n w'.
Proof. intros Hs Ha type x Hin. apply (Ha type). apply Hs. exact Hin. Qed.

Lemma hostfree_shrinks id type w w' : sub_shrinks w w' -> hostfree id type w -> hostfree id type w'.
Proof. intros Hs Ha x Hin. apply Ha. apply Hs. exact Hin. Qed.

Lemma ccount_once_absent n payload meta l :
  (forall x, In x l -> match x with SubOnce m _ _ => m <> n | SubVal _ => True end) ->
  ccount (once_is n) (flat_map (sub_calls payload meta) l) = 0.
Proof.
  intros Ha. apply ccount_flat_map_zero. intros x Hin. apply ccount_none.
  intros c Hc. specialize (Ha x Hin). unfold once_is.
  destruct x as [v | m t h]; [destruct v | destruct h]; cbn in Hc;
    repeat (destruct Hc as [<- | Hc]); try (destruct Hc); cbn; try reflexivity;
    apply Nat.eqb_neq; congruence.
Qed.

Lemma ccount_once_present n type h payload meta l :
  NoDup l ->
  In (SubOnce n type h) l ->
  (forall x, In x l -> x <> SubOnce n type h ->
             match x with SubOnce m _ _ => m <> n | SubVal _ => True end) ->
  ccount (once_is n) (flat_map (sub_calls payload meta) l) = 1.
Proof.
  intros Hnd Hin Hs. rewrite (ccount_flat_map_one _ _ l _ Hnd Hin).
  - unfold ccount, once_is. destruct h; cbn; rewrite Nat.eqb_refl; reflexivity.
  - intros x Hx Hne. apply ccount_none. intros c Hc. specialize (Hs x Hx Hne).
    unfold once_is.
    destruct x as [v | m t h']; [destruct v | destruct h']; cbn in Hc;
      repeat (destruct Hc as [<- | Hc]); try (destruct Hc); cbn; try reflexivity;
      apply Nat.eqb_neq; congruence.
Qed.

Lemma ccount_host2_absent id payload meta l :
  (forall x, In x l -> calls_host id x = false) ->
  ccount (host2_is id) (flat_map (sub_calls payload meta) l) = 0.
Proof.
  intros Ha. apply ccount_flat_map_zero. intros x Hin. apply ccount_none.
  intros c Hc. specialize (Ha x Hin).
  destruct x as [v | m t h]; [destruct v | destruct h]; cbn in Hc, Ha;
    repeat (destruct Hc as [<- | Hc]); try (destruct Hc); cbn; try reflexivity; exact Ha.
Qed.

Lemma ccount_host2_present id n type payload meta l :
  NoDup l ->
  In (SubOnce n type (VFun id)) l ->
  (forall x, In x l -> x <> SubOnce n type (VFun id) -> calls_host id x = false) ->
  ccount (host2_is id) (flat_map (sub_calls payload meta) l) = 1.
Proof.
  intros Hnd Hin Hs. rewrite (ccount_flat_map_one _ _ l _ Hnd Hin).
  - unfold ccount. cbn. rewrite Nat.eqb_refl. reflexivity.
  - intros x Hx Hne. apply ccount_none. intros c Hc. specialize (Hs x Hx Hne).
    destruct x as [v | m t h]; [destruct v | destruct h]; cbn in Hc, Hs;
      repeat (destruct Hc as [<- | Hc]); try (destruct Hc); cbn; try reflexivity; exact Hs.
Qed.

Section OnceFacts.
Context {B : Builtins} {H : Host}.

(** One event of [type] when no closure [n] is subscribed. *)
Lemma dispatch_without n id type d w Q :
  wf w -> bus_inv w -> absent n w ->
  is_object d = true -> get d "type" = type -> nullish type = false ->
  (forall evs w',
      wf w' -> bus_inv w' -> sub_shrinks w w' ->
      count (called (COnce n)) evs = 0 ->
      (hostfree id type w -> count (bus_call id) evs = 0) ->
      Q (Returns tt) w' evs) ->
  wp (UnityMessage (CustomEvent d)) w Q.
Proof.
  intros Hwf Hinv Habs Hobj Hty Hnull HQ.
  apply UnityMessage_spec; [exact Hobj | rewrite Hty; exact Hnull|].
  rewrite Hty. intros evs w' Ho Hc _.
  destruct (dispatched_inv type (normalize (get d "payload")) (get d "meta") w Hwf Hinv)
    as [Hwf' [Hinv' Hsh]].
  apply HQ.
  - eapply wf_only_trace; eauto.
  - eapply bus_inv_only_trace; eauto.
  - eapply sub_shrinks_trans; [exact Hsh | apply sub_shrinks_only_trace; exact Ho].
  - rewrite count_called_once, Hc.
    rewrite ccount_dispatch_calls; [|exact Hwf | reflexivity | reflexivity].
    destruct (set_has obs_eqb ObsForwarder (globalHandlers w)); [|reflexivity].
    apply ccount_once_absent. intros x Hin. apply (Habs type). exact Hin.
  - intros Hfree. rewrite count_bus_call, Hc.
    rewrite ccount_dispatch_calls; [|exact Hwf | | reflexivity].
    + destruct (set_has obs_eqb ObsForwarder (globalHandlers w)); [|reflexivity].
      apply ccount_host2_absent. exact Hfree.
    + intros j [|a [|b [|c args]]] Hlen; cbn in *; try reflexivity. lia.
Qed.

Lemma dispatch_all_without n id type ds w Q :
  wf w -> bus_inv w -> absent n w ->
  Forall (fun d => is_object d = true /\ get d "type" = type) ds ->
  nullish type = false ->
  (forall evs w',
      wf w' -> bus_inv w' -> sub_shrinks w w' ->
      count (called (COnce n)) evs = 0 ->
      (hostfree id type w -> count (bus_call id) evs = 0) ->
      Q (Returns tt) w' evs) ->
  wp (dispatch_all ds) w Q.
Proof.
  intros Hwf Hinv Habs Hds Hnull HQ. unfold dispatch_all.
  apply (wp_for_each (fun rest w' evs =>
           Forall (fun d => is_object d = true /\ get d "type" = type) rest /\
           wf w' /\ bus_inv w' /\ sub_shrinks w w' /\
           count (called (COnce n)) evs = 0 /\
           (hostfree id type w -> count (bus_call id) evs = 0))).
  - split; [exact Hds|]. split; [exact Hwf|]. split; [exact Hinv|].
    split; [apply sub_shrinks_refl|]. split; [reflexivity | intros _; reflexivity].
  - intros d rest w1 evs [Hrest [Hwf1 [Hinv1 [Hsh1 [Hc1 Hb1]]]]].
    inversion Hrest as [|? ? [Hobj Hty] Hrest']; subst.
    apply (dispatch_without n id (get d "type")); auto.
    + eapply absent_shrinks; eauto.
    + intros e w2 Hwf2 Hinv2 Hsh2 Hc2 Hb2. split; [reflexivity|].
      split; [exact Hrest'|]. split; [exact Hwf2|]. split; [exact Hinv2|].
      split; [eapply sub_shrinks_trans; eauto|].
      split; [rewrite count_app; lia|].
      intros Hfree. rewrite count_app, (Hb1 Hfree), Hb2; [reflexivity|].
      eapply hostfree_shrinks; eauto.
  - intros w' evs [_ [Hwf1 [Hinv1 [Hsh1 [Hc1 Hb1]]]]]. apply HQ; auto.
Qed.

(** The state right after [once(type, handler)]. *)
Lemma after_once type id w :
  wf w -> bus_inv w ->
  let n := closures w in
  let W := SubOnce n type (VFun id) in
  let w1 := subscribed type W (set_closures (S n) w) in
  wf w1 /\ bus_inv w1 /\
  In W (subscribers_for type w1) /\
  In ObsForwarder (globalHandlers w1) /\
  (forall k x, In x (subscribers_for k w1) ->
               (k = type /\ x = W) \/ In x (subscribers_for k w)) /\
  (forall k x, In x (subscribers_for k w) ->
               match x with SubOnce m _ _ => m <> n | SubVal _ => True end).
Proof.
  intros Hwf Hinv n W w1.
  assert (wf w1) as Hwf1.
  { apply wf_subscribed; [apply wf_set_closures; [exact Hwf | lia]|].
    intros m t h [= -> _ _]. cbn. lia. }
  assert (bus_inv w1) as Hinv1.
  { apply bus_inv_subscribed; [apply wf_set_closures; [exact Hwf | lia]|].
    apply bus_inv_set_closures. exact Hinv. }
  pose proof (subscribed_In type W (set_closures (S n) w)) as Hin.
  split; [exact Hwf1|]. split; [exact Hinv1|]. split; [exact Hin|].
  split; [eapply bus_inv_installed; eauto|]. split.
  - intros k x Hx. destruct (Js.eqb k type) eqn:E.
    + apply eqb_eq in E. subst k. unfold w1, subscribed, subscribers_for in Hx.
      cbn in Hx. rewrite (map_get_set_eq Js.eqb eqb_eq) in Hx.
      apply (In_set_add sub_eqb sub_eqb_eq) in Hx.
      destruct Hx as [-> | Hx]; [left; auto | right; exact Hx].
    + right. apply eqb_neq in E. unfold w1 in Hx.
      rewrite subscribers_for_subscribed_ne in Hx by exact E. exact Hx.
  - intros k x Hx. destruct x as [v | m t h]; [exact I|].
    unfold subscribers_for in Hx.
    destruct (map_get Js.eqb k (subscribers w)) as [s|] eqn:Hg; [|destruct Hx].
    apply (map_get_In Js.eqb eqb_eq) in Hg.
    pose proof (wf_closures _ Hwf _ _ _ _ _ Hg Hx). unfold n. lia.
Qed.

(** What the closure of [once] does when it is called. *)
Lemma once_wrapper_spec n type id payload meta w :
  let W := SubOnce n type (VFun id) in
  let r := EventBus.call_subscriber W payload meta w in
  only_trace (unsubscribed type W w) (fst r) /\
  since w (fst r) = [Call (COnce n) [payload; meta]; Call (CHost id) [payload; meta]] /\
  snd r =
    match host_fn id [payload; meta] (trace w ++ [Call (COnce n) [payload; meta]]) with
    | Returns _ => Returns VUndefined
    | Throws e => Throws e
    end.
Proof.
  cbn zeta.
  refine (wp_elim (EventBus.call_subscriber (SubOnce n type (VFun id)) payload meta) w
            (fun r w' evs =>
               only_trace (unsubscribed type (SubOnce n type (VFun id)) w) w' /\
               evs = [Call (COnce n) [payload; meta]; Call (CHost id) [payload; meta]] /\
               r = match host_fn id [payload; meta]
                           (trace w ++ [Call (COnce n) [payload; meta]]) with
                   | Returns _ => Returns VUndefined
                   | Throws e => Throws e
                   end) _).
  cbn [EventBus.call_subscriber]. wp_steps. apply call_value_spec. wp_steps.
  apply unsubscribe_spec.
  destruct (host_fn id [payload; meta] (trace w ++ [Call (COnce n) [payload; meta]]));
    wp_steps; (split; [rewrite !unsubscribed_set_trace; reflexivity | auto]).
Qed.
End OnceFacts.

Section OnceTheorem.
Context {B : Builtins} {H : Host}.

(** The first event of [type] after [once(type, handler)]. *)
Lemma dispatch_first type id d w Q :
  wf w -> bus_inv w ->
  is_object d = true -> get d "type" = type -> nullish type = false ->
  let n := closures w in
  let w1 := subscribed type (SubOnce n type (VFun id)) (set_closures (S n) w) in
  (forall evs w',
      wf w' -> bus_inv w' -> absent n w' ->
      (hostfree id type w -> hostfree id type w') ->
      count (called (COnce n)) evs = 1 ->
      (hostfree id type w -> count (bus_call id) evs = 1) ->
      Q (Returns tt) w' evs) ->
  wp (UnityMessage (CustomEvent d)) w1 Q.
Proof.
  intros Hwf Hinv Hobj Hty Hnull n w1 HQ.
  destruct (after_once type id w Hwf Hinv) as [Hwf1 [Hinv1 [HinW [Hfw [Hcls Hold]]]]].
  fold n in Hwf1, Hinv1, HinW, Hfw, Hcls, Hold. fold w1 in Hwf1, Hinv1, HinW, Hfw, Hcls.
  set (W := SubOnce n type (VFun id)) in *.
  apply UnityMessage_spec; [exact Hobj | rewrite Hty; exact Hnull|].
  rewrite Hty. intros evs w' Ho Hc _.
  set (norm := normalize (get d "payload")) in *. set (meta := get d "meta") in *.
  destruct (dispatched_inv type norm meta w1 Hwf1 Hinv1) as [Hwf' [Hinv' Hsh]].
  assert (set_has obs_eqb ObsForwarder (globalHandlers w1) = true) as Hhas
    by (apply (set_has_In obs_eqb obs_eqb_eq); exact Hfw).
  assert (~ In W (subscribers_for type w')) as Hgone.
  { replace (subscribers_for type w')
      with (subscribers_for type (dispatched type norm meta w1))
      by (rewrite Ho; reflexivity).
    rewrite dispatched_eq, Hhas by exact Hwf1.
    apply after_subs_removes; assumption. }
  assert (sub_shrinks w1 w') as Hsh'
    by (eapply sub_shrinks_trans; [exact Hsh | apply sub_shrinks_only_trace; exact Ho]).
  assert (forall x, In x (subscribers_for type w1) -> x <> W ->
                    In x (subscribers_for type w)) as Hrest.
  { intros x Hx Hne. destruct (Hcls _ _ Hx) as [[_ ->] | Hx']; [congruence | exact Hx']. }
  apply HQ.
  - eapply wf_only_trace; eauto.
  - eapply bus_inv_only_trace; eauto.
  - intros k x Hx. pose proof (Hsh' _ _ Hx) as Hx1.
    destruct (Hcls _ _ Hx1) as [[-> ->] | Hx0]; [contradiction|].
    apply (Hold _ _ Hx0).
  - intros Hfree x Hx. pose proof (Hsh' _ _ Hx) as Hx1.
    destruct (Hcls _ _ Hx1) as [[_ ->] | Hx0]; [contradiction|].
    apply Hfree. exact Hx0.
  - rewrite count_called_once, Hc.
    rewrite ccount_dispatch_calls, Hhas; [|exact Hwf1 | reflexivity | reflexivity].
    apply (ccount_once_present n type (VFun id));
      [apply subscribers_for_NoDup; exact Hwf1 | exact HinW|].
    intros x Hx Hne. apply (Hold type). apply Hrest; assumption.
  - intros Hfree. rewrite count_bus_call, Hc.
    rewrite ccount_dispatch_calls, Hhas; [|exact Hwf1 | | reflexivity].
    + apply (ccount_host2_present id n type);
        [apply subscribers_for_NoDup; exact Hwf1 | exact HinW|].
      intros x Hx Hne. apply Hfree. apply Hrest; assumption.
    + intros j [|a [|b [|c args]]] Hlen; cbn in *; try reflexivity. lia.
Qed.

(** C9.  After [once(T, h)], over any sequence of one, two or more events of
  type [T] the closure that [once] created runs exactly once and is then no
  longer subscribed, so that [h], unless it is subscribed to [T] otherwise,
  is called exactly once; the events complete normally whatever [h] does.
  The closure itself always unsubscribes, and completes the way [h] did: if
  [h] threw, the closure throws the same value (to the forwarder's
  [try]/[catch]). *)
Theorem once_fires_exactly_once
  (w : World) (type : JsVal) (id : nat) (d : JsVal) (ds : list JsVal) :
  wf w ->
  bus_inv w ->
  nullish type = false ->
  Forall (fun d => is_object d = true /\ get d "type" = type) (d :: ds) ->
  let n := closures w in
  let w1 := fst (EventBus.once type (VFun id) w) in
  let w2 := fst (dispatch_all (d :: ds) w1) in
  let evs := since w1 w2 in
  (* the dispatches complete normally, whatever the handler does *)
  snd (dispatch_all (d :: ds) w1) = Returns tt /\
  (* the closure runs once, and is subscribed no more *)
  count (called (COnce n)) evs = 1 /\
  absent n w2 /\
  (* so the handler, if it is not subscribed to the type otherwise, is
     called once *)
  (hostfree id type w -> count (bus_call id) evs = 1) /\
  (* whenever the closure is called it calls the handler, unsubscribes and
     hands on what the handler returned or threw *)
  (forall payload meta w0,
      let W := SubOnce n type (VFun id) in
      let r := EventBus.call_subscriber W payload meta w0 in
      only_trace (unsubscribed type W w0) (fst r) /\
      since w0 (fst r) =
        [Call (COnce n) [payload; meta]; Call (CHost id) [payload; meta]] /\
      snd r =
        match host_fn id [payload; meta]
                (trace w0 ++ [Call (COnce n) [payload; meta]]) with
        | Returns _ => Returns VUndefined
        | Throws e => Throws e
        end).
Proof.
  intros Hwf Hinv Hnull Hds n w1 w2 evs.
  inversion Hds as [|? ? [Hobj Hty] Hds']; subst.
  assert (w1 = subscribed (get d "type") (SubOnce n (get d "type") (VFun id))
                 (set_closures (S n) w)) as Hw1.
  { unfold w1. rewrite once_run. reflexivity. }
  assert (G : snd (dispatch_all (d :: ds) w1) = Returns tt /\
              count (called (COnce n)) evs = 1 /\
              absent n w2 /\
              (hostfree id (get d "type") w -> count (bus_call id) evs = 1)).
  { subst w2 evs.
    refine (wp_elim (dispatch_all (d :: ds)) w1
              (fun r w' evs =>
                 r = Returns tt /\ count (called (COnce n)) evs = 1 /\
                 absent n w' /\
                 (hostfree id (get d "type") w -> count (bus_call id) evs = 1)) _).
    unfold dispatch_all. cbn [for_each]. wp_step. rewrite Hw1.
    apply dispatch_first; auto.
    intros evs1 wa Hwfa Hinva Habsa Hfreea Hc1 Hb1. cbn beta iota.
    apply (dispatch_all_without n id (get d "type")); auto.
    intros evs2 wb Hwfb Hinvb Hshb Hc2 Hb2.
    split; [reflexivity|].
    split; [rewrite count_app; unfold n in *; rewrite Hc1, Hc2; reflexivity|].
    split; [eapply absent_shrinks; eauto|].
    intros Hfree. rewrite count_app, (Hb1 Hfree), (Hb2 (Hfreea Hfree)). reflexivity. }
  destruct G as [G1 [G2 [G3 G4]]].
  split; [exact G1|]. split; [exact G2|]. split; [exact G3|]. split; [exact G4|].
  intros payload meta w0. apply once_wrapper_spec.
Qed.
End OnceTheorem.

(* ===================================================================== *)
(** * The invariants hold in every state the page can reach *)
(* ===================================================================== *)

Lemma same_registries_refl w : same_registries w w.
Proof. constructor; reflexivity. Qed.

Lemma same_registries_only_trace w w' : only_trace w w' -> same_registries w w'.
Proof. intros ->. constructor; reflexivity. Qed.

Lemma wf_same w w' : same_registries w w' -> wf w -> wf w'.
Proof.
  intros [Hh Hg Hs _ Hc _ _ _] [W1 W2 W3 W4 W5 W6 W7].
  constructor; rewrite ?Hh, ?Hg, ?Hs, ?Hc; assumption.
Qed.

Lemma bus_inv_same w w' : same_registries w w' -> bus_inv w -> bus_inv w'.
Proof.
  intros [_ Hg Hs Hi _ _ _ _]. unfold bus_inv, subscriber_count, forwarder_installations.
  rewrite Hg, Hs, Hi. auto.
Qed.

Lemma ready_inv_same w w' : same_registries w w' -> ready_inv w -> ready_inv w'.
Proof.
  intros [_ _ _ _ _ Hp Hr Hps]. unfold ready_inv, promise. rewrite Hp, Hr, Hps. auto.
Qed.

Lemma page_inv_same w w' : same_registries w w' -> page_inv w -> page_inv w'.
Proof.
  intros Hs [Hwf [Hbus Hready]].
  split; [eapply wf_same; eauto|].
  split; [eapply bus_inv_same; eauto | eapply ready_inv_same; eauto].
Qed.

Lemma page_inv_initial : page_inv initial.
Proof.
  split; [apply wf_initial|]. split; [apply bus_inv_initial | reflexivity].
Qed.

(** The bridge's registry of per-type handlers *)

Lemma wf_set_handlers w hs :
  wf w ->
  NoDup (keys hs) ->
  (forall k s, In (k, s) hs -> NoDup s) ->
  wf (set_handlers hs w).
Proof. intros [W1 W2 W3 W4 W5 W6 W7] Hk Hs. constructor; assumption. Qed.

Lemma page_inv_set_handlers w hs :
  page_inv w ->
  NoDup (keys hs) ->
  (forall k s, In (k, s) hs -> NoDup s) ->
  page_inv (set_handlers hs w).
Proof.
  intros [Hwf [Hbus Hready]] Hk Hs.
  split; [apply wf_set_handlers; assumption|]. split; assumption.
Qed.

Lemma keeps_registerHandler eventName fn : keeps (Bridge.registerHandler eventName fn).
Proof.
  intros w Hinv. split; [exists tt; reflexivity|]. pose proof Hinv as [Hwf _].
  unfold Bridge.registerHandler, modify. cbn [fst].
  set (hs := if map_has Js.eqb eventName (handlers w) then handlers w
             else map_set Js.eqb eventName [] (handlers w)).
  assert (NoDup (keys hs)) as Hk.
  { unfold hs. destruct (map_has Js.eqb eventName (handlers w)); [apply Hwf|].
    apply (NoDup_keys_map_set Js.eqb eqb_eq). apply Hwf. }
  assert (forall k s, In (k, s) hs -> NoDup s) as Hs.
  { unfold hs. destruct (map_has Js.eqb eventName (handlers w)).
    - exact (wf_handler_sets _ Hwf).
    - intros k s Hin. apply (In_map_set Js.eqb eqb_eq) in Hin. destruct Hin as [[_ ->] | Hin].
      + constructor.
      + exact (wf_handler_sets _ Hwf _ _ Hin). }
  destruct (map_get Js.eqb eventName hs) as [s|] eqn:Hg.
  - apply page_inv_set_handlers; [exact Hinv | |].
    + apply (NoDup_keys_map_set Js.eqb eqb_eq). exact Hk.
    + intros k s' Hin. apply (In_map_set Js.eqb eqb_eq) in Hin. destruct Hin as [[_ ->] | Hin].
      * apply (NoDup_set_add Js.eqb eqb_eq).
        apply (map_get_In Js.eqb eqb_eq) in Hg. eapply Hs; eauto.
      * eapply Hs; eauto.
  - apply page_inv_set_handlers; assumption.
Qed.

Lemma keeps_unregisterHandler eventName fn : keeps (Bridge.unregisterHandler eventName fn).
Proof.
  intros w Hinv. split; [exists tt; reflexivity|]. pose proof Hinv as [Hwf _].
  unfold Bridge.unregisterHandler, modify. cbn [fst].
  destruct (map_get Js.eqb eventName (handlers w)) as [s|] eqn:Hg; [|exact Hinv].
  cbn zeta.
  destruct (Nat.eqb (List.length (set_delete Js.eqb fn s)) 0).
  - apply page_inv_set_handlers; [exact Hinv | |].
    + apply (NoDup_keys_map_delete Js.eqb). apply Hwf.
    + intros k s' Hin. apply In_map_delete in Hin. exact (wf_handler_sets _ Hwf _ _ Hin).
  - apply page_inv_set_handlers; [exact Hinv | |].
    + apply (NoDup_keys_map_set Js.eqb eqb_eq). apply Hwf.
    + intros k s' Hin. apply (In_map_set Js.eqb eqb_eq) in Hin. destruct Hin as [[_ ->] | Hin].
      * apply (NoDup_set_delete Js.eqb).
        apply (map_get_In Js.eqb eqb_eq) in Hg. exact (wf_handler_sets _ Hwf _ _ Hg).
      * exact (wf_handler_sets _ Hwf _ _ Hin).
Qed.

(** The bridge's set of global observers, for an observer of the
    application *)

Lemma filter_forwarder_app l fn :
  filter (obs_eqb ObsForwarder) (l ++ [ObsVal fn]) = filter (obs_eqb ObsForwarder) l.
Proof. rewrite filter_app. cbn. apply app_nil_r. Qed.

Lemma filter_forwarder_delete l fn :
  filter (obs_eqb ObsForwarder) (set_delete obs_eqb (ObsVal fn) l) =
  filter (obs_eqb ObsForwarder) l.
Proof.
  induction l as [|o l IH]; [reflexivity|].
  cbn [set_delete]. destruct (obs_eqb (ObsVal fn) o) eqn:E.
  - apply obs_eqb_eq in E. subst o. reflexivity.
  - cbn [filter]. rewrite IH. reflexivity.
Qed.

Lemma keeps_registerGlobalHandler fn : keeps (Bridge.registerGlobalHandler (ObsVal fn)).
Proof.
  intros w Hinv. pose proof Hinv as [Hwf [[Hi Hf] Hready]].
  unfold Bridge.registerGlobalHandler.
  destruct (String.eqb (obs_typeof (ObsVal fn)) "function") eqn:Hty;
    (split; [exists tt; reflexivity|]); [|exact Hinv].
  unfold modify. cbn [fst].
  split; [|split; [|exact Hready]].
  - apply wf_set_globalHandlers; [exact Hwf | |].
    + apply (NoDup_set_add obs_eqb obs_eqb_eq). apply Hwf.
    + intros o Hin. apply (In_set_add obs_eqb obs_eqb_eq) in Hin.
      destruct Hin as [-> | Hin]; [apply String.eqb_eq; exact Hty|].
      eapply wf_global_fun; eauto.
  - split; [exact Hi|].
    unfold forwarder_installations in *. cbn [globalHandlers set_globalHandlers].
    unfold set_add. destruct (set_has obs_eqb (ObsVal fn) (globalHandlers w)); [exact Hf|].
    rewrite filter_forwarder_app. exact Hf.
Qed.

Lemma keeps_unregisterGlobalHandler fn : keeps (Bridge.unregisterGlobalHandler (ObsVal fn)).
Proof.
  intros w Hinv. pose proof Hinv as [Hwf [[Hi Hf] Hready]].
  unfold Bridge.unregisterGlobalHandler, bind, read.
  destruct (set_has obs_eqb (ObsVal fn) (globalHandlers w));
    (split; [exists tt; reflexivity|]); [|exact Hinv].
  unfold modify. cbn [fst].
  split; [|split; [|exact Hready]].
  - apply wf_set_globalHandlers; [exact Hwf | |].
    + apply (NoDup_set_delete obs_eqb). apply Hwf.
    + intros o Hin. apply In_set_delete in Hin. eapply wf_global_fun; eauto.
  - split; [exact Hi|].
    unfold forwarder_installations in *. cbn [globalHandlers set_globalHandlers].
    rewrite filter_forwarder_delete. exact Hf.
Qed.

(** Statements, and what only writes to the console *)

Lemma keeps_statement {A} (m : M A) : keeps m -> keeps (statement m).
Proof.
  intros Hm w Hinv. destruct (Hm w Hinv) as [[a Ha] Hw].
  unfold statement, bind, ret. destruct (m w) as [w1 r]. cbn [fst snd] in *. subst r.
  split; [exists tt; reflexivity | exact Hw].
Qed.

Lemma keeps_then {A C} (m : M A) (c : C) : keeps m -> keeps (m ;; ret c).
Proof.
  intros Hm w Hinv. destruct (Hm w Hinv) as [[a Ha] Hw].
  unfold bind, ret. destruct (m w) as [w1 r]. cbn [fst snd] in *. subst r.
  split; [exists c; reflexivity | exact Hw].
Qed.

Lemma keeps_warn {C} msg (c : C) :
  keeps (try_catch (console_warn msg) (fun _ => ret tt) ;; ret c).
Proof.
  intros w Hinv. split; [exists c; reflexivity|].
  eapply page_inv_same; [|exact Hinv]. constructor; reflexivity.
Qed.

Section ReachFacts.
Context {B : Builtins} {H : Host}.

(** The handle and the readiness future *)

Lemma keeps_setInstance instance : keeps (Bridge.setInstance instance).
Proof.
  intros w [Hwf [Hbus Hready]].
  refine (wp_elim (Bridge.setInstance instance) w
            (fun r w' _ => (exists a, r = Returns a) /\ page_inv w') _).
  apply setInstance_spec.
  intros evs w' _ _ _ _ Hr Hp Hps Hh Hg Hs Hi Hc.
  split; [exists tt; reflexivity|].
  split; [|split].
  - destruct Hwf as [W1 W2 W3 W4 W5 W6 W7].
    constructor; rewrite ?Hh, ?Hg, ?Hs, ?Hc; assumption.
  - unfold bus_inv, subscriber_count, forwarder_installations in *.
    rewrite Hg, Hs, Hi. exact Hbus.
  - unfold ready_inv in *. rewrite Hr, Hp.
    destruct (_readyPromise w) as [p|].
    + destruct Hready as [-> _]. reflexivity.
    + rewrite Hready. reflexivity.
Qed.

Lemma keeps_clearInstance : keeps Bridge.clearInstance.
Proof.
  intros w [[W1 W2 W3 W4 W5 W6 W7] [Hbus _]]. split; [exists tt; reflexivity|].
  split; [constructor; assumption|]. split; [exact Hbus | reflexivity].
Qed.

Lemma keeps_send o m p queue : keeps (Bridge.send o m p queue).
Proof.
  intros w Hinv.
  refine (wp_elim (Bridge.send o m p queue) w
            (fun r w' _ => (exists a, r = Returns a) /\ page_inv w') _).
  apply send_spec.
  destruct (unityInstance w) as [[i [call|]]|].
  - cbn zeta. destruct (call o m (serialized p));
      (split; [eexists; reflexivity|]);
      (eapply page_inv_same; [|exact Hinv]); constructor; reflexivity.
  - destruct (queue_enabled queue); (split; [eexists; reflexivity|]); [|exact Hinv].
    eapply page_inv_same; [|exact Hinv]. constructor; reflexivity.
  - destruct (queue_enabled queue); (split; [eexists; reflexivity|]); [|exact Hinv].
    eapply page_inv_same; [|exact Hinv]. constructor; reflexivity.
Qed.

Lemma keeps_whenReady : keeps Bridge.whenReady.
Proof.
  intros w Hinv. pose proof Hinv as [Hwf [Hbus Hready]].
  refine (wp_elim Bridge.whenReady w
            (fun r w' _ => (exists a, r = Returns a) /\ page_inv w') _).
  apply whenReady_spec.
  destruct (unityInstance w) as [inst|].
  - split; [eexists; reflexivity|].
    split; [destruct Hwf; constructor; assumption|]. split; [exact Hbus|].
    unfold ready_inv, promise in *. simpl_world.
    destruct (_readyPromise w) as [p|]; [|exact Hready].
    destruct Hready as [Hr Hp]. split; [exact Hr|].
    rewrite nth_error_app1; [exact Hp|].
    apply nth_error_Some. rewrite Hp. discriminate.
  - destruct (_readyPromise w) as [p|] eqn:Hp;
      (split; [eexists; reflexivity|]); [exact Hinv|].
    split; [destruct Hwf; constructor; assumption|]. split; [exact Hbus|].
    unfold ready_inv, promise. simpl_world.
    split; [reflexivity | apply nth_error_snoc].
Qed.

(** unityApi.js *)

Lemma keeps_api_send payload o m queue : keeps (Api.send payload o m queue).
Proof.
  unfold Api.send. destruct (truthy o && truthy m); [apply keeps_send|].
  intros w Hinv. split; [exists false; reflexivity|].
  eapply page_inv_same; [|exact Hinv]. constructor; reflexivity.
Qed.

Lemma keeps_on event handler : keeps (Api.on event handler).
Proof.
  unfold Api.on. destruct (negb (String.eqb (typeof handler) "function"));
    [apply keeps_warn | apply keeps_then, keeps_registerHandler].
Qed.

Lemma keeps_off event handler : keeps (Api.off event handler).
Proof.
  unfold Api.off. destruct (negb (String.eqb (typeof handler) "function"));
    [|apply keeps_unregisterHandler].
  intros w Hinv. split; [exists tt; reflexivity|].
  eapply page_inv_same; [|exact Hinv]. constructor; reflexivity.
Qed.

Lemma keeps_onMessage handler : keeps (Api.onMessage (ObsVal handler)).
Proof.
  unfold Api.onMessage. destruct (negb (String.eqb (obs_typeof (ObsVal handler)) "function"));
    [apply keeps_warn | apply keeps_then, keeps_registerGlobalHandler].
Qed.

Lemma keeps_offMessage handler : keeps (Api.offMessage (ObsVal handler)).
Proof.
  unfold Api.offMessage. destruct (negb (String.eqb (obs_typeof (ObsVal handler)) "function"));
    [|apply keeps_unregisterGlobalHandler].
  intros w Hinv. split; [exists tt; reflexivity|].
  eapply page_inv_same; [|exact Hinv]. constructor; reflexivity.
Qed.

(** unityEventBus.js *)

Lemma ready_inv_uninstalled w : ready_inv w -> ready_inv (uninstalled w).
Proof.
  unfold uninstalled. destruct (_installed w && Nat.eqb (subscriber_count w) 0); auto.
Qed.

Lemma ready_inv_unsubscribed type handler w :
  ready_inv w -> ready_inv (unsubscribed type handler w).
Proof.
  intros Hready. unfold unsubscribed.
  destruct (map_get Js.eqb type (subscribers w)); [|exact Hready].
  apply ready_inv_uninstalled. exact Hready.
Qed.

Lemma ready_inv_subscribed type handler w :
  ready_inv w -> ready_inv (subscribed type handler w).
Proof.
  intros Hready. unfold subscribed, installed_state.
  destruct (_installed w); exact Hready.
Qed.

Lemma ready_inv_cleared type w : ready_inv w -> ready_inv (cleared type w).
Proof.
  intros Hready. unfold cleared.
  destruct (nullish type); apply ready_inv_uninstalled; exact Hready.
Qed.

Lemma ready_inv_after_subs l w : ready_inv w -> ready_inv (after_subs l w).
Proof.
  revert w. induction l as [|x l IH]; intros w Hready; [exact Hready|].
  cbn [after_subs fold_left]. apply IH.
  destruct x; [exact Hready | apply ready_inv_unsubscribed; exact Hready].
Qed.

Lemma keeps_subscribe type handler : keeps (EventBus.subscribe type (SubVal handler)).
Proof.
  intros w [Hwf [Hbus Hready]]. rewrite subscribe_run.
  destruct (String.eqb (sub_typeof (SubVal handler)) "function");
    (split; [eexists; reflexivity|]); [|exact (conj Hwf (conj Hbus Hready))].
  split; [apply wf_subscribed; [exact Hwf | discriminate]|].
  split; [apply bus_inv_subscribed; assumption | apply ready_inv_subscribed; exact Hready].
Qed.

Lemma keeps_unsubscribe type handler : keeps (EventBus.unsubscribe type handler).
Proof.
  intros w [Hwf [Hbus Hready]]. rewrite unsubscribe_run.
  split; [exists tt; reflexivity|].
  split; [apply wf_unsubscribed; exact Hwf|].
  split; [apply bus_inv_unsubscribed; assumption | apply ready_inv_unsubscribed; exact Hready].
Qed.

Lemma keeps_once type handler : keeps (EventBus.once type handler).
Proof.
  intros w [Hwf [Hbus Hready]]. rewrite once_run.
  destruct (String.eqb (typeof handler) "function");
    (split; [exists tt; reflexivity|]); [|exact (conj Hwf (conj Hbus Hready))].
  assert (wf (set_closures (S (closures w)) w)) as Hwf'.
  { apply wf_set_closures; [exact Hwf | lia]. }
  split; [apply wf_subscribed; [exact Hwf'|]|].
  - intros n t h E. injection E as <- _ _. cbn. lia.
  - split; [apply bus_inv_subscribed; [exact Hwf' | exact Hbus]|].
    apply ready_inv_subscribed. exact Hready.
Qed.

Lemma keeps_clear type : keeps (EventBus.clear type).
Proof.
  intros w [Hwf [Hbus Hready]]. rewrite clear_run.
  split; [exists tt; reflexivity|].
  split; [apply wf_cleared; exact Hwf|].
  split; [apply bus_inv_cleared; assumption | apply ready_inv_cleared; exact Hready].
Qed.

Lemma keeps_getSubscriberCount : keeps EventBus.getSubscriberCount.
Proof. intros w Hinv. split; [eexists; reflexivity | exact Hinv]. Qed.

(** An inbound event *)

Lemma keeps_UnityMessage e : keeps (UnityMessage e).
Proof.
  intros w Hinv. pose proof Hinv as [Hwf [Hbus Hready]].
  destruct e as [[d|]].
  - destruct (is_object d) eqn:Hobj.
    + destruct (nullish (get d "type")) eqn:Hty.
      * rewrite UnityMessage_dropped by (cbn; auto).
        split; [exists tt; reflexivity | exact Hinv].
      * refine (wp_elim (UnityMessage (CustomEvent d)) w
                  (fun r w' _ => (exists a, r = Returns a) /\ page_inv w') _).
        apply UnityMessage_spec; [exact Hobj | exact Hty|].
        intros evs w' Ho _ _. split; [exists tt; reflexivity|].
        eapply page_inv_same; [apply same_registries_only_trace; exact Ho|].
        destruct (dispatched_inv (get d "type") (normalize (get d "payload"))
                    (get d "meta") w Hwf Hbus) as [Hwf' [Hbus' _]].
        split; [exact Hwf'|]. split; [exact Hbus'|].
        rewrite dispatched_eq by exact Hwf.
        destruct (set_has obs_eqb ObsForwarder (globalHandlers w)); [|exact Hready].
        apply ready_inv_after_subs. exact Hready.
    + rewrite UnityMessage_dropped by (cbn; auto).
      split; [exists tt; reflexivity | exact Hinv].
  - rewrite UnityMessage_dropped by exact I.
    split; [exists tt; reflexivity | exact Hinv].
Qed.

Lemma keeps_run_op op : keeps (run_op op).
Proof.
  destruct op; cbn [run_op]; try apply keeps_statement.
  - apply keeps_registerHandler.
  - apply keeps_unregisterHandler.
  - apply keeps_registerGlobalHandler.
  - apply keeps_unregisterGlobalHandler.
  - apply keeps_setInstance.
  - apply keeps_clearInstance.
  - apply keeps_send.
  - apply keeps_whenReady.
  - apply keeps_api_send.
  - apply keeps_on.
  - apply keeps_off.
  - apply keeps_onMessage.
  - apply keeps_offMessage.
  - apply keeps_subscribe.
  - apply keeps_unsubscribe.
  - apply keeps_once.
  - apply keeps_clear.
  - apply keeps_getSubscriberCount.
  - apply keeps_UnityMessage.
Qed.

Lemma keeps_run_ops ops : keeps (run_ops ops).
Proof.
  induction ops as [|op ops IH]; intros w Hinv.
  - split; [exists tt; reflexivity | exact Hinv].
  - destruct (keeps_run_op op w Hinv) as [[a Ha] Hw].
    unfold run_ops. cbn [for_each]. unfold bind.
    destruct (run_op op w) as [w1 r]. cbn [fst snd] in *. subst r.
    apply IH. exact Hw.
Qed.



End ReachFacts.

(* ===================================================================== *)
(** * The forwarder is installed exactly while the bus has subscribers *)
(* ===================================================================== *)

Section BusTheorem.
Context {B : Builtins} {H : Host}.

(** C8.  The bridge holds the forwarder of the event bus exactly once when
  the bus has subscribers and not at all when it has none: this holds in
  every state that the page can reach, and [subscribe], [unsubscribe],
  [once] and [clear] preserve it.  From a bus without subscribers, [subscribe(T, h)] followed
  by the function it returned leaves no forwarder installed; with two types
  subscribed, after unsubscribing one the forwarder is still installed and
  the subscriber of the other is still called. *)
Theorem forwarder_installed_iff_subscribers :
  (* the invariant holds after every history of operations *)
  (forall ops : list Op, bus_inv (fst (run_ops ops initial))) /\
  (* and every operation of the bus preserves it *)
  (forall w, wf w -> bus_inv w ->
     (forall type handler,
         let w' := fst (EventBus.subscribe type (SubVal handler) w) in
         wf w' /\ bus_inv w') /\
     (forall type handler,
         let w' := fst (EventBus.unsubscribe type handler w) in
         wf w' /\ bus_inv w') /\
     (forall type handler,
         let w' := fst (EventBus.once type handler w) in
         wf w' /\ bus_inv w') /\
     (forall type,
         let w' := fst (EventBus.clear type w) in
         wf w' /\ bus_inv w')) /\
  (* subscribe, then the function it returned: no forwarder is left *)
  (forall w type id,
      wf w -> bus_inv w -> subscriber_count w = 0 ->
      let w1 := fst (EventBus.subscribe type (SubVal (VFun id)) w) in
      exists u,
        snd (EventBus.subscribe type (SubVal (VFun id)) w) = Returns u /\
        forwarder_installations w1 = 1 /\
        forwarder_installations (fst (call_unsubscribe u w1)) = 0) /\
  (* two types subscribed, one unsubscribed: the other is still served *)
  (forall w t1 t2 id1 id2 d,
      wf w -> bus_inv w ->
      t1 <> t2 -> nullish t2 = false ->
      is_object d = true -> get d "type" = t2 ->
      let w1 := fst (EventBus.subscribe t1 (SubVal (VFun id1)) w) in
      let w2 := fst (EventBus.subscribe t2 (SubVal (VFun id2)) w1) in
      let w3 := fst (EventBus.unsubscribe t1 (SubVal (VFun id1)) w2) in
      let evs := since w3 (fst (UnityMessage (CustomEvent d) w3)) in
      forwarder_installations w3 = 1 /\
      In (Call (CHost id2) [normalize (get d "payload"); get d "meta"]) evs).
Proof.
  assert (Hsub : forall w type handler, wf w -> bus_inv w ->
            wf (fst (EventBus.subscribe type (SubVal handler) w)) /\
            bus_inv (fst (EventBus.subscribe type (SubVal handler) w))).
  { intros w type handler Hwf Hinv. rewrite subscribe_run.
    destruct (String.eqb (sub_typeof (SubVal handler)) "function"); cbn [fst]; [|auto].
    split; [apply wf_subscribed; [exact Hwf | discriminate]
           | apply bus_inv_subscribed; assumption]. }
  assert (Hunsub : forall w type handler, wf w -> bus_inv w ->
            wf (fst (EventBus.unsubscribe type handler w)) /\
            bus_inv (fst (EventBus.unsubscribe type handler w))).
  { intros w type handler Hwf Hinv. rewrite unsubscribe_run. cbn [fst].
    split; [apply wf_unsubscribed | apply bus_inv_unsubscribed]; assumption. }
  split; [intros ops; apply (keeps_run_ops ops initial page_inv_initial)|].
  split; [|split].
  - intros w Hwf Hinv. split; [|split; [|split]].
    + intros type handler. apply Hsub; assumption.
    + intros type handler. apply Hunsub; assumption.
    + intros type handler. cbn zeta. rewrite once_run.
      destruct (String.eqb (typeof handler) "function"); cbn [fst]; [|auto].
      split.
      * apply wf_subscribed; [apply wf_set_closures; [exact Hwf | lia]|].
        intros n t h [= -> _ _]. cbn. lia.
      * apply bus_inv_subscribed; [apply wf_set_closures; [exact Hwf | lia]|].
        apply bus_inv_set_closures. exact Hinv.
    + intros type. cbn zeta. rewrite clear_run. cbn [fst].
      split; [apply wf_cleared | apply bus_inv_cleared]; assumption.
  - intros w type id Hwf Hinv Hz. cbn zeta.
    destruct (Hsub w type (VFun id) Hwf Hinv) as [Hwf1 Hinv1].
    rewrite subscribe_run in *. cbn [sub_typeof typeof] in *.
    change (String.eqb "function" "function") with true in *. cbn [fst snd] in *.
    eexists. split; [reflexivity|].
    pose proof (subscribed_In type (SubVal (VFun id)) w) as Hin.
    split.
    + destruct Hinv1 as [_ Hf]. apply subscribers_for_count in Hin.
      apply Nat.ltb_lt in Hin. rewrite Hin in Hf. exact Hf.
    + cbn [call_unsubscribe]. rewrite unsubscribe_run. cbn [fst].
      pose proof (bus_inv_unsubscribed type (SubVal (VFun id)) _ Hwf1 Hinv1) as [_ Hf].
      rewrite Hf.
      assert (subscriber_count
                (unsubscribed type (SubVal (VFun id))
                   (subscribed type (SubVal (VFun id)) w)) = 0) as ->; [|reflexivity].
      rewrite subscriber_count_total, subscribers_unsubscribed.
      rewrite subscriber_count_total in Hz.
      unfold subscribed. simpl_world. unfold without.
      rewrite (map_get_set_eq Js.eqb eqb_eq).
      assert (subscribers_for type w = []) as Hnone.
      { unfold subscribers_for.
        destruct (map_get Js.eqb type (subscribers w)) as [s|] eqn:Hg; [|reflexivity].
        apply (map_get_In Js.eqb eqb_eq) in Hg. apply total_ge_set in Hg.
        destruct s; [reflexivity | cbn in Hg; lia]. }
      rewrite Hnone. unfold set_add. cbn [set_has existsb].
      cbn [app set_delete sub_eqb]. rewrite eqb_refl. cbn [List.length Nat.eqb].
      rewrite map_set_set.
      pose proof (total_map_delete Js.eqb type []
                    (map_set Js.eqb type [] (subscribers w))
                    (map_get_set_eq Js.eqb eqb_eq _ _ _)) as Hd.
      destruct (map_get Js.eqb type (subscribers w)) as [s|] eqn:Hg.
      * pose proof (total_map_set_Some Js.eqb type s [] (subscribers w) Hg) as Hs.
        cbn [List.length] in *. lia.
      * pose proof (total_map_set_None Js.eqb type [] (subscribers w) Hg) as Hs.
        cbn [List.length] in *. lia.
  - intros w t1 t2 id1 id2 d Hwf Hinv Hne Hnull Hobj Hty. cbn zeta.
    destruct (Hsub w t1 (VFun id1) Hwf Hinv) as [Hwf1 Hinv1].
    set (w1 := fst (EventBus.subscribe t1 (SubVal (VFun id1)) w)) in *.
    destruct (Hsub w1 t2 (VFun id2) Hwf1 Hinv1) as [Hwf2 Hinv2].
    assert (In (SubVal (VFun id2))
              (subscribers_for t2 (fst (EventBus.subscribe t2 (SubVal (VFun id2)) w1))))
      as Hin2.
    { rewrite subscribe_run. cbn [sub_typeof typeof].
      change (String.eqb "function" "function") with true. cbn [fst].
      apply subscribed_In. }
    set (w2 := fst (EventBus.subscribe t2 (SubVal (VFun id2)) w1)) in *.
    destruct (Hunsub w2 t1 (SubVal (VFun id1)) Hwf2 Hinv2) as [Hwf3 Hinv3].
    assert (In (SubVal (VFun id2))
              (subscribers_for t2 (fst (EventBus.unsubscribe t1 (SubVal (VFun id1)) w2))))
      as Hin3.
    { rewrite unsubscribe_run. cbn [fst].
      rewrite subscribers_for_unsubscribed_ne by congruence. exact Hin2. }
    set (w3 := fst (EventBus.unsubscribe t1 (SubVal (VFun id1)) w2)) in *.
    split.
    + destruct Hinv3 as [_ Hf]. apply subscribers_for_count in Hin3.
      apply Nat.ltb_lt in Hin3. rewrite Hin3 in Hf. exact Hf.
    + assert (nullish (get d "type") = false) as Hn by (rewrite Hty; exact Hnull).
      destruct (UnityMessage_calls d w3 Hobj Hn) as [_ [_ [Hc _]]].
      apply In_calls. rewrite Hc. unfold dispatch_calls. rewrite in_app_iff. right.
      rewrite Hty.
      eapply global_run_In_sub;
        [eapply bus_inv_installed; eauto | exact Hin3 | left; reflexivity].
Qed.
End BusTheorem.

(* ===================================================================== *)
(** * The loader hook *)
(* ===================================================================== *)

(** The attempt whose id is current commits. *)
Lemma current_result_commits h myLoadId instance :
  Loader.loadIdRef h = myLoadId -> Loader.mountedRef h = true ->
  let r := Loader.initialize_chain myLoadId (Returns instance) h in
  snd r = Returns instance /\
  Loader.unityInstance (fst r) = Some instance /\
  Loader.unityInstanceRef (fst r) = Some instance /\
  Loader.loadingState (fst r) = Loader.READY /\
  Loader.loadError (fst r) = Loader.loadError h /\
  Loader.log (fst r) = Loader.log h.
Proof.
  intros Hid Hm. unfold Loader.initialize_chain, Loader.initialize_then.
  rewrite Hid, Nat.eqb_refl, Hm. cbn. auto 10.
Qed.

(** A result is committed only for the current id of a mounted hook. *)
Lemma commit_only_if_current h myLoadId outcome instance :
  snd (Loader.initialize_chain myLoadId outcome h) = Returns instance ->
  Loader.loadIdRef h = myLoadId /\ Loader.mountedRef h = true /\ outcome = Returns instance.
Proof.
  unfold Loader.initialize_chain, Loader.initialize_then.
  destruct outcome as [i|e]; [|discriminate].
  destruct (Nat.eqb_spec (Loader.loadIdRef h) myLoadId) as [Heq|Hne]; cbn; [|discriminate].
  destruct (Loader.mountedRef h); cbn; [|discriminate].
  intros [= ->]. auto.
Qed.

(** What the hook does with the result of a superseded attempt: the instance
    is quit and not exposed, and the error state is entered. *)
Lemma stale_result h myLoadId instance :
  Loader.loadIdRef h <> myLoadId ->
  let r := Loader.initialize_chain myLoadId (Returns instance) h in
  snd r = Throws (Error "Stale Unity load result") /\
  Loader.unityInstance (fst r) = Loader.unityInstance h /\
  Loader.unityInstanceRef (fst r) = Loader.unityInstanceRef h /\
  Loader.createdRef (fst r) = Loader.createdRef h /\
  Loader.loadError (fst r) = Some (Error "Stale Unity load result") /\
  Loader.loadingState (fst r) = Loader.ERROR /\
  (Quit instance <> None -> In (CallQuit (inst_id instance)) (Loader.log (fst r))).
Proof.
  intros Hne. unfold Loader.initialize_chain, Loader.initialize_then.
  apply Nat.eqb_neq in Hne. rewrite Hne. unfold Loader.try_Quit.
  destruct (Quit instance); cbn; repeat (split; [reflexivity|]).
  - intros _. rewrite !in_app_iff. cbn. auto.
  - congruence.
Qed.

(** The [error] event of the loader script records the error and leaves the
    loading state as it is. *)
Lemma script_error_keeps_state h k e is_Error :
  let h' := Loader.onError k e is_Error h in
  Loader.loadingState h' = Loader.loadingState h /\
  Loader.unityInstance h' = Loader.unityInstance h /\
  exists err, Loader.loadError h' = Some err.
Proof.
  unfold Loader.onError, Loader.settle. cbn.
  destruct (existsb _ _); cbn.
  - split; [reflexivity|]. split; [reflexivity|]. eexists. reflexivity.
  - destruct (Loader.awaiting h) as [p|]; [destruct (Nat.eqb p k)|]; cbn;
      (split; [reflexivity|]; split; [reflexivity|]; eexists; reflexivity).
Qed.

(** A rejected creation enters the error state. *)
Lemma creation_error h myLoadId err :
  let r := Loader.initialize_chain myLoadId (Throws err) h in
  snd r = Throws err /\
  Loader.loadingState (fst r) = Loader.ERROR /\
  Loader.loadError (fst r) = Some err /\
  Loader.unityInstance (fst r) = Loader.unityInstance h.
Proof. cbn. auto. Qed.

Section Scenarios.
Context {B : Builtins} {H : Host}.

(** C1.  The run of the hook in which a superseded creation attempt resolves
  late: its instance is quit and is neither exposed by the hook nor handed
  to the bridge, but [loadingState] becomes [ERROR] and [loadError] records
  the error of the stale result.  (The specification says that the stale
  attempt leaves the state alone.) *)
Theorem stale_attempt_reaches_the_state :
  let started := UnityGame.run Sample.overlapping_loads (Loader.initial true true, initial) in
  let page := UnityGame.step (Loader.Created 1 (Returns (Sample.engine 1))) started in
  (* before the first creation resolves: loading, no error, ids 1 and 2 *)
  Loader.loadIdRef (fst started) = 2 /\
  Loader.creating (fst started) = [(1, 0); (2, 1)] /\
  Loader.loadingState (fst started) = Loader.LOADING /\
  Loader.loadError (fst started) = None /\
  (* the first creation resolves, late: its instance is quit and neither
     exposed nor handed to the bridge, *)
  In (CallQuit 1) (Loader.log (fst page)) /\
  Loader.unityInstance (fst page) = None /\
  unityInstance (snd page) = None /\
  (* but the state and the error of the hook have changed *)
  Loader.loadingState (fst page) = Loader.ERROR /\
  Loader.loadError (fst page) = Some (Error "Stale Unity load result").
Proof. cbn. auto 12. Qed.

(** C3.  The run of the hook in which the loader script fails to load: the
  error is recorded in [loadError] and no instance is exposed, but
  [loadingState] stays [LOADING].  (The specification says that the state
  becomes [Error].) *)
Theorem script_failure_keeps_loading :
  let page := UnityGame.run [Loader.Mount; Loader.ScriptFailed 0 (VObj []) false]
                (Loader.initial true true, initial) in
  Loader.loadError (fst page) = Some (Error "Failed to load Unity loader script") /\
  Loader.unityInstance (fst page) = None /\
  unityInstance (snd page) = None /\
  Loader.loadingState (fst page) = Loader.LOADING.
Proof. cbn. auto. Qed.
End Scenarios.

(* ===================================================================== *)
(** * The bridge's registries *)
(* ===================================================================== *)

Lemma map_set_same {V} k (v : V) m :
  map_get Js.eqb k m = Some v -> map_set Js.eqb k v m = m.
Proof.
  induction m as [|[j x] m IH]; cbn; [discriminate|].
  destruct (Js.eqb k j) eqn:E.
  - intros [= ->]. reflexivity.
  - intros G. rewrite (IH G). reflexivity.
Qed.

Lemma set_delete_snoc {K} (keq : K -> K -> bool) x (s : list K) :
  (forall a b, keq a b = true <-> a = b) ->
  ~ In x s -> set_delete keq x (s ++ [x]) = s.
Proof.
  intros keq_eq. induction s as [|y s IH]; cbn; intros Hn.
  - rewrite (proj2 (keq_eq x x) eq_refl). reflexivity.
  - destruct (keq x y) eqn:E.
    + apply keq_eq in E. subst. tauto.
    + rewrite IH by tauto. reflexivity.
Qed.

Lemma set_add_In {K} (keq : K -> K -> bool) x (s : list K) :
  (forall a b, keq a b = true <-> a = b) ->
  In x s -> set_add keq x s = s.
Proof.
  intros keq_eq Hin. unfold set_add.
  rewrite (proj2 (set_has_In keq keq_eq x s) Hin). reflexivity.
Qed.

Lemma set_handlers_same w : set_handlers (handlers w) w = w.
Proof. destruct w; reflexivity. Qed.

Lemma set_globalHandlers_same w : set_globalHandlers (globalHandlers w) w = w.
Proof. destruct w; reflexivity. Qed.

(** [registerHandler] as a function of the state. *)
Lemma registerHandler_run eventName fn w :
  Bridge.registerHandler eventName fn w =
    (set_handlers (map_set Js.eqb eventName
                     (set_add Js.eqb fn (handlers_for eventName w)) (handlers w)) w,
     Returns tt).
Proof.
  unfold Bridge.registerHandler, modify, handlers_for, map_has.
  destruct (map_get Js.eqb eventName (handlers w)) as [s|] eqn:Hg.
  - rewrite Hg. reflexivity.
  - rewrite (map_get_set_eq Js.eqb eqb_eq). rewrite map_set_set. reflexivity.
Qed.

Lemma handlers_for_registerHandler eventName fn w :
  handlers_for eventName (fst (Bridge.registerHandler eventName fn w)) =
    set_add Js.eqb fn (handlers_for eventName w).
Proof.
  rewrite registerHandler_run. cbn [fst]. unfold handlers_for at 1. cbn [handlers set_handlers].
  rewrite (map_get_set_eq Js.eqb eqb_eq). reflexivity.
Qed.

Lemma handlers_for_registerHandler_ne eventName fn other w :
  other <> eventName ->
  handlers_for other (fst (Bridge.registerHandler eventName fn w)) = handlers_for other w.
Proof.
  intros Hne. rewrite registerHandler_run. cbn [fst]. unfold handlers_for. cbn [handlers set_handlers].
  rewrite (map_get_set_ne Js.eqb eqb_eq) by exact Hne. reflexivity.
Qed.

Lemma wf_registerHandler eventName fn w :
  wf w -> wf (fst (Bridge.registerHandler eventName fn w)).
Proof.
  intros Hwf. rewrite registerHandler_run. cbn [fst].
  apply wf_set_handlers; [exact Hwf | |].
  - apply (NoDup_keys_map_set Js.eqb eqb_eq). apply Hwf.
  - intros k s Hin. apply (In_map_set Js.eqb eqb_eq) in Hin. destruct Hin as [[_ ->] | Hin].
    + apply (NoDup_set_add Js.eqb eqb_eq). apply handlers_for_NoDup. exact Hwf.
    + exact (wf_handler_sets _ Hwf _ _ Hin).
Qed.

(** [unregisterHandler]: what is left of the set of the event name. *)
Lemma handlers_for_unregisterHandler eventName fn w :
  wf w ->
  handlers_for eventName (fst (Bridge.unregisterHandler eventName fn w)) =
    set_delete Js.eqb fn (handlers_for eventName w).
Proof.
  intros Hwf. unfold Bridge.unregisterHandler, modify, handlers_for. cbn [fst].
  destruct (map_get Js.eqb eventName (handlers w)) as [s|] eqn:Hg.
  - cbn zeta. destruct (Nat.eqb (List.length (set_delete Js.eqb fn s)) 0) eqn:Hl;
      cbn [handlers set_handlers].
    + rewrite (map_get_delete_eq Js.eqb eqb_eq) by apply Hwf.
      apply Nat.eqb_eq in Hl. destruct (set_delete Js.eqb fn s); [reflexivity | discriminate].
    + rewrite (map_get_set_eq Js.eqb eqb_eq). reflexivity.
  - rewrite Hg. reflexivity.
Qed.

Lemma handlers_for_unregisterHandler_ne eventName fn other w :
  other <> eventName ->
  handlers_for other (fst (Bridge.unregisterHandler eventName fn w)) = handlers_for other w.
Proof.
  intros Hne. unfold Bridge.unregisterHandler, modify, handlers_for. cbn [fst].
  destruct (map_get Js.eqb eventName (handlers w)) as [s|] eqn:Hg; [|reflexivity].
  cbn zeta. destruct (Nat.eqb (List.length (set_delete Js.eqb fn s)) 0);
    cbn [handlers set_handlers].
  - rewrite (map_get_delete_ne Js.eqb eqb_eq) by exact Hne. reflexivity.
  - rewrite (map_get_set_ne Js.eqb eqb_eq) by exact Hne. reflexivity.
Qed.

Lemma wf_unregisterHandler eventName fn w :
  wf w -> wf (fst (Bridge.unregisterHandler eventName fn w)).
Proof.
  intros Hwf. unfold Bridge.unregisterHandler, modify. cbn [fst].
  destruct (map_get Js.eqb eventName (handlers w)) as [s|] eqn:Hg; [|exact Hwf].
  cbn zeta.
  destruct (Nat.eqb (List.length (set_delete Js.eqb fn s)) 0).
  - apply wf_set_handlers; [exact Hwf | |].
    + apply (NoDup_keys_map_delete Js.eqb). apply Hwf.
    + intros k s' Hin. apply In_map_delete in Hin. exact (wf_handler_sets _ Hwf _ _ Hin).
  - apply wf_set_handlers; [exact Hwf | |].
    + apply (NoDup_keys_map_set Js.eqb eqb_eq). apply Hwf.
    + intros k s' Hin. apply (In_map_set Js.eqb eqb_eq) in Hin.
      destruct Hin as [[_ ->] | Hin].
      * apply (NoDup_set_delete Js.eqb).
        apply (map_get_In Js.eqb eqb_eq) in Hg. exact (wf_handler_sets _ Hwf _ _ Hg).
      * exact (wf_handler_sets _ Hwf _ _ Hin).
Qed.

(** Registration followed by removal, for a function that was not
    registered. *)
Lemma register_unregister eventName fn w :
  wf w -> ~ In fn (handlers_for eventName w) ->
  forall e,
    handlers_for e
      (fst (Bridge.unregisterHandler eventName fn
              (fst (Bridge.registerHandler eventName fn w)))) = handlers_for e w.
Proof.
  intros Hwf Hn e.
  destruct (Js.eqb e eventName) eqn:Hne;
    [apply eqb_eq in Hne; subst e | apply eqb_neq in Hne].
  - rewrite handlers_for_unregisterHandler by (apply wf_registerHandler; exact Hwf).
    rewrite handlers_for_registerHandler. unfold set_add.
    destruct (set_has Js.eqb fn (handlers_for eventName w)) eqn:Hh.
    + apply (set_has_In Js.eqb eqb_eq) in Hh. contradiction.
    + apply set_delete_snoc; [exact eqb_eq | exact Hn].
  - rewrite handlers_for_unregisterHandler_ne by exact Hne.
    apply handlers_for_registerHandler_ne. exact Hne.
Qed.

(** The same for a global observer: the state from before comes back. *)
Lemma register_unregister_global fn w :
  typeof fn = "function" -> ~ In (ObsVal fn) (globalHandlers w) ->
  Bridge.registerGlobalHandler (ObsVal fn) w =
    (set_globalHandlers (globalHandlers w ++ [ObsVal fn]) w, Returns tt) /\
  Bridge.unregisterGlobalHandler (ObsVal fn)
    (set_globalHandlers (globalHandlers w ++ [ObsVal fn]) w) = (w, Returns tt).
Proof.
  intros Hty Hn.
  assert (set_has obs_eqb (ObsVal fn) (globalHandlers w) = false) as Hh.
  { destruct (set_has obs_eqb (ObsVal fn) (globalHandlers w)) eqn:E; [|reflexivity].
    apply (set_has_In obs_eqb obs_eqb_eq) in E. contradiction. }
  split.
  - unfold Bridge.registerGlobalHandler, modify. cbn [obs_typeof]. rewrite Hty.
    change (String.eqb "function" "function") with true. cbn iota.
    unfold set_add. rewrite Hh. reflexivity.
  - unfold Bridge.unregisterGlobalHandler, bind, read, modify.
    cbn [globalHandlers set_globalHandlers].
    assert (set_has obs_eqb (ObsVal fn) (globalHandlers w ++ [ObsVal fn]) = true) as ->.
    { apply (set_has_In obs_eqb obs_eqb_eq). apply in_app_iff. right. left. reflexivity. }
    cbn [globalHandlers set_globalHandlers].
    rewrite (set_delete_snoc obs_eqb _ _ obs_eqb_eq Hn).
    destruct w; reflexivity.
Qed.

Section RegistryFacts.
Context {B : Builtins} {H : Host}.

(** How often one event calls a host function as a per-type handler. *)
Lemma handler_called_once d w id :
  wf w -> is_object d = true -> nullish (get d "type") = false ->
  In (VFun id) (handlers_for (get d "type") w) ->
  count (is_call (CHost id) [normalize (get d "payload")])
    (since w (fst (UnityMessage (CustomEvent d) w))) = 1.
Proof.
  intros Hwf Hobj Hty Hin.
  destruct (UnityMessage_calls d w Hobj Hty) as [_ [_ [Hc _]]].
  rewrite count_is_call, Hc. unfold dispatch_calls.
  rewrite ccount_app, ccount_handlers.
  - rewrite ccount_none; [reflexivity|].
    intros c Hc'. apply call_is_false. apply global_run_shape in Hc'.
    intros ->. cbn in Hc'. destruct Hc' as [Hc' | [Hc' _]]; discriminate.
  - apply fun_ids_NoDup. apply handlers_for_NoDup. exact Hwf.
  - apply fun_ids_In. exact Hin.
Qed.

Lemma handler_not_called d w id :
  is_object d = true -> nullish (get d "type") = false ->
  ~ In (VFun id) (handlers_for (get d "type") w) ->
  count (is_call (CHost id) [normalize (get d "payload")])
    (since w (fst (UnityMessage (CustomEvent d) w))) = 0.
Proof.
  intros Hobj Hty Hn.
  destruct (UnityMessage_calls d w Hobj Hty) as [_ [_ [Hc _]]].
  rewrite count_is_call, Hc. unfold dispatch_calls.
  rewrite ccount_app, !ccount_none; [reflexivity | |].
  - intros c Hc'. apply call_is_false. apply global_run_shape in Hc'.
    intros ->. cbn in Hc'. destruct Hc' as [Hc' | [Hc' _]]; discriminate.
  - intros c Hc'. apply call_is_false. apply in_map_iff in Hc'.
    destruct Hc' as [j [<- Hj]]. intros [= ->]. apply Hn. apply fun_ids_In. exact Hj.
Qed.

(** X1.  [registerHandler(eventName, fn)] adds [fn] to the set of
    [eventName], last if it is new and not at all if it is there already,
    and touches no other set; registering again changes nothing, so that an
    event of that type calls a function registered twice once. *)
Theorem registerHandler_registers_once (w : World) (eventName fn : JsVal) :
  let w1 := fst (Bridge.registerHandler eventName fn w) in
  handlers_for eventName w1 = set_add Js.eqb fn (handlers_for eventName w) /\
  (forall other, other <> eventName -> handlers_for other w1 = handlers_for other w) /\
  Bridge.registerHandler eventName fn w1 = (w1, Returns tt) /\
  (forall d id,
      wf w -> fn = VFun id ->
      is_object d = true -> get d "type" = eventName -> nullish eventName = false ->
      let w2 := fst (Bridge.registerHandler eventName fn w1) in
      count (is_call (CHost id) [normalize (get d "payload")])
        (since w2 (fst (UnityMessage (CustomEvent d) w2))) = 1).
Proof.
  cbn zeta.
  assert (Bridge.registerHandler eventName fn (fst (Bridge.registerHandler eventName fn w)) =
          (fst (Bridge.registerHandler eventName fn w), Returns tt)) as Hidem.
  { rewrite (registerHandler_run eventName fn (fst _)).
    rewrite handlers_for_registerHandler.
    rewrite (set_add_In Js.eqb fn (set_add Js.eqb fn _) eqb_eq)
      by (apply (In_set_add Js.eqb eqb_eq); left; reflexivity).
    rewrite map_set_same; [rewrite set_handlers_same; reflexivity|].
    pose proof (handlers_for_registerHandler eventName fn w) as E.
    unfold handlers_for at 1 in E.
    destruct (map_get Js.eqb eventName (handlers (fst (Bridge.registerHandler eventName fn w))))
      as [s|] eqn:Hg; [rewrite E; reflexivity|].
    exfalso. rewrite registerHandler_run in Hg. cbn [fst handlers set_handlers] in Hg.
    rewrite (map_get_set_eq Js.eqb eqb_eq) in Hg. discriminate. }
  split; [apply handlers_for_registerHandler|].
  split; [intros other Hne; apply handlers_for_registerHandler_ne; exact Hne|].
  split; [exact Hidem|].
  intros d id Hwf -> Hobj Hty Hnull. rewrite Hidem. cbn [fst].
  subst eventName. apply handler_called_once; auto.
  - apply wf_registerHandler. exact Hwf.
  - rewrite handlers_for_registerHandler. apply (In_set_add Js.eqb eqb_eq). left. reflexivity.
Qed.

(** X2.  [unregisterHandler(eventName, fn)] takes [fn] out of the set of
    [eventName] and touches no other set; a set that becomes empty is
    removed from the map; after [registerHandler] of a function that was not
    registered, it restores every set; and an event of that type calls the
    function as a handler no more. *)
Theorem unregisterHandler_removes (w : World) (eventName fn : JsVal) :
  wf w ->
  let w1 := fst (Bridge.unregisterHandler eventName fn w) in
  handlers_for eventName w1 = set_delete Js.eqb fn (handlers_for eventName w) /\
  ~ In fn (handlers_for eventName w1) /\
  (forall other, other <> eventName -> handlers_for other w1 = handlers_for other w) /\
  (handlers_for eventName w1 = [] -> map_has Js.eqb eventName (handlers w1) = false) /\
  (~ In fn (handlers_for eventName w) ->
   forall e,
     handlers_for e
       (fst (Bridge.unregisterHandler eventName fn
               (fst (Bridge.registerHandler eventName fn w)))) = handlers_for e w) /\
  (forall d id,
      fn = VFun id ->
      is_object d = true -> get d "type" = eventName -> nullish eventName = false ->
      count (is_call (CHost id) [normalize (get d "payload")])
        (since w1 (fst (UnityMessage (CustomEvent d) w1))) = 0).
Proof.
  intros Hwf. cbn zeta.
  assert (~ In fn (handlers_for eventName (fst (Bridge.unregisterHandler eventName fn w))))
    as Hgone.
  { rewrite handlers_for_unregisterHandler by exact Hwf.
    intros Hin. apply (In_set_delete_iff Js.eqb eqb_eq) in Hin.
    - tauto.
    - apply handlers_for_NoDup. exact Hwf. }
  split; [apply handlers_for_unregisterHandler; exact Hwf|].
  split; [exact Hgone|].
  split; [intros other Hne; apply handlers_for_unregisterHandler_ne; exact Hne|].
  split; [|split].
  - unfold Bridge.unregisterHandler, modify, handlers_for, map_has. cbn [fst].
    destruct (map_get Js.eqb eventName (handlers w)) as [s|] eqn:Hg.
    + cbn zeta. destruct (Nat.eqb (List.length (set_delete Js.eqb fn s)) 0) eqn:Hl;
        cbn [handlers set_handlers].
      * rewrite (map_get_delete_eq Js.eqb eqb_eq) by apply Hwf. reflexivity.
      * rewrite (map_get_set_eq Js.eqb eqb_eq). intros E. rewrite E in Hl. discriminate.
    + rewrite Hg. reflexivity.
  - intros Hn. apply register_unregister; assumption.
  - intros d id -> Hobj Hty Hnull. subst eventName.
    apply handler_not_called; auto.
Qed.
End RegistryFacts.

Section ObserverFacts.
Context {B : Builtins} {H : Host}.

(** X3.  [registerGlobalHandler(fn)] ignores a value that is no function and
    otherwise adds [fn] to [globalHandlers], once; [unregisterGlobalHandler]
    of a value that is not registered changes nothing, and after a
    registration it gives back the state from before. *)
Theorem global_observer_round_trip (w : World) (fn : JsVal) :
  let w1 := fst (Bridge.registerGlobalHandler (ObsVal fn) w) in
  (typeof fn <> "function" -> w1 = w) /\
  (typeof fn = "function" ->
   globalHandlers w1 = set_add obs_eqb (ObsVal fn) (globalHandlers w)) /\
  Bridge.registerGlobalHandler (ObsVal fn) w1 = (w1, Returns tt) /\
  (~ In (ObsVal fn) (globalHandlers w) ->
   Bridge.unregisterGlobalHandler (ObsVal fn) w = (w, Returns tt) /\
   Bridge.unregisterGlobalHandler (ObsVal fn) w1 = (w, Returns tt)).
Proof.
  cbn zeta. unfold Bridge.registerGlobalHandler. cbn [obs_typeof].
  destruct (String.eqb (typeof fn) "function") eqn:Hty.
  - apply String.eqb_eq in Hty. unfold modify. cbn [fst].
    split; [congruence|]. split; [reflexivity|]. split.
    + cbn [globalHandlers set_globalHandlers].
      rewrite (set_add_In obs_eqb _ (set_add obs_eqb _ _) obs_eqb_eq)
        by (apply (In_set_add obs_eqb obs_eqb_eq); left; reflexivity).
      destruct w; reflexivity.
    + intros Hn.
      assert (set_has obs_eqb (ObsVal fn) (globalHandlers w) = false) as Hh.
      { destruct (set_has obs_eqb (ObsVal fn) (globalHandlers w)) eqn:E; [|reflexivity].
        apply (set_has_In obs_eqb obs_eqb_eq) in E. contradiction. }
      unfold Bridge.unregisterGlobalHandler, bind, read, modify.
      rewrite Hh. split; [reflexivity|].
      cbn [globalHandlers set_globalHandlers]. unfold set_add. rewrite Hh.
      assert (set_has obs_eqb (ObsVal fn) (globalHandlers w ++ [ObsVal fn]) = true) as ->.
      { apply (set_has_In obs_eqb obs_eqb_eq). apply in_app_iff. right. left. reflexivity. }
      cbn [globalHandlers set_globalHandlers].
      rewrite (set_delete_snoc obs_eqb _ _ obs_eqb_eq Hn).
      destruct w; reflexivity.
  - apply String.eqb_neq in Hty. cbn [fst ret].
    split; [reflexivity|]. split; [congruence|]. split; [reflexivity|].
    intros Hn.
    assert (set_has obs_eqb (ObsVal fn) (globalHandlers w) = false) as Hh.
    { destruct (set_has obs_eqb (ObsVal fn) (globalHandlers w)) eqn:E; [|reflexivity].
      apply (set_has_In obs_eqb obs_eqb_eq) in E. contradiction. }
    unfold Bridge.unregisterGlobalHandler, bind, read. rewrite Hh. auto.
Qed.
End ObserverFacts.

(* ===================================================================== *)
(** * The handle and the queue: edge cases *)
(* ===================================================================== *)

Section HandleFacts.
Context {B : Builtins} {H : Host}.

Lemma flushed_nil instance : flushed instance [] = [].
Proof. unfold flushed. destruct instance as [i|]; [destruct (SendMessage i)|]; reflexivity. Qed.

(** X4.  [clearInstance()] drops the handle and the queue: what was queued
    before it is delivered to no later instance, and a [send] after it is
    queued anew. *)
Theorem clearInstance_discards_the_queue (w : World) (inst : Instance) (o m p : JsVal) :
  let w1 := fst (Bridge.clearInstance w) in
  let w2 := fst (Bridge.send o m p VUndefined w1) in
  let w3 := fst (Bridge.setInstance (Some inst) w1) in
  snd (Bridge.clearInstance w) = Returns tt /\
  unityInstance w1 = None /\
  queuedSends w1 = [] /\
  since w w1 = [] /\
  deliveries (since w1 w3) = [] /\
  snd (Bridge.send o m p VUndefined w1) = Returns true /\
  queuedSends w2 = [{| objectName := o; methodName := m; payload := p |}].
Proof.
  cbn zeta.
  assert (since w (fst (Bridge.clearInstance w)) = []) as Hs
    by (apply since_app; rewrite app_nil_r; reflexivity).
  split; [reflexivity|]. split; [reflexivity|]. split; [reflexivity|].
  split; [exact Hs|]. split.
  - refine (wp_elim (Bridge.setInstance (Some inst)) (fst (Bridge.clearInstance w))
              (fun _ _ evs => deliveries evs = []) _).
    apply setInstance_spec. intros evs w' Hd _ _ _ _ _ _ _ _ _ _ _.
    rewrite Hd. apply flushed_nil.
  - refine (wp_elim (Bridge.send o m p VUndefined) (fst (Bridge.clearInstance w))
              (fun r w' _ => r = Returns true /\
                 queuedSends w' = [{| objectName := o; methodName := m; payload := p |}]) _).
    apply send_spec. cbn. auto.
Qed.

(** X5.  A handle without a [SendMessage] function: [setInstance] empties
    the queue and delivers nothing, and a [send] after it is queued again
    (or refused, with queuing off), as if there were no handle. *)
Theorem handle_without_SendMessage_loses_the_queue
  (w : World) (inst : Instance) (o m p : JsVal) :
  SendMessage inst = None ->
  let w1 := fst (Bridge.setInstance (Some inst) w) in
  snd (Bridge.setInstance (Some inst) w) = Returns tt /\
  unityInstance w1 = Some inst /\
  deliveries (since w w1) = [] /\
  queuedSends w1 = [] /\
  Bridge.send o m p VUndefined w1 =
    (set_queuedSends [{| objectName := o; methodName := m; payload := p |}] w1,
     Returns true) /\
  Bridge.send o m p (VBool false) w1 = (w1, Returns false).
Proof.
  intros Hs. cbn zeta.
  refine (wp_elim (Bridge.setInstance (Some inst)) w
            (fun r w' evs =>
               r = Returns tt /\ unityInstance w' = Some inst /\ deliveries evs = [] /\
               queuedSends w' = [] /\
               Bridge.send o m p VUndefined w' =
                 (set_queuedSends [{| objectName := o; methodName := m; payload := p |}] w',
                  Returns true) /\
               Bridge.send o m p (VBool false) w' = (w', Returns false)) _).
  apply setInstance_spec. intros evs w' Hd _ Hi Hq _ _ _ _ _ _ _ _.
  split; [reflexivity|]. split; [exact Hi|]. split.
  { rewrite Hd. unfold flushed. rewrite Hs. reflexivity. }
  split; [exact Hq|]. split.
  - apply wp_run. apply send_spec. rewrite Hi. destruct inst as [i sm qt].
    cbn in Hs. subst sm. cbn. rewrite Hq. auto.
  - apply wp_run. apply send_spec. rewrite Hi. destruct inst as [i sm qt].
    cbn in Hs. subst sm. cbn. auto.
Qed.

(** X6.  [setInstance(null)]: the queue stays as it is and nothing is
    delivered, but a pending readiness future is fulfilled, with [null],
    and forgotten: the next [whenReady()] makes a new one. *)
Theorem setInstance_null_resolves_the_future (w : World) (p : nat) :
  ready_inv w ->
  _readyPromise w = Some p ->
  let w1 := fst (Bridge.setInstance None w) in
  let w2 := fst (Bridge.whenReady w1) in
  snd (Bridge.setInstance None w) = Returns tt /\
  unityInstance w1 = None /\
  queuedSends w1 = queuedSends w /\
  since w w1 = [] /\
  promise p w1 = Some (Fulfilled None) /\
  _readyPromise w1 = None /\
  exists q, snd (Bridge.whenReady w1) = Returns q /\ q <> p /\
            promise q w2 = Some Pending /\ promise p w2 = Some (Fulfilled None).
Proof.
  intros Hinv Hp. cbn zeta. unfold ready_inv in Hinv. rewrite Hp in Hinv.
  destruct Hinv as [Hr Hpend].
  refine (wp_elim (Bridge.setInstance None) w
            (fun r w' evs =>
               r = Returns tt /\ unityInstance w' = None /\
               queuedSends w' = queuedSends w /\ evs = [] /\
               promise p w' = Some (Fulfilled None) /\ _readyPromise w' = None /\
               exists q, snd (Bridge.whenReady w') = Returns q /\ q <> p /\
                         promise q (fst (Bridge.whenReady w')) = Some Pending /\
                         promise p (fst (Bridge.whenReady w')) = Some (Fulfilled None)) _).
  unfold Bridge.setInstance. wp_steps. rewrite Hr. unfold Bridge.resolve_promise. wp_steps.
  split; [reflexivity|]. split; [reflexivity|]. split; [reflexivity|]. split; [reflexivity|].
  assert (nth_error (Bridge.settle p None (promises w)) p = Some (Fulfilled None)) as Hf
    by (apply settle_pending; exact Hpend).
  split; [exact Hf|]. split; [reflexivity|].
  match goal with |- exists q, snd (Bridge.whenReady ?x) = _ /\ _ =>
    set (w1 := x);
    refine (wp_elim Bridge.whenReady w1
              (fun r w2 _ => exists q, r = Returns q /\ q <> p /\
                   promise q w2 = Some Pending /\ promise p w2 = Some (Fulfilled None)) _)
  end.
  apply whenReady_spec. subst w1. simpl_world. cbn zeta.
  exists (List.length (Bridge.settle p None (promises w))).
  split; [reflexivity|].
  assert (p < List.length (promises w)) as Hlt
    by (apply nth_error_Some; unfold promise in Hpend; rewrite Hpend; discriminate).
  rewrite settle_length. split; [lia|].
  unfold promise. simpl_world. split.
  - rewrite <- (settle_length p None (promises w)). apply nth_error_snoc.
  - rewrite nth_error_app1 by (rewrite settle_length; exact Hlt). exact Hf.
Qed.
End HandleFacts.

(* ===================================================================== *)
(** * What the bus and the dispatch leave alone *)
(* ===================================================================== *)

Lemma same_outbound_refl w : same_outbound w w.
Proof. constructor; reflexivity. Qed.

Lemma same_outbound_trans a b c : same_outbound a b -> same_outbound b c -> same_outbound a c.
Proof.
  intros [A1 A2 A3 A4 A5] [B1 B2 B3 B4 B5].
  constructor; congruence.
Qed.

Lemma bus_step_refl w : bus_step w w.
Proof. constructor; [reflexivity | reflexivity | apply same_outbound_refl]. Qed.

Lemma bus_step_trans a b c : bus_step a b -> bus_step b c -> bus_step a c.
Proof.
  intros [A1 A2 A3] [B1 B2 B3].
  constructor; [congruence | congruence | eapply same_outbound_trans; eauto].
Qed.

Lemma bus_step_only_trace w w' : only_trace w w' -> bus_step w w'.
Proof. intros ->. constructor; [reflexivity | reflexivity | constructor; reflexivity]. Qed.

Lemma bus_step_set_subscribers w subs : bus_step w (set_subscribers subs w).
Proof. constructor; [reflexivity | reflexivity | constructor; reflexivity]. Qed.

Lemma bus_step_set_closures w n : bus_step w (set_closures n w).
Proof. constructor; [reflexivity | reflexivity | constructor; reflexivity]. Qed.

Lemma host_observers_add l :
  filter (fun o => negb (obs_eqb ObsForwarder o)) (set_add obs_eqb ObsForwarder l) =
  filter (fun o => negb (obs_eqb ObsForwarder o)) l.
Proof.
  unfold set_add. destruct (set_has obs_eqb ObsForwarder l); [reflexivity|].
  rewrite filter_app. cbn. apply app_nil_r.
Qed.

Lemma host_observers_delete l :
  filter (fun o => negb (obs_eqb ObsForwarder o)) (set_delete obs_eqb ObsForwarder l) =
  filter (fun o => negb (obs_eqb ObsForwarder o)) l.
Proof.
  induction l as [|o l IH]; [reflexivity|].
  destruct o as [v|]; cbn; [f_equal; exact IH | reflexivity].
Qed.

Lemma bus_step_installed_state w : bus_step w (installed_state w).
Proof.
  unfold installed_state. destruct (_installed w); [apply bus_step_refl|].
  constructor; [reflexivity | | constructor; reflexivity].
  unfold host_observers. cbn [globalHandlers set_installed set_globalHandlers].
  apply host_observers_add.
Qed.

Lemma bus_step_uninstalled w : bus_step w (uninstalled w).
Proof.
  unfold uninstalled.
  destruct (_installed w && Nat.eqb (subscriber_count w) 0); [|apply bus_step_refl].
  constructor; [reflexivity | | constructor; reflexivity].
  unfold host_observers. cbn [globalHandlers set_installed set_globalHandlers].
  apply host_observers_delete.
Qed.

Lemma bus_step_unsubscribed type handler w : bus_step w (unsubscribed type handler w).
Proof.
  unfold unsubscribed. destruct (map_get Js.eqb type (subscribers w)); [|apply bus_step_refl].
  eapply bus_step_trans; [|apply bus_step_uninstalled]. apply bus_step_set_subscribers.
Qed.

Lemma bus_step_subscribed type handler w : bus_step w (subscribed type handler w).
Proof.
  unfold subscribed.
  eapply bus_step_trans; [apply bus_step_installed_state|]. apply bus_step_set_subscribers.
Qed.

Lemma bus_step_cleared type w : bus_step w (cleared type w).
Proof.
  unfold cleared. destruct (nullish type);
    (eapply bus_step_trans; [|apply bus_step_uninstalled]; apply bus_step_set_subscribers).
Qed.

Lemma bus_step_after_subs l w : bus_step w (after_subs l w).
Proof.
  revert w. induction l as [|x l IH]; intros w; [apply bus_step_refl|].
  cbn [after_subs fold_left]. eapply bus_step_trans; [|apply IH].
  destruct x; [apply bus_step_refl | apply bus_step_unsubscribed].
Qed.

Lemma bus_step_global_run type payload meta l w :
  bus_step w (fst (global_run type payload meta l w)).
Proof.
  revert w. induction l as [|o l IH]; intros w; [apply bus_step_refl|].
  cbn [global_run fst]. eapply bus_step_trans; [|apply IH].
  destruct o; [apply bus_step_refl | apply bus_step_after_subs].
Qed.

Lemma deliveries_inbound evs : Forall inbound_event evs -> deliveries evs = [].
Proof.
  induction 1 as [|ev evs Hev _ IH]; [reflexivity|].
  destruct ev; cbn in *; try contradiction; exact IH.
Qed.

Lemma loop_event_inbound evs : Forall loop_event evs -> Forall inbound_event evs.
Proof.
  apply Forall_impl. intros ev. destruct ev; cbn; auto.
Qed.

Section LeaveAlone.
Context {B : Builtins} {H : Host}.

(** The events of one dispatch. *)
Lemma UnityMessage_events d w :
  is_object d = true ->
  nullish (get d "type") = false ->
  Forall inbound_event (since w (fst (UnityMessage (CustomEvent d) w))).
Proof.
  intros Hobj Hty.
  refine (wp_elim (UnityMessage (CustomEvent d)) w (fun _ _ evs => Forall inbound_event evs) _).
  unfold UnityMessage, Bridge._windowUnityMessageListener, CustomEvent.
  cbn [Bridge.detail].
  assert (negb (truthy d) || negb (String.eqb (typeof d) "object") = false) as ->
    by (destruct d; try discriminate; reflexivity).
  assert (Js.eqb (get d "type") VUndefined || Js.eqb (get d "type") VNull = false) as ->
    by (destruct (get d "type"); try discriminate; reflexivity).
  assert (truthy d = true) as -> by (destruct d; try discriminate; reflexivity).
  wp_step.
  assert (G : forall Q',
             (forall r w1 evs1, Forall inbound_event evs1 -> Q' (Returns r) w1 evs1) ->
             wp match get d "payload" with
                | VStr text =>
                    try_catch (emit (CallJsonParse text) ;; (fun w => (w, JSON_parse text)))
                              (fun _ => ret (get d "payload"))
                | _ => ret (get d "payload")
                end w Q').
  { intros Q' HQ'.
    destruct (get d "payload") as [| | | |text| | |];
      try (wp_steps; apply HQ'; constructor).
    wp_steps. destruct (JSON_parse text); wp_steps;
      apply HQ'; repeat constructor. }
  apply G. clear G. intros r w1 evs1 H1. cbn beta iota.
  wp_step. apply emitToHandlers_spec. intros evs2 w2 _ H2 _. cbn beta iota.
  apply emitToGlobalHandlers_spec. intros evs3 w3 _ H3 _.
  apply Forall_app. split; [exact H1|].
  apply Forall_app. split; apply loop_event_inbound; assumption.
Qed.

(** X7.  The delivery of an inbound event, whatever the event: it completes
    normally, it calls functions and writes to the console but never calls
    [SendMessage], and it leaves the handle, the queue and the readiness
    future as they are, and also the handlers and observers that the
    application registered, those that threw included. *)
Theorem inbound_events_leave_the_rest_alone (w : World) (e : Bridge.DomEvent) :
  let w' := fst (UnityMessage e w) in
  snd (UnityMessage e w) = Returns tt /\
  Forall inbound_event (since w w') /\
  deliveries (since w w') = [] /\
  unityInstance w' = unityInstance w /\
  queuedSends w' = queuedSends w /\
  promises w' = promises w /\
  handlers w' = handlers w /\
  host_observers w' = host_observers w.
Proof.
  cbn zeta.
  assert (Hdrop : UnityMessage e w = (w, Returns tt) ->
            snd (UnityMessage e w) = Returns tt /\
            Forall inbound_event (since w (fst (UnityMessage e w))) /\
            deliveries (since w (fst (UnityMessage e w))) = [] /\
            unityInstance (fst (UnityMessage e w)) = unityInstance w /\
            queuedSends (fst (UnityMessage e w)) = queuedSends w /\
            promises (fst (UnityMessage e w)) = promises w /\
            handlers (fst (UnityMessage e w)) = handlers w /\
            host_observers (fst (UnityMessage e w)) = host_observers w).
  { intros ->. cbn [fst snd]. rewrite since_refl. repeat split; constructor. }
  destruct e as [[d|]]; [|apply Hdrop, UnityMessage_dropped; exact I].
  destruct (is_object d) eqn:Hobj;
    [|apply Hdrop, UnityMessage_dropped; cbn; auto].
  destruct (nullish (get d "type")) eqn:Hty;
    [apply Hdrop, UnityMessage_dropped; cbn; auto|].
  clear Hdrop.
  destruct (UnityMessage_calls d w Hobj Hty) as [Hr [Ho _]].
  pose proof (UnityMessage_events d w Hobj Hty) as Hev.
  assert (bus_step w (fst (UnityMessage (CustomEvent d) w))) as [Hh Hobs [Hi Hq _ _ Hp]].
  { eapply bus_step_trans; [|apply bus_step_only_trace; exact Ho].
    apply bus_step_global_run. }
  change {| Bridge.detail := Some d |} with (CustomEvent d).
  split; [exact Hr|]. split; [exact Hev|]. split; [apply deliveries_inbound; exact Hev|].
  auto.
Qed.

(** X8.  The order of the calls of one event: the functions registered for
    its type, in the order of their registration, each with the normalized
    payload; then the global observers in the order of their registration,
    each with type, payload and meta, where the forwarder of the bus, at its
    place, calls the subscribers of the type in the order of their
    subscription with payload and meta. *)
Theorem dispatch_order (w : World) (d : JsVal) :
  wf w ->
  is_object d = true ->
  nullish (get d "type") = false ->
  let type := get d "type" in
  let norm := normalize (get d "payload") in
  let meta := get d "meta" in
  calls (since w (fst (UnityMessage (CustomEvent d) w))) =
    map (fun id => (CHost id, [norm])) (fun_ids (handlers_for type w)) ++
    flat_map (fun o =>
                match o with
                | ObsVal (VFun id) => [(CHost id, [type; norm; meta])]
                | ObsVal _ => []
                | ObsForwarder =>
                    (CForwarder, [type; norm; meta]) ::
                    flat_map (sub_calls norm meta) (subscribers_for type w)
                end) (globalHandlers w).
Proof.
  intros Hwf Hobj Hty. cbn zeta.
  destruct (UnityMessage_calls d w Hobj Hty) as [_ [_ [Hc _]]].
  rewrite Hc. unfold dispatch_calls.
  rewrite global_run_NoDup by apply Hwf. reflexivity.
Qed.

(** X9.  The operations of the event bus ([subscribe], [unsubscribe],
    [once], [clear]) complete normally and silently, and change nothing but
    the bus's own subscribers and the installation of its own forwarder:
    the handlers and observers that the application registered with the
    bridge, the handle, the queue and the readiness future stay as they
    are. *)
Theorem bus_leaves_the_bridge_alone (w : World) (type handler : JsVal) (x : Subscriber) :
  (let r := EventBus.subscribe type (SubVal handler) w in
   (exists u, snd r = Returns u) /\ bus_step w (fst r) /\ since w (fst r) = []) /\
  (let r := EventBus.unsubscribe type x w in
   snd r = Returns tt /\ bus_step w (fst r) /\ since w (fst r) = []) /\
  (let r := EventBus.once type handler w in
   snd r = Returns tt /\ bus_step w (fst r) /\ since w (fst r) = []) /\
  (let r := EventBus.clear type w in
   snd r = Returns tt /\ bus_step w (fst r) /\ since w (fst r) = []).
Proof.
  cbn zeta. split; [|split; [|split]].
  - refine (wp_elim (EventBus.subscribe type (SubVal handler)) w
              (fun r w' evs => (exists u, r = Returns u) /\ bus_step w w' /\ evs = []) _).
    destruct (String.eqb (sub_typeof (SubVal handler)) "function") eqn:E.
    + apply subscribe_spec; [apply String.eqb_eq; exact E|].
      split; [eexists; reflexivity|]. split; [apply bus_step_subscribed | reflexivity].
    + unfold EventBus.subscribe. rewrite E. cbn [negb]. wp_steps.
      split; [eexists; reflexivity|]. split; [apply bus_step_refl | reflexivity].
  - refine (wp_elim (EventBus.unsubscribe type x) w
              (fun r w' evs => r = Returns tt /\ bus_step w w' /\ evs = []) _).
    apply unsubscribe_spec.
    split; [reflexivity|]. split; [apply bus_step_unsubscribed | reflexivity].
  - refine (wp_elim (EventBus.once type handler) w
              (fun r w' evs => r = Returns tt /\ bus_step w w' /\ evs = []) _).
    destruct (String.eqb (typeof handler) "function") eqn:E.
    + apply once_spec; [apply String.eqb_eq; exact E|].
      split; [reflexivity|]. split; [|reflexivity].
      eapply bus_step_trans; [|apply bus_step_subscribed]. apply bus_step_set_closures.
    + unfold EventBus.once. rewrite E. cbn [negb]. wp_steps.
      split; [reflexivity|]. split; [apply bus_step_refl | reflexivity].
  - refine (wp_elim (EventBus.clear type) w
              (fun r w' evs => r = Returns tt /\ bus_step w w' /\ evs = []) _).
    apply clear_spec.
    split; [reflexivity|]. split; [apply bus_step_cleared | reflexivity].
Qed.
End LeaveAlone.

(* ===================================================================== *)
(** * unityApi.js: validation and the functions it returns *)
(* ===================================================================== *)

Section ApiFacts.
Context {B : Builtins} {H : Host}.



(** X11.  A handler that is no function is refused everywhere but in
    [unityBridge.registerHandler]: [on], [off], [onMessage] and [offMessage]
    warn and change nothing else, [subscribe], [once] and
    [registerGlobalHandler] change nothing at all; the function that [on],
    [onMessage] and [subscribe] return in this case does nothing. *)
Theorem non_functions_are_refused (w : World) (event handler : JsVal) :
  typeof handler <> "function" ->
  Api.on event handler w =
    (warned "[unity.api] on: handler must be a function" w, Returns Noop) /\
  Api.off event handler w =
    (warned "[unity.api] off: handler must be a function" w, Returns tt) /\
  Api.onMessage (ObsVal handler) w =
    (warned "[unity.api] onMessage: handler must be a function" w, Returns Noop) /\
  Api.offMessage (ObsVal handler) w =
    (warned "[unity.api] offMessage: handler must be a function" w, Returns tt) /\
  Bridge.registerGlobalHandler (ObsVal handler) w = (w, Returns tt) /\
  EventBus.subscribe event (SubVal handler) w = (w, Returns Noop) /\
  EventBus.once event handler w = (w, Returns tt) /\
  (forall w', call_unsubscribe Noop w' = (w', Returns tt)) /\
  In handler (handlers_for event (fst (Bridge.registerHandler event handler w))).
Proof.
  intros Hty. apply String.eqb_neq in Hty.
  unfold Api.on, Api.off, Api.onMessage, Api.offMessage, Bridge.registerGlobalHandler,
    EventBus.subscribe, EventBus.once.
  cbn [obs_typeof sub_typeof]. rewrite Hty. cbn [negb].
  repeat (split; [reflexivity|]).
  rewrite handlers_for_registerHandler. apply (In_set_add Js.eqb eqb_eq). left. reflexivity.
Qed.

Lemma on_run event handler w :
  typeof handler = "function" ->
  Api.on event handler w =
    (fst (Bridge.registerHandler event handler w), Returns (OffHandler event handler)).
Proof.
  intros Hty. unfold Api.on. rewrite Hty.
  change (negb (String.eqb "function" "function")) with false. cbn iota.
  unfold bind. rewrite registerHandler_run. reflexivity.
Qed.

Lemma off_run event handler w :
  typeof handler = "function" ->
  Api.off event handler w = Bridge.unregisterHandler event handler w.
Proof.
  intros Hty. unfold Api.off. rewrite Hty. reflexivity.
Qed.

Lemma onMessage_run handler w :
  typeof handler = "function" ->
  Api.onMessage (ObsVal handler) w =
    (fst (Bridge.registerGlobalHandler (ObsVal handler) w),
     Returns (OffGlobal (ObsVal handler))).
Proof.
  intros Hty. unfold Api.onMessage, Bridge.registerGlobalHandler. cbn [obs_typeof].
  rewrite Hty. reflexivity.
Qed.

Lemma offMessage_run handler w :
  typeof handler = "function" ->
  Api.offMessage (ObsVal handler) w = Bridge.unregisterGlobalHandler (ObsVal handler) w.
Proof.
  intros Hty. unfold Api.offMessage. cbn [obs_typeof]. rewrite Hty. reflexivity.
Qed.

(** X13.  The function that [on(event, handler)] returns does what
    [off(event, handler)] does: it removes the handler again, and with it a
    set that it leaves empty; calling it once more changes nothing.  The
    function that [onMessage(handler)] returns gives back the state from
    before the registration. *)
Theorem api_unsubscribe_undoes_the_registration (w : World) (event handler : JsVal) :
  typeof handler = "function" ->
  wf w ->
  (~ In handler (handlers_for event w) ->
   exists u,
     snd (Api.on event handler w) = Returns u /\
     let w1 := fst (Api.on event handler w) in
     let w2 := fst (call_unsubscribe u w1) in
     In handler (handlers_for event w1) /\
     call_unsubscribe u w1 = Api.off event handler w1 /\
     (forall e, handlers_for e w2 = handlers_for e w) /\
     (forall e, handlers_for e (fst (call_unsubscribe u w2)) = handlers_for e w2)) /\
  (~ In (ObsVal handler) (globalHandlers w) ->
   exists u,
     snd (Api.onMessage (ObsVal handler) w) = Returns u /\
     let w1 := fst (Api.onMessage (ObsVal handler) w) in
     In (ObsVal handler) (globalHandlers w1) /\
     call_unsubscribe u w1 = Api.offMessage (ObsVal handler) w1 /\
     call_unsubscribe u w1 = (w, Returns tt)).
Proof.
  intros Hty Hwf. split.
  - intros Hn. rewrite on_run by exact Hty. cbn [fst snd].
    exists (OffHandler event handler). split; [reflexivity|].
    cbn zeta. cbn [call_unsubscribe]. rewrite off_run by exact Hty.
    set (w1 := fst (Bridge.registerHandler event handler w)).
    assert (wf w1) as Hwf1 by (apply wf_registerHandler; exact Hwf).
    assert (forall e, handlers_for e (fst (Bridge.unregisterHandler event handler w1)) =
                      handlers_for e w) as Hback
      by (intros e; apply register_unregister; assumption).
    split.
    { unfold w1. rewrite handlers_for_registerHandler.
      apply (In_set_add Js.eqb eqb_eq). left. reflexivity. }
    split; [reflexivity|]. split; [exact Hback|].
    intros e. set (w2 := fst (Bridge.unregisterHandler event handler w1)).
    assert (wf w2) as Hwf2 by (apply wf_unregisterHandler; exact Hwf1).
    destruct (Js.eqb e event) eqn:Hne;
      [apply eqb_eq in Hne; subst e | apply eqb_neq in Hne].
    + rewrite handlers_for_unregisterHandler by exact Hwf2.
      apply (set_delete_not_In Js.eqb eqb_eq).
      unfold w2. rewrite Hback. exact Hn.
    + apply handlers_for_unregisterHandler_ne. exact Hne.
  - intros Hn. rewrite onMessage_run by exact Hty.
    destruct (register_unregister_global handler w Hty Hn) as [Hreg Hun].
    rewrite Hreg. cbn [fst snd].
    exists (OffGlobal (ObsVal handler)). split; [reflexivity|].
    cbn zeta. cbn [call_unsubscribe]. rewrite offMessage_run by exact Hty.
    split.
    { cbn [globalHandlers set_globalHandlers]. apply in_app_iff. right. left. reflexivity. }
    split; [reflexivity | exact Hun].
Qed.
End ApiFacts.

(* ===================================================================== *)
(** * A value that is no function, registered with the bridge *)
(* ===================================================================== *)

Section NonFunction.
Context {B : Builtins} {H : Host}.

(** The listener, up to the two dispatch loops. *)
Lemma UnityMessage_loops d w Q :
  is_object d = true ->
  nullish (get d "type") = false ->
  (forall w1 evs1,
      only_trace w w1 ->
      wp (Bridge.emitToHandlers (get d "type") (normalize (get d "payload")) ;;
          Bridge.emitToGlobalHandlers EventBus._globalForwarder
            (get d "type") (normalize (get d "payload")) (get d "meta"))
         w1 (fun r w' e => Q r w' (evs1 ++ e))) ->
  wp (UnityMessage (CustomEvent d)) w Q.
Proof.
  intros Hobj Hty HQ.
  unfold UnityMessage, Bridge._windowUnityMessageListener, CustomEvent.
  cbn [Bridge.detail].
  assert (negb (truthy d) || negb (String.eqb (typeof d) "object") = false) as ->
    by (destruct d; try discriminate; reflexivity).
  assert (Js.eqb (get d "type") VUndefined || Js.eqb (get d "type") VNull = false) as ->
    by (destruct (get d "type"); try discriminate; reflexivity).
  assert (truthy d = true) as -> by (destruct d; try discriminate; reflexivity).
  wp_step.
  assert (G : forall Q',
             (forall w1 evs1, only_trace w w1 ->
                Q' (Returns (normalize (get d "payload"))) w1 evs1) ->
             wp match get d "payload" with
                | VStr text =>
                    try_catch (emit (CallJsonParse text) ;; (fun w => (w, JSON_parse text)))
                              (fun _ => ret (get d "payload"))
                | _ => ret (get d "payload")
                end w Q').
  { intros Q' HQ'.
    destruct (get d "payload") as [| | | |text| | |];
      try (wp_steps; apply HQ'; apply only_trace_refl).
    unfold normalize in HQ'.
    wp_steps. destruct (JSON_parse text); wp_steps; apply HQ'; reflexivity. }
  apply G. clear G. intros w1 evs1 Ho1. cbn beta iota.
  apply HQ. exact Ho1.
Qed.

Lemma emitToHandlers_TypeError eventName payload v w :
  In v (handlers_for eventName w) ->
  typeof v <> "function" ->
  wp (Bridge.emitToHandlers eventName payload) w
     (fun r w' evs =>
        r = Returns tt /\ only_trace w w' /\
        In (ConsoleError "unityBridge handler error" TypeError) evs).
Proof.
  intros Hin Hty. unfold Bridge.emitToHandlers. wp_steps. unfold handlers_for in Hin.
  destruct (map_get Js.eqb eventName (handlers w)) as [s|]; [|destruct Hin].
  apply (wp_for_each (fun rest w' evs =>
           only_trace w w' /\
           (In v rest \/ In (ConsoleError "unityBridge handler error" TypeError) evs))).
  - split; [apply only_trace_refl | left; exact Hin].
  - intros x rest w1 evs [Ho Hinv].
    destruct (Js.eqb x v) eqn:E.
    + apply eqb_eq in E. subst x.
      destruct v; try (exfalso; apply Hty; reflexivity);
        cbn [call_value]; wp_steps;
        (split; [reflexivity|]); (split; [apply only_trace_set_trans; exact Ho|]);
        right; apply in_app_iff; right; left; reflexivity.
    + apply eqb_neq in E.
      apply guarded_call_spec. intros evs' w' Ho' _ _.
      split; [reflexivity|]. split; [eapply only_trace_trans; eauto|].
      destruct Hinv as [[Heq | Hr] | Hev].
      * congruence.
      * left. exact Hr.
      * right. apply in_app_iff. left. exact Hev.
  - intros w' evs [Ho [[] | Hev]]. auto.
Qed.

(** X12.  [unityBridge.registerHandler] takes a value that is no function:
    every event of that type then reports one
    ['unityBridge handler error'] for it (the [TypeError] of the call) and
    completes normally, and the value stays registered. *)
Theorem non_function_handler_is_reported (w : World) (d v : JsVal) :
  is_object d = true ->
  nullish (get d "type") = false ->
  typeof v <> "function" ->
  let w1 := fst (Bridge.registerHandler (get d "type") v w) in
  let w2 := fst (UnityMessage (CustomEvent d) w1) in
  In v (handlers_for (get d "type") w1) /\
  snd (UnityMessage (CustomEvent d) w1) = Returns tt /\
  In (ConsoleError "unityBridge handler error" TypeError) (since w1 w2) /\
  handlers w2 = handlers w1.
Proof.
  intros Hobj Hnull Hty. cbn zeta.
  set (w1 := fst (Bridge.registerHandler (get d "type") v w)).
  assert (In v (handlers_for (get d "type") w1)) as Hin.
  { unfold w1. rewrite handlers_for_registerHandler.
    apply (In_set_add Js.eqb eqb_eq). left. reflexivity. }
  split; [exact Hin|].
  refine (wp_elim (UnityMessage (CustomEvent d)) w1
            (fun r w' evs =>
               r = Returns tt /\
               In (ConsoleError "unityBridge handler error" TypeError) evs /\
               handlers w' = handlers w1) _).
  apply UnityMessage_loops; [exact Hobj | exact Hnull|].
  intros w0 evs0 Ho0. wp_step.
  assert (In v (handlers_for (get d "type") w0)) as Hin0.
  { rewrite Ho0. exact Hin. }
  eapply wp_conseq; [apply (emitToHandlers_TypeError _ _ v w0 Hin0 Hty)|].
  cbn beta. intros r w' evs [-> [Ho Hev]].
  apply emitToGlobalHandlers_spec. intros evs3 w3 Ho3 _ _.
  split; [reflexivity|]. split.
  - apply in_app_iff. right. apply in_app_iff. left. exact Hev.
  - pose proof (bus_step_global_run (get d "type") (normalize (get d "payload"))
                  (get d "meta") (globalHandlers w') w') as [Hh _ _].
    rewrite Ho3. cbn [handlers set_trace]. rewrite Hh, Ho, Ho0. reflexivity.
Qed.
End NonFunction.

(* ===================================================================== *)
(** * The event bus: counting and clearing *)
(* ===================================================================== *)

Lemma subscriber_count_subscribed type x w :
  subscriber_count (subscribed type x w) =
    subscriber_count w +
    (if set_has sub_eqb x (subscribers_for type w) then 0 else 1).
Proof.
  rewrite !subscriber_count_total. unfold subscribed. cbn [subscribers set_subscribers].
  pose proof (length_set_add sub_eqb x (subscribers_for type w)) as Hl.
  unfold subscribers_for in *.
  destruct (map_get Js.eqb type (subscribers w)) as [s|] eqn:Hg.
  - pose proof (total_map_set_Some Js.eqb type s (set_add sub_eqb x s) (subscribers w) Hg).
    destruct (set_has sub_eqb x s); lia.
  - pose proof (total_map_set_None Js.eqb type (set_add sub_eqb x []) (subscribers w) Hg).
    cbn in *. lia.
Qed.

Lemma length_set_delete {K} (keq : K -> K -> bool) x (s : list K) :
  (forall a b, keq a b = true <-> a = b) ->
  List.length (set_delete keq x s) + (if set_has keq x s then 1 else 0) = List.length s.
Proof.
  intros keq_eq. destruct (set_has keq x s) eqn:Hh.
  - apply (set_has_In keq keq_eq) in Hh.
    pose proof (length_set_delete_In keq keq_eq x s Hh). lia.
  - rewrite (set_delete_not_In keq keq_eq); [lia|].
    intros Hin. apply (set_has_In keq keq_eq) in Hin. congruence.
Qed.

Lemma subscriber_count_unsubscribed type x w :
  subscriber_count (unsubscribed type x w) +
    (if set_has sub_eqb x (subscribers_for type w) then 1 else 0) = subscriber_count w.
Proof.
  rewrite !subscriber_count_total, subscribers_unsubscribed.
  unfold without, subscribers_for.
  destruct (map_get Js.eqb type (subscribers w)) as [s|] eqn:Hg; [|cbn; lia].
  cbn zeta.
  pose proof (length_set_delete sub_eqb x s sub_eqb_eq) as Hl.
  pose proof (total_map_set_Some Js.eqb type s (set_delete sub_eqb x s) (subscribers w) Hg)
    as Ht.
  destruct (Nat.eqb (List.length (set_delete sub_eqb x s)) 0) eqn:Hz.
  - pose proof (total_map_delete Js.eqb type (set_delete sub_eqb x s)
                  (map_set Js.eqb type (set_delete sub_eqb x s) (subscribers w))
                  (map_get_set_eq Js.eqb eqb_eq _ _ _)) as Hd.
    apply Nat.eqb_eq in Hz. lia.
  - lia.
Qed.

Lemma subscriber_count_cleared type w :
  subscriber_count (cleared type w) +
    (if nullish type then subscriber_count w
     else List.length (subscribers_for type w)) = subscriber_count w.
Proof.
  rewrite !subscriber_count_total. unfold cleared.
  destruct (nullish type); rewrite subscribers_uninstalled; cbn [subscribers set_subscribers].
  - reflexivity.
  - unfold subscribers_for.
    destruct (map_get Js.eqb type (subscribers w)) as [s|] eqn:Hg.
    + apply (total_map_delete Js.eqb). exact Hg.
    + rewrite (total_map_delete_None Js.eqb) by exact Hg. cbn. lia.
Qed.

Lemma subscribers_for_cleared type w other :
  wf w ->
  subscribers_for other (cleared type w) =
    if nullish type || Js.eqb other type then [] else subscribers_for other w.
Proof.
  intros Hwf. unfold cleared, subscribers_for.
  destruct (nullish type); rewrite subscribers_uninstalled; cbn [subscribers set_subscribers orb].
  - reflexivity.
  - destruct (Js.eqb other type) eqn:E.
    + apply eqb_eq in E. subst other.
      rewrite (map_get_delete_eq Js.eqb eqb_eq) by apply Hwf. reflexivity.
    + apply eqb_neq in E. rewrite (map_get_delete_ne Js.eqb eqb_eq) by exact E. reflexivity.
Qed.

Section BusCounting.
Context {B : Builtins} {H : Host}.

(** X14.  [getSubscriberCount()] is the number of (type, handler) pairs
    subscribed: [subscribe] of a function adds one unless that function is
    subscribed to that type already, [unsubscribe] takes one off if the
    handler is subscribed to the type and none otherwise, [clear(type)] takes
    off the subscribers of the type, [clear()] all. *)
Theorem getSubscriberCount_counts_pairs (w : World) (type : JsVal) (id : nat) (x : Subscriber) :
  EventBus.getSubscriberCount w = (w, Returns (subscriber_count w)) /\
  subscriber_count (fst (EventBus.subscribe type (SubVal (VFun id)) w)) =
    subscriber_count w +
    (if set_has sub_eqb (SubVal (VFun id)) (subscribers_for type w) then 0 else 1) /\
  subscriber_count (fst (EventBus.unsubscribe type x w)) +
    (if set_has sub_eqb x (subscribers_for type w) then 1 else 0) = subscriber_count w /\
  subscriber_count (fst (EventBus.clear type w)) +
    (if nullish type then subscriber_count w
     else List.length (subscribers_for type w)) = subscriber_count w.
Proof.
  split; [reflexivity|]. split; [|split].
  - rewrite subscribe_run. cbn [sub_typeof typeof].
    change (String.eqb "function" "function") with true. cbn [fst].
    apply subscriber_count_subscribed.
  - rewrite unsubscribe_run. cbn [fst]. apply subscriber_count_unsubscribed.
  - rewrite clear_run. cbn [fst]. apply subscriber_count_cleared.
Qed.

(** X15.  [clear(type)] removes the subscribers of that type and of no
    other; [clear()] (and [clear(null)]) removes them all.  An event of a
    cleared type calls no subscriber: no function is called with payload
    and meta. *)
Theorem clear_removes_the_subscribers (w : World) (type : JsVal) (d : JsVal) :
  wf w ->
  bus_inv w ->
  let w1 := fst (EventBus.clear type w) in
  (forall other,
      subscribers_for other w1 =
        if nullish type || Js.eqb other type then [] else subscribers_for other w) /\
  (nullish type = true -> subscriber_count w1 = 0 /\ forwarder_installations w1 = 0) /\
  (is_object d = true -> nullish (get d "type") = false ->
   nullish type = true \/ get d "type" = type ->
   forall f args,
     In (Call f args) (since w1 (fst (UnityMessage (CustomEvent d) w1))) ->
     args = [normalize (get d "payload")] \/
     args = [get d "type"; normalize (get d "payload"); get d "meta"]).
Proof.
  intros Hwf Hinv. cbn zeta. rewrite clear_run. cbn [fst].
  assert (wf (cleared type w)) as Hwf1 by (apply wf_cleared; exact Hwf).
  assert (bus_inv (cleared type w)) as Hinv1 by (apply bus_inv_cleared; assumption).
  split; [intros other; apply subscribers_for_cleared; exact Hwf|].
  split.
  - intros Hn.
    assert (subscriber_count (cleared type w) = 0) as Hz.
    { pose proof (subscriber_count_cleared type w) as Hc. rewrite Hn in Hc. lia. }
    split; [exact Hz|]. destruct Hinv1 as [_ Hf]. rewrite Hz in Hf. exact Hf.
  - intros Hobj Hty Hcase f args Hin.
    destruct (UnityMessage_calls d (cleared type w) Hobj Hty) as [_ [_ [Hc _]]].
    apply In_calls in Hin. rewrite Hc in Hin. unfold dispatch_calls in Hin.
    rewrite global_run_NoDup in Hin by apply Hwf1. cbn [snd] in Hin.
    apply in_app_iff in Hin. destruct Hin as [Hin | Hin].
    + apply in_map_iff in Hin. destruct Hin as [j [[= <- <-] _]]. left. reflexivity.
    + apply in_flat_map in Hin. destruct Hin as [o [_ Ho]].
      assert (subscribers_for (get d "type") (cleared type w) = []) as He.
      { rewrite subscribers_for_cleared by exact Hwf.
        destruct Hcase as [-> | <-]; [reflexivity|].
        rewrite eqb_refl, orb_true_r. reflexivity. }
      destruct o as [v|]; cbn [obs_calls] in Ho.
      * destruct v; try (destruct Ho; fail).
        destruct Ho as [[= <- <-] | []]. right. reflexivity.
      * rewrite He in Ho. cbn in Ho. destruct Ho as [[= <- <-] | []]. right. reflexivity.
Qed.

(** X16.  The callback that the bus registers for hot-module disposal does
    what [clear()] does, whatever the state: no subscriber is left, the
    flag is reset, and the forwarder is taken out of the bridge if the flag
    was set. *)
Theorem hot_dispose_is_clear (w : World) :
  hot_dispose w = EventBus.clear VUndefined w /\
  subscribers (fst (hot_dispose w)) = [] /\
  _installed (fst (hot_dispose w)) = false /\
  globalHandlers (fst (hot_dispose w)) =
    (if _installed w then set_delete obs_eqb ObsForwarder (globalHandlers w)
     else globalHandlers w) /\
  bus_step w (fst (hot_dispose w)).
Proof.
  assert (hot_dispose w =
          (set_subscribers []
             (set_installed false
                (if _installed w
                 then set_globalHandlers
                        (set_delete obs_eqb ObsForwarder (globalHandlers w)) w
                 else w)), Returns tt)) as Hd.
  { unfold hot_dispose, bind, try_catch, read, modify, ret.
    destruct (_installed w) eqn:Hi; [|reflexivity].
    unfold Api.offMessage, Bridge.unregisterGlobalHandler, bind, read, modify, ret.
    cbn [obs_typeof]. change (negb (String.eqb "function" "function")) with false. cbn iota.
    destruct (set_has obs_eqb ObsForwarder (globalHandlers w)) eqn:Hh;
      [rewrite Hh; reflexivity | rewrite Hh].
    rewrite (set_delete_not_In obs_eqb obs_eqb_eq).
    - rewrite set_globalHandlers_same. reflexivity.
    - intros Hin. apply (set_has_In obs_eqb obs_eqb_eq) in Hin. congruence. }
  assert (EventBus.clear VUndefined w =
          (set_subscribers []
             (set_installed false
                (if _installed w
                 then set_globalHandlers
                        (set_delete obs_eqb ObsForwarder (globalHandlers w)) w
                 else w)), Returns tt)) as Hc.
  { rewrite clear_run. unfold cleared, uninstalled. cbn [nullish].
    cbn [_installed set_subscribers]. rewrite subscriber_count_total.
    cbn [subscribers total Nat.eqb]. rewrite andb_true_r.
    destruct (_installed w) eqn:Hi.
    - destruct w; reflexivity.
    - destruct w; cbn in *; subst; reflexivity. }
  split; [congruence|].
  assert (bus_step w (fst (hot_dispose w))) as Hb
    by (rewrite Hd, <- Hc, clear_run; apply bus_step_cleared).
  rewrite Hd in *. cbn [fst] in *.
  split; [reflexivity|]. split; [reflexivity|]. split; [|exact Hb].
  destruct (_installed w); reflexivity.
Qed.
End BusCounting.

(* ===================================================================== *)
(** * The loader hook: what holds after every callback *)
(* ===================================================================== *)

Lemma NoDup_map_filter {A C} (f : A -> C) (p : A -> bool) l :
  NoDup (map f l) -> NoDup (map f (filter p l)).
Proof.
  induction l as [|a l IH]; cbn; [auto|].
  intros Hnd. inversion Hnd as [|? ? Hn Hnd']; subst.
  destruct (p a); cbn; [|auto].
  constructor; [|auto].
  intros Hin. apply Hn. apply in_map_iff in Hin. destruct Hin as [x [<- Hx]].
  apply filter_In in Hx. apply in_map. tauto.
Qed.

Lemma NoDup_snoc {A} (l : list A) x : NoDup l -> ~ In x l -> NoDup (l ++ [x]).
Proof.
  induction l as [|a l IH]; cbn; intros Hnd Hn.
  - constructor; [tauto | constructor].
  - inversion Hnd; subst. constructor.
    + rewrite in_app_iff. cbn. intuition congruence.
    + apply IH; tauto.
Qed.

Lemma Forall_filter {A} (P : A -> Prop) (p : A -> bool) l :
  Forall P l -> Forall P (filter p l).
Proof.
  intros HF. apply Forall_forall. intros x Hx. apply filter_In in Hx.
  rewrite Forall_forall in HF. apply HF. tauto.
Qed.

Lemma loader_inv_initial canvas create : loader_inv (Loader.initial canvas create).
Proof.
  constructor; cbn; try constructor; try discriminate; congruence.
Qed.

Lemma loader_inv_settle k r h :
  k < Loader.scripts h -> loader_inv h -> loader_inv (Loader.settle k r h).
Proof.
  intros Hk [I1 I2 I3 I4 I5 I6 I7 I8 I9 I10 I11]. unfold Loader.settle.
  destruct (existsb _ (Loader.settled h)); [constructor; assumption|].
  cbn zeta. cbn [Loader.awaiting Loader.set_settled].
  assert (Forall (fun s => fst s < Loader.scripts h)
            (Loader.settled h ++
             [(k, match r with Returns i => Returns (inst_id i) | Throws e => Throws e end)]))
    as I8'.
  { apply Forall_app. split; [exact I8|]. constructor; [exact Hk | constructor]. }
  destruct (Loader.awaiting h) as [p|] eqn:Ha; [destruct (Nat.eqb p k)|];
    constructor; cbn; try assumption; try discriminate;
    rewrite Ha; exact I11.
Qed.

Lemma loader_inv_doCleanup h : loader_inv h -> loader_inv (Loader.doCleanup h).
Proof.
  intros [I1 I2 I3 I4 I5 I6 I7 I8 I9 I10 I11].
  destruct h as [uref cref sref mref rref lpref lid ui le ls cv cu sc li cr st tm aw lg].
  cbn in *. unfold Loader.doCleanup, Loader.try_Quit. cbn.
  destruct sref as [k|]; cbn;
    (destruct uref as [i|]; cbn; [destruct (Quit i); cbn|]);
    constructor; cbn; try assumption; try discriminate; try reflexivity;
    apply Forall_filter; exact I10.
Qed.

Lemma loader_inv_injectLoader h :
  loader_inv h ->
  loader_inv (fst (Loader.injectLoader h)) /\
  snd (Loader.injectLoader h) < Loader.scripts (fst (Loader.injectLoader h)).
Proof.
  intros [I1 I2 I3 I4 I5 I6 I7 I8 I9 I10 I11]. unfold Loader.injectLoader. cbn.
  split; [|lia].
  constructor; cbn; try assumption; try discriminate.
  - eapply Forall_impl; [|exact I8]. cbn. intros; lia.
  - eapply Forall_impl; [|exact I9]. cbn. intros; lia.
  - apply Forall_app. split.
    + eapply Forall_impl; [|exact I10]. cbn. intros; lia.
    + constructor; [lia | constructor].
  - intros p Hp. specialize (I11 p Hp). lia.
Qed.

Lemma loader_inv_step s h : loader_inv h -> loader_inv (Loader.step s h).
Proof.
  intros Hinv. destruct s as [| |k|k e b|id outcome| |]; cbn [Loader.step].
  - (* Mount *)
    assert (loader_inv (Loader.setLoadingState Loader.LOADING (Loader.set_mountedRef true h)))
      as H0.
    { destruct Hinv. constructor; cbn; try assumption; discriminate. }
    destruct (loader_inv_injectLoader _ H0) as [H1 Hlt].
    destruct (Loader.injectLoader _) as [h1 p]. cbn [fst snd] in *.
    destruct H1. constructor; cbn; assumption.
  - (* Unmount *)
    apply loader_inv_doCleanup. destruct Hinv. constructor; cbn; assumption.
  - (* the load event *)
    destruct (existsb (Nat.eqb k) (Loader.listening h)) eqn:Hl; [|exact Hinv].
    assert (k < Loader.scripts h) as Hk.
    { apply existsb_exists in Hl. destruct Hl as [j [Hj Hjk]]. apply Nat.eqb_eq in Hjk.
      subst j. pose proof (inv_listening _ Hinv) as HF. rewrite Forall_forall in HF. auto. }
    unfold Loader.onLoad. cbn zeta. cbn [Loader.canvas Loader.createUnityInstance Loader.set_loadIdRef].
    assert (loader_inv (Loader.set_loadIdRef (S (Loader.loadIdRef h)) h)) as H0.
    { destruct Hinv as [I1 I2 I3 I4 I5 I6 I7 I8 I9 I10 I11].
      constructor; cbn; try assumption.
      eapply Forall_impl; [|exact I6]. cbn. intros; lia. }
    destruct (Loader.canvas h); cbn [negb].
    + destruct (Loader.createUnityInstance h); cbn [negb].
      * destruct Hinv as [I1 I2 I3 I4 I5 I6 I7 I8 I9 I10 I11].
        constructor; cbn; try assumption.
        -- apply Forall_app. split.
           ++ eapply Forall_impl; [|exact I6]. cbn. intros; lia.
           ++ constructor; [cbn; lia | constructor].
        -- rewrite map_app. cbn. apply NoDup_snoc.
           ++ exact I7.
           ++ intros Hin. apply in_map_iff in Hin. destruct Hin as [c [Hc Hin]].
              rewrite Forall_forall in I6. specialize (I6 c Hin). lia.
        -- apply Forall_app. split; [exact I9|]. constructor; [exact Hk | constructor].
      * apply loader_inv_settle; [exact Hk|].
        destruct H0. constructor; cbn; try assumption; discriminate.
    + apply loader_inv_settle; [exact Hk|].
      destruct H0. constructor; cbn; try assumption; discriminate.
  - (* the error event *)
    destruct (existsb (Nat.eqb k) (Loader.listening h)) eqn:Hl; [|exact Hinv].
    assert (k < Loader.scripts h) as Hk.
    { apply existsb_exists in Hl. destruct Hl as [j [Hj Hjk]]. apply Nat.eqb_eq in Hjk.
      subst j. pose proof (inv_listening _ Hinv) as HF. rewrite Forall_forall in HF. auto. }
    unfold Loader.onError. cbn zeta.
    apply loader_inv_settle; [exact Hk|].
    destruct Hinv. constructor; cbn; try assumption; discriminate.
  - (* a creation settles *)
    destruct (find (fun c => Nat.eqb (fst c) id) (Loader.creating h)) as [[id' k]|] eqn:Hf;
      [|exact Hinv].
    apply find_some in Hf. destruct Hf as [Hin Hid].
    assert (k < Loader.scripts h) as Hk.
    { pose proof (inv_creating_scripts _ Hinv) as HF. rewrite Forall_forall in HF.
      apply (HF _ Hin). }
    set (h0 := Loader.set_creating _ h).
    assert (loader_inv h0) as H0.
    { destruct Hinv. constructor; cbn; try assumption.
      - apply Forall_filter. assumption.
      - apply NoDup_map_filter. assumption.
      - apply Forall_filter. assumption. }
    assert (loader_inv (fst (Loader.initialize_chain id outcome h0)) /\
            Loader.scripts (fst (Loader.initialize_chain id outcome h0)) = Loader.scripts h)
      as [H1 Hs].
    { unfold Loader.initialize_chain, Loader.initialize_then, Loader.initialize_catch,
        Loader.try_Quit.
      destruct H0 as [I1 I2 I3 I4 I5 I6 I7 I8 I9 I10 I11].
      destruct outcome as [i|err].
      - destruct (negb (Nat.eqb (Loader.loadIdRef h0) id));
          [|destruct (negb (Loader.mountedRef h0))];
          try destruct (Quit i); cbn; (split; [|reflexivity]);
          constructor; cbn; try assumption; try discriminate; try reflexivity.
      - cbn. split; [|reflexivity].
        constructor; cbn; try assumption; discriminate. }
    destruct (Loader.initialize_chain id outcome h0) as [h1 r]. cbn [fst] in *.
    apply loader_inv_settle; [rewrite Hs; exact Hk | exact H1].
  - (* reload *)
    destruct (Loader.reloadingRef h); [exact Hinv|].
    assert (loader_inv (Loader.doCleanup (Loader.set_reloadingRef true h))) as H0.
    { apply loader_inv_doCleanup. destruct Hinv. constructor; cbn; assumption. }
    destruct H0. constructor; cbn; assumption.
  - (* the timer of reload *)
    destruct (Loader.settle_timer h); [|exact Hinv].
    assert (loader_inv (Loader.setLoadingState Loader.LOADING (Loader.set_settle_timer false h)))
      as H0.
    { destruct Hinv. constructor; cbn; try assumption; discriminate. }
    destruct (loader_inv_injectLoader _ H0) as [H1 Hlt].
    cbn zeta.
    replace (Loader.injectLoader
               (Loader.setLoadingState Loader.RELOADING (Loader.set_settle_timer false h)))
      with (Loader.injectLoader
              (Loader.setLoadingState Loader.LOADING (Loader.set_settle_timer false h)))
      by reflexivity.
    destruct (Loader.injectLoader _) as [h1 p]. cbn [fst snd] in *.
    destruct H1. constructor; cbn; try assumption.
    intros q [= <-]. exact Hlt.
Qed.

Lemma loader_inv_run steps h : loader_inv h -> loader_inv (Loader.run steps h).
Proof.
  revert h. unfold Loader.run. induction steps as [|s steps IH]; intros h Hinv; [exact Hinv|].
  cbn [fold_left]. apply IH. apply loader_inv_step. exact Hinv.
Qed.


(* ===================================================================== *)
(** * The loader hook: who exposes and who quits an instance *)
(* ===================================================================== *)

(** Settling the promise of [injectLoader] touches nothing that the hook
    returns. *)
Lemma settle_visible k r h :
  let h' := Loader.settle k r h in
  Loader.unityInstance h' = Loader.unityInstance h /\
  Loader.unityInstanceRef h' = Loader.unityInstanceRef h /\
  Loader.loadingState h' = Loader.loadingState h /\
  Loader.loadError h' = Loader.loadError h /\
  Loader.log h' = Loader.log h /\
  Loader.mountedRef h' = Loader.mountedRef h /\
  Loader.loadIdRef h' = Loader.loadIdRef h /\
  Loader.listening h' = Loader.listening h /\
  Loader.creating h' = Loader.creating h.
Proof.
  cbn zeta. unfold Loader.settle.
  destruct (existsb _ (Loader.settled h)); [repeat split|].
  cbn zeta. cbn [Loader.awaiting Loader.set_settled].
  destruct (Loader.awaiting h) as [p|]; [destruct (Nat.eqb p k)|]; repeat split.
Qed.

Lemma find_creating id h :
  In id (map fst (Loader.creating h)) ->
  exists k, find (fun c => Nat.eqb (fst c) id) (Loader.creating h) = Some (id, k).
Proof.
  induction (Loader.creating h) as [|[j k] l IH]; cbn; [tauto|].
  intros [<- | Hin].
  - rewrite Nat.eqb_refl. eauto.
  - destruct (Nat.eqb_spec j id) as [-> | _]; eauto.
Qed.

Lemma find_creating_In id h c :
  find (fun c => Nat.eqb (fst c) id) (Loader.creating h) = Some c ->
  fst c = id /\ In id (map fst (Loader.creating h)).
Proof.
  intros Hf. apply find_some in Hf. destruct Hf as [Hin Hid].
  apply Nat.eqb_eq in Hid. split; [exact Hid|].
  rewrite <- Hid. apply in_map. exact Hin.
Qed.

(** X19.  The instance that the hook returns changes in two ways only: a
    creation that settles with an instance while its load id is the current
    one and the hook is mounted puts that instance there (and the state
    becomes [READY]); unmounting and [reload] take it away.  No other
    callback, and no other creation, touches it. *)
Theorem instance_changes_only_by_the_current_attempt (h : Loader.Hook) (s : Loader.Step) :
  let h' := Loader.step s h in
  Loader.unityInstance h' = Loader.unityInstance h \/
  (exists id i,
      s = Loader.Created id (Returns i) /\
      In id (map fst (Loader.creating h)) /\
      Loader.loadIdRef h = id /\ Loader.mountedRef h = true /\
      Loader.unityInstance h' = Some i /\ Loader.loadingState h' = Loader.READY) \/
  ((s = Loader.Unmount \/ s = Loader.Reload) /\ Loader.unityInstance h' = None).
Proof.
  cbn zeta. destruct s as [| |k|k e b|id outcome| |]; cbn [Loader.step].
  - left. reflexivity.
  - right. right. split; [left; reflexivity|].
    unfold Loader.doCleanup. reflexivity.
  - left. destruct (existsb (Nat.eqb k) (Loader.listening h)); [|reflexivity].
    unfold Loader.onLoad. cbn zeta.
    cbn [Loader.canvas Loader.createUnityInstance Loader.set_loadIdRef].
    destruct (Loader.canvas h); cbn [negb];
      [destruct (Loader.createUnityInstance h); cbn [negb]; [reflexivity|]|];
      match goal with |- Loader.unityInstance (Loader.settle ?k ?r ?x) = _ =>
        rewrite (proj1 (settle_visible k r x)) end; reflexivity.
  - left. destruct (existsb (Nat.eqb k) (Loader.listening h)); [|reflexivity].
    unfold Loader.onError. cbn zeta.
    match goal with |- Loader.unityInstance (Loader.settle ?k ?r ?x) = _ =>
      rewrite (proj1 (settle_visible k r x)) end; reflexivity.
  - destruct (find (fun c => Nat.eqb (fst c) id) (Loader.creating h)) as [[id' k]|] eqn:Hf;
      [|left; reflexivity].
    apply find_creating_In in Hf. destruct Hf as [_ Hin].
    set (h0 := Loader.set_creating _ h).
    unfold Loader.initialize_chain, Loader.initialize_then, Loader.initialize_catch,
      Loader.try_Quit.
    change (Loader.loadIdRef h0) with (Loader.loadIdRef h).
    change (Loader.mountedRef h0) with (Loader.mountedRef h).
    destruct outcome as [i|err].
    + destruct (Nat.eqb_spec (Loader.loadIdRef h) id) as [Hid | Hid]; cbn [negb].
      * destruct (Loader.mountedRef h) eqn:Hm; cbn [negb].
        -- right. left. exists id, i.
           split; [reflexivity|]. split; [exact Hin|]. split; [exact Hid|].
           split; [reflexivity|].
           match goal with |- Loader.unityInstance (Loader.settle ?k ?r ?x) = _ /\ _ =>
             destruct (settle_visible k r x) as [-> [_ [-> _]]] end.
           split; reflexivity.
        -- left.
           match goal with |- Loader.unityInstance (Loader.settle ?k ?r ?x) = _ =>
             rewrite (proj1 (settle_visible k r x)) end.
           destruct (Quit i); reflexivity.
      * left.
        match goal with |- Loader.unityInstance (Loader.settle ?k ?r ?x) = _ =>
          rewrite (proj1 (settle_visible k r x)) end.
        destruct (Quit i); reflexivity.
    + left.
      match goal with |- Loader.unityInstance (Loader.settle ?k ?r ?x) = _ =>
        rewrite (proj1 (settle_visible k r x)) end.
      reflexivity.
  - destruct (Loader.reloadingRef h); [left; reflexivity|].
    right. right. split; [right; reflexivity | reflexivity].
  - left. destruct (Loader.settle_timer h); reflexivity.
Qed.

(** X20.  A creation that settles with an instance when its load id is no
    longer the current one, or when the hook is unmounted: the instance is
    quit, if it has [Quit], and never exposed; the error is recorded and the
    state becomes [ERROR], on the hook as it is then. *)
Theorem late_instance_is_quit (h : Loader.Hook) (id : nat) (i : Instance) :
  In id (map fst (Loader.creating h)) ->
  Loader.loadIdRef h <> id \/ Loader.mountedRef h = false ->
  let h' := Loader.step (Loader.Created id (Returns i)) h in
  Loader.unityInstance h' = Loader.unityInstance h /\
  Loader.unityInstanceRef h' = Loader.unityInstanceRef h /\
  (Quit i <> None -> In (CallQuit (inst_id i)) (Loader.log h')) /\
  Loader.loadingState h' = Loader.ERROR /\
  Loader.loadError h' =
    Some (Error (if Nat.eqb (Loader.loadIdRef h) id
                 then "Unmounted before Unity instance finished creating"
                 else "Stale Unity load result")) /\
  ~ In id (map fst (Loader.creating h')).
Proof.
  intros Hin Hlate. cbn zeta. cbn [Loader.step].
  destruct (find_creating id h Hin) as [k ->].
  set (h0 := Loader.set_creating _ h).
  assert (~ In id (map fst (Loader.creating h0))) as Hgone.
  { unfold h0. cbn [Loader.creating Loader.set_creating]. intros Hi.
    apply in_map_iff in Hi. destruct Hi as [c [Hc Hi]]. apply filter_In in Hi.
    destruct Hi as [_ Hi]. rewrite Hc, Nat.eqb_refl in Hi. discriminate. }
  unfold Loader.initialize_chain, Loader.initialize_then, Loader.initialize_catch,
    Loader.try_Quit.
  change (Loader.loadIdRef h0) with (Loader.loadIdRef h).
  change (Loader.mountedRef h0) with (Loader.mountedRef h).
  destruct (Nat.eqb_spec (Loader.loadIdRef h) id) as [Hid | Hid]; cbn [negb].
  - destruct Hlate as [Hne | Hm]; [contradiction|]. rewrite Hm. cbn [negb].
    match goal with |- Loader.unityInstance (Loader.settle ?k ?r ?x) = _ /\ _ =>
      destruct (settle_visible k r x) as [-> [-> [-> [-> [-> [_ [_ [_ ->]]]]]]]] end.
    destruct (Quit i) as [q|] eqn:Hq; cbn;
      repeat (split; [try reflexivity|]); try exact Hgone.
    + intros _. rewrite !in_app_iff. cbn. auto.
    + congruence.
  - match goal with |- Loader.unityInstance (Loader.settle ?k ?r ?x) = _ /\ _ =>
      destruct (settle_visible k r x) as [-> [-> [-> [-> [-> [_ [_ [_ ->]]]]]]]] end.
    destruct (Quit i) as [q|] eqn:Hq; cbn;
      repeat (split; [try reflexivity|]); try exact Hgone.
    + intros _. rewrite !in_app_iff. cbn. auto.
    + congruence.
Qed.

(** [doCleanup], field by field. *)
Lemma doCleanup_fields h :
  let h' := Loader.doCleanup h in
  Loader.unityInstance h' = None /\
  Loader.unityInstanceRef h' = None /\
  Loader.createdRef h' = false /\
  Loader.loadError h' = None /\
  Loader.loadingState h' = Loader.IDLE /\
  Loader.loadingPromiseRef h' = None /\
  Loader.scriptRef h' = None /\
  Loader.mountedRef h' = Loader.mountedRef h /\
  Loader.loadIdRef h' = Loader.loadIdRef h /\
  Loader.creating h' = Loader.creating h /\
  Loader.listening h' =
    match Loader.scriptRef h with
    | Some k => filter (fun j => negb (Nat.eqb j k)) (Loader.listening h)
    | None => Loader.listening h
    end /\
  Loader.log h' =
    match Loader.unityInstanceRef h with
    | Some i => match Quit i with
                | Some _ => Loader.log h ++ [CallQuit (inst_id i)]
                | None => Loader.log h
                end
    | None => Loader.log h
    end.
Proof.
  destruct h as [uref cref sref mref rref lpref lid ui le ls cv cu sc li cr st tm aw lg].
  unfold Loader.doCleanup, Loader.try_Quit. cbn.
  destruct sref as [k0|]; (destruct uref as [i0|]; [destruct (Quit i0) eqn:Hq|]); cbn;
    rewrite ?Hq; repeat split.
Qed.

Lemma not_listening_after_filter k l :
  existsb (Nat.eqb k) (filter (fun j => negb (Nat.eqb j k)) l) = false.
Proof.
  destruct (existsb _ _) eqn:E; [|reflexivity].
  apply existsb_exists in E. destruct E as [j [Hj Hjk]]. apply filter_In in Hj.
  apply Nat.eqb_eq in Hjk. subst j. rewrite Nat.eqb_refl in Hj. destruct Hj. discriminate.
Qed.

(** A settling creation exposes nothing on an unmounted hook. *)
Lemma created_unmounted id outcome h :
  Loader.mountedRef h = false ->
  Loader.unityInstance (Loader.step (Loader.Created id outcome) h) = Loader.unityInstance h.
Proof.
  intros Hm. cbn [Loader.step].
  destruct (find (fun c => Nat.eqb (fst c) id) (Loader.creating h)) as [[id' k]|];
    [|reflexivity].
  set (h0 := Loader.set_creating _ h).
  unfold Loader.initialize_chain, Loader.initialize_then, Loader.initialize_catch,
    Loader.try_Quit.
  change (Loader.mountedRef h0) with (Loader.mountedRef h). rewrite Hm.
  destruct outcome as [i|err].
  - destruct (negb (Nat.eqb (Loader.loadIdRef h0) id)); cbn [negb];
      match goal with |- Loader.unityInstance (Loader.settle ?k ?r ?x) = _ =>
        rewrite (proj1 (settle_visible k r x)) end;
      destruct (Quit i); reflexivity.
  - match goal with |- Loader.unityInstance (Loader.settle ?k ?r ?x) = _ =>
      rewrite (proj1 (settle_visible k r x)) end.
    reflexivity.
Qed.

(** X21.  Unmounting resets the hook: no instance, no error, state [IDLE],
    no loading promise; the instance that was there is quit; the listeners
    of the injected script are removed, so that its [load] and [error]
    events do nothing any more; and no creation that settles afterwards
    exposes an instance. *)
Theorem unmount_cleans_up (h : Loader.Hook) :
  let h' := Loader.step Loader.Unmount h in
  Loader.mountedRef h' = false /\
  Loader.unityInstance h' = None /\
  Loader.unityInstanceRef h' = None /\
  Loader.createdRef h' = false /\
  Loader.loadError h' = None /\
  Loader.loadingState h' = Loader.IDLE /\
  Loader.loadingPromiseRef h' = None /\
  Loader.scriptRef h' = None /\
  (forall i, Loader.unityInstanceRef h = Some i -> Quit i <> None ->
             In (CallQuit (inst_id i)) (Loader.log h')) /\
  (forall k e b, Loader.scriptRef h = Some k ->
                 Loader.step (Loader.ScriptLoaded k) h' = h' /\
                 Loader.step (Loader.ScriptFailed k e b) h' = h') /\
  (forall id outcome,
      Loader.unityInstance (Loader.step (Loader.Created id outcome) h') = None).
Proof.
  cbn zeta.
  change (Loader.step Loader.Unmount h)
    with (Loader.doCleanup (Loader.set_mountedRef false h)).
  destruct (doCleanup_fields (Loader.set_mountedRef false h))
    as [F1 [F2 [F3 [F4 [F5 [F6 [F7 [F8 [F9 [F10 [F11 F12]]]]]]]]]]].
  cbn [Loader.mountedRef Loader.set_mountedRef Loader.scriptRef Loader.unityInstanceRef
       Loader.listening Loader.log] in F8, F11, F12.
  split; [exact F8|]. split; [exact F1|]. split; [exact F2|]. split; [exact F3|].
  split; [exact F4|]. split; [exact F5|]. split; [exact F6|]. split; [exact F7|].
  split; [|split].
  - intros i Hi Hq. rewrite F12, Hi. destruct (Quit i); [|congruence].
    apply in_app_iff. right. left. reflexivity.
  - intros k e b Hk. cbn [Loader.step]. rewrite F11, Hk, not_listening_after_filter. auto.
  - intros id outcome. rewrite created_unmounted by exact F8. exact F1.
Qed.

(* ===================================================================== *)
(** * The loader hook: reload *)
(* ===================================================================== *)

Lemma find_new_id (cr : list (nat * nat)) lid k :
  Forall (fun c => fst c <= lid) cr ->
  find (fun c => Nat.eqb (fst c) (S lid)) (cr ++ [(S lid, k)]) = Some (S lid, k).
Proof.
  induction 1 as [|[j x] cr Hj _ IH]; cbn.
  - rewrite Nat.eqb_refl. reflexivity.
  - cbn in Hj. destruct (Nat.eqb_spec j (S lid)); [lia | exact IH].
Qed.

Lemma not_settled (st : list (nat * Completion nat)) k :
  Forall (fun s => fst s < k) st ->
  existsb (fun s => Nat.eqb (fst s) k) st = false.
Proof.
  induction 1 as [|[j x] st Hj _ IH]; cbn; [reflexivity|].
  cbn in Hj. destruct (Nat.eqb_spec j k); [lia | exact IH].
Qed.

Lemma listening_new l k : existsb (Nat.eqb k) (l ++ [k]) = true.
Proof.
  rewrite existsb_app. cbn. rewrite Nat.eqb_refl. apply orb_true_iff. right. reflexivity.
Qed.

(** [doCleanup] as a record. *)
Lemma doCleanup_record h :
  Loader.doCleanup h =
    {| Loader.unityInstanceRef := None;
       Loader.createdRef := false;
       Loader.scriptRef := None;
       Loader.mountedRef := Loader.mountedRef h;
       Loader.reloadingRef := Loader.reloadingRef h;
       Loader.loadingPromiseRef := None;
       Loader.loadIdRef := Loader.loadIdRef h;
       Loader.unityInstance := None;
       Loader.loadError := None;
       Loader.loadingState := Loader.IDLE;
       Loader.canvas := Loader.canvas h;
       Loader.createUnityInstance := Loader.createUnityInstance h;
       Loader.scripts := Loader.scripts h;
       Loader.listening :=
         match Loader.scriptRef h with
         | Some k => filter (fun j => negb (Nat.eqb j k)) (Loader.listening h)
         | None => Loader.listening h
         end;
       Loader.creating := Loader.creating h;
       Loader.settled := Loader.settled h;
       Loader.settle_timer := Loader.settle_timer h;
       Loader.awaiting := Loader.awaiting h;
       Loader.log :=
         match Loader.unityInstanceRef h with
         | Some i => match Quit i with
                     | Some _ => Loader.log h ++ [CallQuit (inst_id i)]
                     | None => Loader.log h
                     end
         | None => Loader.log h
         end |}.
Proof.
  destruct h as [uref cref sref mref rref lpref lid ui le ls cv cu sc li cr st tm aw lg].
  unfold Loader.doCleanup, Loader.try_Quit.
  destruct sref as [k0|]; (destruct uref as [i0|]; cbn; [destruct (Quit i0)|]);
    reflexivity.
Qed.

(** X22.  [reload()] on a mounted hook that is not reloading: the instance
    that was there is quit and the hook is reset; once the timer has fired
    a new loader script is injected, in state [LOADING]; a second [reload()]
    before the end does nothing; when the script has loaded and the creation
    settles with an instance, that instance is exposed, the state is [READY]
    and [reload] may be called again.  If the script fails instead, [reload]
    may be called again as well, with the error recorded and the state still
    [LOADING]. *)
Theorem reload_brings_a_new_instance (h : Loader.Hook) (i : Instance) :
  loader_inv h ->
  Loader.reloadingRef h = false ->
  Loader.mountedRef h = true ->
  Loader.canvas h = true ->
  Loader.createUnityInstance h = true ->
  let k := Loader.scripts h in
  let id := S (Loader.loadIdRef h) in
  let h1 := Loader.step Loader.Reload h in
  let h2 := Loader.step Loader.SettleTimer h1 in
  let h3 := Loader.step (Loader.ScriptLoaded k) h2 in
  let h4 := Loader.step (Loader.Created id (Returns i)) h3 in
  (* the old instance is given up *)
  (Loader.unityInstance h1 = None /\ Loader.loadingState h1 = Loader.IDLE /\
   forall old, Loader.unityInstanceRef h = Some old -> Quit old <> None ->
               In (CallQuit (inst_id old)) (Loader.log h1)) /\
  (* a new script is injected *)
  (Loader.scriptRef h2 = Some k /\ Loader.loadingState h2 = Loader.LOADING /\
   Loader.loadError h2 = None /\ Loader.loadingPromiseRef h2 = Some k) /\
  (* reload is not re-entrant *)
  (Loader.step Loader.Reload h1 = h1 /\ Loader.step Loader.Reload h2 = h2 /\
   Loader.step Loader.Reload h3 = h3) /\
  (* the new instance arrives *)
  (Loader.unityInstance h4 = Some i /\ Loader.loadingState h4 = Loader.READY /\
   Loader.createdRef h4 = true /\ Loader.loadError h4 = None /\
   Loader.reloadingRef h4 = false /\ In (k, Returns (inst_id i)) (Loader.settled h4)) /\
  (* or the script fails *)
  (forall e b,
      let h3' := Loader.step (Loader.ScriptFailed k e b) h2 in
      Loader.reloadingRef h3' = false /\ Loader.loadError h3' <> None /\
      Loader.loadingState h3' = Loader.LOADING /\ Loader.unityInstance h3' = None).
Proof.
  intros [I1 I2 I3 I4 I5 I6 I7 I8 I9 I10 I11] Hr Hm Hc Hu.
  destruct h as [uref cref sref mref rref lpref lid ui le ls cv cu sc li cr st tm aw lg].
  cbn in I1, I2, I3, I4, I5, I6, I7, I8, I9, I10, I11, Hr, Hm, Hc, Hu.
  subst rref mref cv cu.
  pose proof (find_new_id cr lid sc I6) as Hfind.
  pose proof (not_settled st sc I8) as Hns.
  assert (forall l, existsb (Nat.eqb sc) (l ++ [sc]) = true) as Hl
    by (intros l; apply listening_new).
  cbn zeta. cbn [Loader.scripts Loader.loadIdRef Loader.unityInstanceRef].
  remember (Loader.step Loader.Reload _) as h1 eqn:E1.
  remember (Loader.step Loader.SettleTimer h1) as h2 eqn:E2.
  remember (Loader.step (Loader.ScriptLoaded sc) h2) as h3 eqn:E3.
  remember (Loader.step (Loader.Created (S lid) (Returns i)) h3) as h4 eqn:E4.
  cbn [Loader.step Loader.reloadingRef] in E1. rewrite doCleanup_record in E1.
  lazy -[existsb find filter app Nat.eqb fst snd Quit inst_id SendMessage In] in E1.
  assert (Loader.step Loader.Reload h1 = h1) as R1 by (rewrite E1; reflexivity).
  rewrite E1 in E2. lazy -[existsb find filter app Nat.eqb fst snd Quit inst_id SendMessage In] in E2.
  assert (Loader.step Loader.Reload h2 = h2) as R2 by (rewrite E2; reflexivity).
  rewrite E2 in E3. cbn [Loader.step Loader.listening] in E3. rewrite Hl in E3.
  lazy -[existsb find filter app Nat.eqb fst snd Quit inst_id SendMessage In] in E3.
  assert (Loader.step Loader.Reload h3 = h3) as R3 by (rewrite E3; reflexivity).
  rewrite E3 in E4. cbn [Loader.step Loader.creating] in E4. rewrite Hfind in E4.
  unfold Loader.initialize_chain, Loader.initialize_then in E4.
  cbn [Loader.loadIdRef Loader.mountedRef Loader.set_creating] in E4.
  rewrite Nat.eqb_refl in E4. cbn [negb] in E4.
  lazy -[existsb find filter app Nat.eqb fst snd Quit inst_id SendMessage In] in E4.
  rewrite Hns in E4.
  lazy -[existsb find filter app Nat.eqb fst snd Quit inst_id SendMessage In] in E4.
  rewrite Nat.eqb_refl in E4.
  assert (F : forall e b,
             let h3' := Loader.step (Loader.ScriptFailed sc e b) h2 in
             Loader.reloadingRef h3' = false /\ Loader.loadError h3' <> None /\
             Loader.loadingState h3' = Loader.LOADING /\ Loader.unityInstance h3' = None).
  { intros e b. cbn zeta. rewrite E2. cbn [Loader.step Loader.listening]. rewrite Hl.
    lazy -[existsb find filter app Nat.eqb fst snd String.append truthy get
           RefJson.to_String andb]. rewrite Hns.
    lazy -[existsb find filter app Nat.eqb fst snd String.append truthy get
           RefJson.to_String andb]. rewrite Nat.eqb_refl.
    repeat split. discriminate. }
  split.
  { rewrite E1. cbn [Loader.unityInstance Loader.loadingState Loader.log].
    split; [reflexivity|]. split; [reflexivity|].
    intros old -> Hq. destruct (Quit old); [|congruence].
    apply in_app_iff. right. left. reflexivity. }
  split; [rewrite E2; repeat split|].
  split; [auto|].
  split; [|exact F].
  rewrite E4.
  cbn [Loader.unityInstance Loader.loadingState Loader.createdRef Loader.loadError
       Loader.reloadingRef Loader.settled].
  repeat (split; [reflexivity|]).
  apply in_app_iff. right. left. reflexivity.
Qed.

(* ===================================================================== *)
(** * UnityGame.jsx: the bridge follows the hook *)
(* ===================================================================== *)

Lemma same_instance_refl a : UnityGame.same_instance a a = true.
Proof. destruct a; cbn; [apply Nat.eqb_refl | reflexivity]. Qed.

Lemma same_instance_trans a b c :
  UnityGame.same_instance a b = true -> UnityGame.same_instance b c = true ->
  UnityGame.same_instance a c = true.
Proof.
  destruct a, b, c; cbn; try discriminate; auto.
  intros E1 E2. apply Nat.eqb_eq in E1, E2. apply Nat.eqb_eq. congruence.
Qed.

Lemma same_instance_sym a b :
  UnityGame.same_instance a b = true -> UnityGame.same_instance b a = true.
Proof.
  destruct a, b; cbn; try discriminate; auto.
  intros E. apply Nat.eqb_eq in E. apply Nat.eqb_eq. congruence.
Qed.

Section GameFacts.
Context {B : Builtins} {H : Host}.

Lemma instance_effect_sets loadedInstance w :
  unityInstance (fst (UnityGame.instance_effect loadedInstance w)) = loadedInstance.
Proof.
  destruct loadedInstance as [i|]; cbn [UnityGame.instance_effect]; [|reflexivity].
  refine (wp_elim (Bridge.setInstance (Some i)) w (fun _ w' _ => unityInstance w' = Some i) _).
  apply setInstance_spec. auto.
Qed.

Lemma page_inv_instance_effect loadedInstance w :
  page_inv w -> page_inv (fst (UnityGame.instance_effect loadedInstance w)).
Proof.
  intros Hinv. destruct loadedInstance as [i|]; cbn [UnityGame.instance_effect].
  - apply keeps_setInstance. exact Hinv.
  - apply keeps_clearInstance. exact Hinv.
Qed.

(** What a callback does to [mountedRef] and to the instance of the hook. *)
Lemma step_mounted_instance s h :
  let h' := Loader.step s h in
  Loader.mountedRef h' =
    match s with
    | Loader.Mount => true
    | Loader.Unmount => false
    | _ => Loader.mountedRef h
    end /\
  (Loader.unityInstance h' = Loader.unityInstance h \/
   Loader.unityInstance h' = None \/
   exists id i, s = Loader.Created id (Returns i) /\ Loader.unityInstance h' = Some i).
Proof.
  cbn zeta. destruct s as [| |k|k e b|id outcome| |]; cbn [Loader.step].
  - split; [reflexivity | left; reflexivity].
  - destruct (doCleanup_fields (Loader.set_mountedRef false h))
      as [Hu [_ [_ [_ [_ [_ [_ [Hm _]]]]]]]].
    split; [rewrite Hm; reflexivity | right; left; exact Hu].
  - destruct (existsb (Nat.eqb k) (Loader.listening h)); [|split; [|left]; reflexivity].
    unfold Loader.onLoad. cbn zeta.
    cbn [Loader.canvas Loader.createUnityInstance Loader.set_loadIdRef].
    destruct (Loader.canvas h); cbn [negb];
      [destruct (Loader.createUnityInstance h); cbn [negb];
       [split; [|left]; reflexivity|]|];
      match goal with |- Loader.mountedRef (Loader.settle ?k ?r ?x) = _ /\ _ =>
        destruct (settle_visible k r x) as [-> [_ [_ [_ [_ [-> _]]]]]] end;
      (split; [|left]; reflexivity).
  - destruct (existsb (Nat.eqb k) (Loader.listening h)); [|split; [|left]; reflexivity].
    unfold Loader.onError. cbn zeta.
    match goal with |- Loader.mountedRef (Loader.settle ?k ?r ?x) = _ /\ _ =>
      destruct (settle_visible k r x) as [-> [_ [_ [_ [_ [-> _]]]]]] end.
    split; [|left]; reflexivity.
  - destruct (find (fun c => Nat.eqb (fst c) id) (Loader.creating h)) as [[id' k]|];
      [|split; [|left]; reflexivity].
    set (h0 := Loader.set_creating _ h).
    unfold Loader.initialize_chain, Loader.initialize_then, Loader.initialize_catch,
      Loader.try_Quit.
    change (Loader.loadIdRef h0) with (Loader.loadIdRef h).
    change (Loader.mountedRef h0) with (Loader.mountedRef h).
    destruct outcome as [i|err];
      [destruct (negb (Nat.eqb (Loader.loadIdRef h) id));
       [|destruct (Loader.mountedRef h) eqn:Hm; cbn [negb]]|];
      match goal with |- Loader.mountedRef (Loader.settle ?k ?r ?x) = _ /\ _ =>
        destruct (settle_visible k r x) as [-> [_ [_ [_ [_ [-> _]]]]]] end.
    + destruct (Quit i); split; [|left| |left]; reflexivity.
    + split; [exact Hm|]. right. right. exists id, i. split; reflexivity.
    + destruct (Quit i); split; [|left| |left]; first [exact Hm | reflexivity].
    + split; [|left]; reflexivity.
  - destruct (Loader.reloadingRef h); [split; [|left]; reflexivity|].
    destruct (doCleanup_fields (Loader.set_reloadingRef true h))
      as [Hu [_ [_ [_ [_ [_ [_ [Hm _]]]]]]]].
    split; [exact Hm | right; left; exact Hu].
  - destruct (Loader.settle_timer h); split; try reflexivity; left; reflexivity.
Qed.

Lemma identified_incl l l' : incl l l' -> identified l' -> identified l.
Proof. intros Hi Hl i j Hin Hjn. apply Hl; apply Hi; assumption. Qed.

(** An unmounted component renders no more: the bridge stays as it is. *)
Lemma unmount_leaves_the_bridge page :
  snd (UnityGame.step Loader.Unmount page) = snd page.
Proof.
  destruct page as [h w]. unfold UnityGame.step.
  rewrite (proj1 (step_mounted_instance Loader.Unmount h)).
  rewrite andb_false_r. reflexivity.
Qed.

Lemma game_step_keeps s h w seen :
  identified (seen ++ created_instances [s]) ->
  (Loader.mountedRef h = true -> unityInstance w = Loader.unityInstance h) ->
  (forall i, Loader.unityInstance h = Some i -> In i seen) ->
  page_inv w ->
  let page := UnityGame.step s (h, w) in
  (Loader.mountedRef (fst page) = true ->
   unityInstance (snd page) = Loader.unityInstance (fst page)) /\
  (forall i, Loader.unityInstance (fst page) = Some i ->
             In i (seen ++ created_instances [s])) /\
  page_inv (snd page) /\
  fst page = Loader.step s h.
Proof.
  intros Hid Hs Hseen Hinv. cbn zeta.
  destruct (step_mounted_instance s h) as [Hm Hu]. cbn zeta in Hm, Hu.
  assert (Hseen' : forall i, Loader.unityInstance (Loader.step s h) = Some i ->
                             In i (seen ++ created_instances [s])).
  { intros i Hi. apply in_or_app.
    destruct Hu as [Hu | [Hu | [id [i' [-> Hu]]]]].
    - left. apply Hseen. congruence.
    - congruence.
    - right. cbn. left. congruence. }
  unfold UnityGame.step.
  destruct (match s with Loader.Mount => true | _ => false end
            || negb (UnityGame.same_instance (Loader.unityInstance h)
                       (Loader.unityInstance (Loader.step s h)))
               && Loader.mountedRef (Loader.step s h)) eqn:E; cbn [fst snd].
  - rewrite instance_effect_sets. split; [reflexivity|]. split; [exact Hseen'|].
    split; [apply page_inv_instance_effect; exact Hinv | reflexivity].
  - split; [|split; [exact Hseen' | split; [exact Hinv | reflexivity]]].
    intros Hm'. apply orb_false_iff in E. destruct E as [Hfirst E].
    rewrite Hm', andb_true_r in E. apply negb_false_iff in E.
    assert (Hmh : Loader.mountedRef h = true).
    { rewrite Hm in Hm'. destruct s; try discriminate; exact Hm'. }
    rewrite (Hs Hmh).
    destruct (Loader.unityInstance h) as [x|] eqn:Hx,
             (Loader.unityInstance (Loader.step s h)) as [y|] eqn:Hy;
      cbn [UnityGame.same_instance] in E; try discriminate; [|reflexivity].
    apply Nat.eqb_eq in E. f_equal. apply Hid.
    + apply in_or_app. left. apply Hseen. reflexivity.
    + apply Hseen'. reflexivity.
    + exact E.
Qed.

Lemma game_run_keeps steps h w seen :
  identified (seen ++ created_instances steps) ->
  (Loader.mountedRef h = true -> unityInstance w = Loader.unityInstance h) ->
  (forall i, Loader.unityInstance h = Some i -> In i seen) ->
  page_inv w ->
  let page := UnityGame.run steps (h, w) in
  (Loader.mountedRef (fst page) = true ->
   unityInstance (snd page) = Loader.unityInstance (fst page)) /\
  page_inv (snd page) /\
  fst page = Loader.run steps h.
Proof.
  revert h w seen. unfold UnityGame.run, Loader.run.
  induction steps as [|s steps IH]; intros h w seen Hid Hs Hseen Hinv; cbn [fold_left].
  - auto.
  - assert (Hsplit : seen ++ created_instances (s :: steps) =
                     (seen ++ created_instances [s]) ++ created_instances steps).
    { unfold created_instances. cbn [flat_map]. rewrite app_nil_r. apply app_assoc. }
    rewrite Hsplit in Hid.
    assert (Hid1 : identified (seen ++ created_instances [s]))
      by (eapply identified_incl; [apply incl_appl, incl_refl | exact Hid]).
    destruct (game_step_keeps s h w seen Hid1 Hs Hseen Hinv) as [Hs' [Hseen' [Hinv' Hf]]].
    destruct (UnityGame.step s (h, w)) as [h' w'] eqn:E. cbn [fst snd] in *. subst h'.
    apply (IH _ _ (seen ++ created_instances [s])); assumption.
Qed.

(** X23.  While it is mounted, [UnityGame] keeps the bridge in step with the
    hook: after every callback, whatever their order, if the hook is mounted
    then the handle of the bridge is the instance that the hook returns, or
    there is none on either side.  Unmounting leaves the bridge as it is,
    with the instance that the hook has just quit, until the component is
    mounted again.  The hook runs as it does alone, and the registries and
    the readiness future of the bridge stay well-formed.  Instances are told
    apart by their identity, which [inst_id] stands for. *)
Theorem bridge_follows_the_hook (canvas create : bool) (steps : list Loader.Step) :
  identified (created_instances steps) ->
  let page := UnityGame.run steps (Loader.initial canvas create, initial) in
  (Loader.mountedRef (fst page) = true ->
   unityInstance (snd page) = Loader.unityInstance (fst page)) /\
  (let unmounted := UnityGame.step Loader.Unmount page in
   unityInstance (snd unmounted) = unityInstance (snd page) /\
   Loader.unityInstance (fst unmounted) = None) /\
  fst page = Loader.run steps (Loader.initial canvas create) /\
  wf (snd page) /\ bus_inv (snd page) /\ ready_inv (snd page).
Proof.
  intros Hid. cbn zeta.
  destruct (game_run_keeps steps (Loader.initial canvas create) initial [] Hid
              (fun _ => eq_refl) (fun i (E : None = Some i) => match E with end)
              page_inv_initial)
    as [Hs [Hinv Hf]].
  split; [exact Hs|]. split.
  - rewrite unmount_leaves_the_bridge. split; [reflexivity|].
    destruct (UnityGame.run steps (Loader.initial canvas create, initial)) as [h w].
    unfold UnityGame.step. rewrite (proj1 (step_mounted_instance Loader.Unmount h)).
    rewrite andb_false_r. cbn [orb fst].
    apply (doCleanup_fields (Loader.set_mountedRef false h)).
  - split; [exact Hf | exact Hinv].
Qed.

End GameFacts.

(* ===================================================================== *)
(** * UnityMessage.jslib: what the engine's two messages reach *)
(* ===================================================================== *)

Section JslibFacts.
Context {B : Builtins} {H : Host}.

(** X25.  The two functions that the engine calls never throw back into it,
    whatever the handlers do.  [NotifyReactUnityIsReady] calls every
    function registered for ['UnityReady'] once, with [null], and parses
    nothing.  [SendGameResultsToJS] parses its text once and calls every
    function registered for ['GameResult'] once with the parsed value, or
    with the text itself when it is no JSON; the subscribers of the event bus
    for ['GameResult'] get that value too, with [undefined] for meta. *)
Theorem jslib_messages_reach_the_page (w : World) (jsonStr : string) :
  wf w ->
  bus_inv w ->
  (let r := NotifyReactUnityIsReady w in
   snd r = Returns tt /\
   count is_parse (since w (fst r)) = 0 /\
   forall id, In (VFun id) (handlers_for (VStr "UnityReady") w) ->
              count (is_call (CHost id) [VNull]) (since w (fst r)) = 1) /\
  (let r := SendGameResultsToJS jsonStr w in
   let result := match JSON_parse jsonStr with
                 | Returns v => v
                 | Throws _ => VStr jsonStr
                 end in
   snd r = Returns tt /\
   count is_parse (since w (fst r)) = 1 /\
   (forall id, In (VFun id) (handlers_for (VStr "GameResult") w) ->
               count (is_call (CHost id) [result]) (since w (fst r)) = 1) /\
   (forall id, In (SubVal (VFun id)) (subscribers_for (VStr "GameResult") w) ->
               In (Call (CHost id) [result; VUndefined]) (since w (fst r)))).
Proof.
  intros Hwf Hinv. split.
  - cbn zeta. unfold NotifyReactUnityIsReady, dispatchEvent.
    set (d := VObj [("type", VStr "UnityReady"); ("payload", VNull)]).
    destruct (UnityMessage_calls d w eq_refl eq_refl) as [Hr [_ [_ Hp]]].
    split; [exact Hr|]. split; [exact Hp|].
    intros id Hin. apply (handler_called_once d w id Hwf eq_refl eq_refl Hin).
  - cbn zeta. unfold SendGameResultsToJS, dispatchEvent.
    set (d := VObj [("type", VStr "GameResult"); ("payload", VStr jsonStr)]).
    destruct (UnityMessage_calls d w eq_refl eq_refl) as [Hr [_ [Hc Hp]]].
    split; [exact Hr|]. split; [exact Hp|]. split.
    + intros id Hin. apply (handler_called_once d w id Hwf eq_refl eq_refl Hin).
    + intros id Hin. apply In_calls. rewrite Hc. unfold dispatch_calls.
      rewrite in_app_iff. right.
      eapply global_run_In_sub;
        [eapply bus_inv_installed; eauto | exact Hin | left; reflexivity].
Qed.
End JslibFacts.

(* ===================================================================== *)
(** * UnityOverlay.jsx: what the page shows *)
(* ===================================================================== *)

Section OverlayFacts.
Context {B : Builtins}.

(** X26.  What [UnityGame] shows over the canvas after every callback of
    the hook: the error box with Retry exactly when the recorded error is a
    truthy value, with its [message] if it has a truthy one and with
    [String(loadError)] otherwise; else the spinner exactly in state
    [LOADING]; else nothing.  The component's own [unityReady] has no part in
    it. *)
Theorem overlay_follows_the_hook
  (canvas create : bool) (steps : list Loader.Step) (unityReady : JsVal) :
  let h := Loader.run steps (Loader.initial canvas create) in
  game_overlay h unityReady =
    match Loader.loadError h with
    | Some e =>
        if truthy e
        then ErrorOverlay (if truthy (get e "message") then get e "message"
                           else VStr (String_ e))
        else match Loader.loadingState h with
             | Loader.LOADING => LoadingOverlay
             | _ => NoOverlay
             end
    | None =>
        match Loader.loadingState h with
        | Loader.LOADING => LoadingOverlay
        | _ => NoOverlay
        end
    end.
Proof.
  cbn zeta.
  pose proof (inv_reloading _ (loader_inv_run steps _ (loader_inv_initial canvas create)))
    as Hnr.
  unfold game_overlay, UnityOverlay, isLoading, isReady.
  set (h := Loader.run steps (Loader.initial canvas create)) in *.
  destruct (Loader.loadError h) as [e|].
  - destruct (truthy e); [reflexivity|].
    destruct (Loader.loadingState h); cbn; try reflexivity. congruence.
  - destruct (Loader.loadingState h); cbn; try reflexivity. congruence.
Qed.
End OverlayFacts.

(* ===================================================================== *)
(** * The theorems at concrete inputs *)
(* ===================================================================== *)

Lemma wf_listening : wf (Sample.listening (B := RefJson.builtins) (H := Sample.faulty)).
Proof.
  constructor; cbn.
  - repeat constructor; cbn; tauto.
  - intros k s [[= <- <-] | []]. repeat constructor; cbn; intuition discriminate.
  - repeat constructor; cbn; intuition discriminate.
  - intros o [<- | [<- | []]]; reflexivity.
  - repeat constructor; cbn; tauto.
  - intros k s [[= <- <-] | []]. repeat constructor; cbn; tauto.
  - intros k s n t h [[= <- <-] | []] [Hs | []]. discriminate.
Defined.

Lemma bus_inv_listening : bus_inv (Sample.listening (B := RefJson.builtins) (H := Sample.faulty)).
Proof. split; reflexivity. Defined.


Lemma inbound_payload_normalized_once_witness :
  let B := RefJson.builtins in
  let H := Sample.faulty in
  let w := Sample.listening in
  let norm := VObj [("score", VNum 10)] in
  let evs := since w (fst (UnityMessage (CustomEvent (Sample.game_result Sample.json_score)) w)) in
  count is_parse evs = 1 /\
  In (Call (CHost 1) [norm]) evs /\
  In (Call (CHost 2) [norm]) evs /\
  In (Call (CHost 3) [VStr "GameResult"; norm; VUndefined]) evs /\
  In (Call CForwarder [VStr "GameResult"; norm; VUndefined]) evs.
Proof.
  intros B H w norm evs.
  destruct (inbound_payload_normalized_once (B := B) (H := H) w
              (Sample.game_result Sample.json_score) eq_refl eq_refl)
    as [_ [Hp [Hh [Hg [Hf _]]]]].
  split; [exact Hp|].
  split; [apply (Hh 1); cbn; auto|].
  split; [apply (Hh 2); cbn; auto|].
  split; [apply (Hg 3); cbn; auto|].
  apply Hf. cbn. auto.
Defined.

Lemma handler_faults_are_isolated_witness :
  let B := RefJson.builtins in
  let H := Sample.faulty in
  let w := Sample.listening in
  let norm := VObj [("score", VNum 10)] in
  let d := Sample.game_result Sample.json_score in
  let evs := since w (fst (UnityMessage (CustomEvent d) w)) in
  host_fn 1 [norm] (trace w) = Throws (Error "boom") /\
  snd (UnityMessage (CustomEvent d) w) = Returns tt /\
  count (is_call (CHost 2) [norm]) evs = 1 /\
  count (is_call (CHost 3) [VStr "GameResult"; norm; VUndefined]) evs = 1 /\
  count (is_call CForwarder [VStr "GameResult"; norm; VUndefined]) evs = 1.
Proof.
  intros B H w norm d evs.
  destruct (handler_faults_are_isolated (B := B) (H := H) w d
              wf_listening eq_refl eq_refl) as [Hr [Hh [Hg Hf]]].
  split; [reflexivity|]. split; [exact Hr|].
  split; [apply (Hh 2); cbn; auto|].
  split; [apply (Hg 3); cbn; auto|].
  apply Hf. cbn. auto.
Defined.

Lemma whenReady_one_future_per_handle_witness :
  let w1 := fst (Bridge.whenReady initial) in
  let w2 := fst (Bridge.setInstance (B := RefJson.builtins) (Some (Sample.engine 7)) w1) in
  let w3 := fst (Bridge.whenReady w2) in
  exists p q,
    snd (Bridge.whenReady initial) = Returns p /\
    snd (Bridge.whenReady w2) = Returns q /\
    promise p w1 = Some Pending /\
    promise p w3 = Some (Fulfilled (Some (Sample.engine 7))) /\
    promise q w3 = Some (Fulfilled (Some (Sample.engine 7))).
Proof.
  exact (proj1 (whenReady_one_future_per_handle (B := RefJson.builtins)
                  initial (Sample.engine 7) eq_refl eq_refl)).
Defined.

Lemma forwarder_installed_iff_subscribers_witness :
  let B := RefJson.builtins in
  let H := Sample.quiet in
  let w' := fst (EventBus.subscribe (VStr "GameResult") (SubVal (VFun 1)) initial) in
  wf w' /\ bus_inv w'.
Proof.
  intros B H.
  destruct (forwarder_installed_iff_subscribers (B := B) (H := H))
    as [Hreach [Hpres _]].
  exact (proj1 (Hpres initial wf_initial (Hreach [])) (VStr "GameResult") (VFun 1)).
Defined.

Lemma once_fires_exactly_once_witness :
  let B := RefJson.builtins in
  let H := Sample.faulty in
  let d := Sample.game_result Sample.json_score in
  let w1 := fst (EventBus.once (VStr "GameResult") (VFun 1) initial) in
  let w2 := fst (dispatch_all [d; d] w1) in
  snd (dispatch_all [d; d] w1) = Returns tt /\
  count (called (COnce 0)) (since w1 w2) = 1 /\
  absent 0 w2 /\
  count (bus_call 1) (since w1 w2) = 1.
Proof.
  intros B H d.
  destruct (once_fires_exactly_once (B := B) (H := H) initial (VStr "GameResult") 1 d [d]
              wf_initial bus_inv_initial eq_refl)
    as [Hr [Hc [Ha [Hb _]]]].
  - repeat constructor.
  - split; [exact Hr|]. split; [exact Hc|]. split; [exact Ha|].
    apply Hb. intros x [].
Defined.

Lemma events_without_type_are_dropped_witness :
  let B := RefJson.builtins in
  let H := Sample.faulty in
  let w := Sample.listening in
  UnityMessage (CustomEvent (VObj [("payload", VStr Sample.json_score)])) w =
    (w, Returns tt).
Proof.
  intros B H w.
  apply (proj1 (events_without_type_are_dropped (B := B) (H := H) w)
           (CustomEvent (VObj [("payload", VStr Sample.json_score)]))).
  cbn. auto.
Defined.

Lemma unregisterHandler_removes_witness :
  let B := RefJson.builtins in
  let H := Sample.faulty in
  ~ In (VFun 1)
      (handlers_for (VStr "GameResult")
         (fst (Bridge.unregisterHandler (VStr "GameResult") (VFun 1) Sample.listening))).
Proof.
  intros B H.
  exact (proj1 (proj2 (unregisterHandler_removes (B := B) (H := H) Sample.listening
                         (VStr "GameResult") (VFun 1) wf_listening))).
Defined.

Lemma handle_without_SendMessage_loses_the_queue_witness :
  let B := RefJson.builtins in
  let H := Sample.quiet in
  let w := fst (send_all [(Sample.start_round, VUndefined)] initial) in
  let w1 := fst (Bridge.setInstance (Some (Sample.mute 7)) w) in
  queuedSends w = [Sample.start_round] /\
  deliveries (since w w1) = [] /\
  queuedSends w1 = [].
Proof.
  intros B H w.
  destruct (handle_without_SendMessage_loses_the_queue (B := B) w (Sample.mute 7)
              VNull VNull VNull eq_refl) as [_ [_ [Hd [Hq _]]]].
  split; [reflexivity|]. split; [exact Hd | exact Hq].
Defined.

Lemma setInstance_null_resolves_the_future_witness :
  let B := RefJson.builtins in
  let H := Sample.quiet in
  let w := fst (Bridge.whenReady initial) in
  promise 0 w = Some Pending /\
  promise 0 (fst (Bridge.setInstance None w)) = Some (Fulfilled None).
Proof.
  intros B H w. split; [reflexivity|].
  exact (proj1 (proj2 (proj2 (proj2 (proj2
           (setInstance_null_resolves_the_future (B := B) w 0
              (conj eq_refl eq_refl) eq_refl)))))).
Defined.

Lemma dispatch_order_witness :
  let B := RefJson.builtins in
  let H := Sample.faulty in
  let w := Sample.listening in
  let d := Sample.game_result Sample.json_score in
  let score := VObj [("score", VNum 10)] in
  calls (since w (fst (UnityMessage (CustomEvent d) w))) =
    [(CHost 1, [score]); (CHost 2, [score]);
     (CHost 3, [VStr "GameResult"; score; VUndefined]);
     (CForwarder, [VStr "GameResult"; score; VUndefined]);
     (CHost 4, [score; VUndefined])].
Proof.
  intros B H w d score.
  exact (dispatch_order (B := B) (H := H) w d wf_listening eq_refl eq_refl).
Defined.

Lemma non_functions_are_refused_witness :
  let B := RefJson.builtins in
  let H := Sample.quiet in
  EventBus.subscribe (VStr "GameResult") (SubVal (VStr "handler")) initial =
    (initial, Returns Noop).
Proof.
  intros B H.
  assert (typeof (VStr "handler") <> "function") as Hty by discriminate.
  exact (proj1 (proj2 (proj2 (proj2 (proj2 (proj2
           (non_functions_are_refused initial (VStr "GameResult")
              (VStr "handler") Hty))))))).
Defined.

Lemma non_function_handler_is_reported_witness :
  let B := RefJson.builtins in
  let H := Sample.quiet in
  let d := Sample.game_result Sample.json_score in
  let w1 := fst (Bridge.registerHandler (VStr "GameResult") (VNum 1) initial) in
  In (ConsoleError "unityBridge handler error" TypeError)
     (since w1 (fst (UnityMessage (CustomEvent d) w1))).
Proof.
  intros B H d.
  assert (typeof (VNum 1) <> "function") as Hty by discriminate.
  exact (proj1 (proj2 (proj2
           (non_function_handler_is_reported (B := B) (H := H) initial d (VNum 1)
              eq_refl eq_refl Hty)))).
Defined.

Lemma api_unsubscribe_undoes_the_registration_witness :
  let B := RefJson.builtins in
  let H := Sample.quiet in
  exists u,
    snd (Api.onMessage (ObsVal (VFun 3)) initial) = Returns u /\
    call_unsubscribe u (fst (Api.onMessage (ObsVal (VFun 3)) initial)) =
      (initial, Returns tt).
Proof.
  intros B H.
  destruct (proj2 (api_unsubscribe_undoes_the_registration initial
                     VNull (VFun 3) eq_refl wf_initial) (fun F => F))
    as [u [Hu [_ [_ Hback]]]].
  exists u. split; [exact Hu | exact Hback].
Defined.

Lemma clear_removes_the_subscribers_witness :
  let B := RefJson.builtins in
  let H := Sample.faulty in
  let w1 := fst (EventBus.clear (VStr "GameResult") Sample.listening) in
  subscribers_for (VStr "GameResult") w1 = [] /\
  handlers_for (VStr "GameResult") w1 = [VFun 1; VFun 2].
Proof.
  intros B H.
  destruct (clear_removes_the_subscribers (B := B) (H := H) Sample.listening
              (VStr "GameResult") VNull wf_listening bus_inv_listening) as [Hs _].
  split; [exact (Hs (VStr "GameResult")) | reflexivity].
Defined.

Lemma late_instance_is_quit_witness :
  let h := Loader.run Sample.overlapping_loads (Loader.initial true true) in
  let h' := Loader.step (Loader.Created 1 (Returns (Sample.engine 1))) h in
  Loader.unityInstance h' = None /\ In (CallQuit 1) (Loader.log h').
Proof.
  intros h.
  assert (In 1 (map fst (Loader.creating h))) as Hin by (cbn; auto).
  assert (Loader.loadIdRef h <> 1 \/ Loader.mountedRef h = false) as Hlate
    by (left; cbn; discriminate).
  destruct (late_instance_is_quit h 1 (Sample.engine 1) Hin Hlate) as [Hi [_ [Hq _]]].
  split; [exact Hi|]. apply Hq. discriminate.
Defined.

Lemma reload_brings_a_new_instance_witness :
  let h := Sample.loaded in
  let h1 := Loader.step Loader.Reload h in
  let h2 := Loader.step Loader.SettleTimer h1 in
  let h3 := Loader.step (Loader.ScriptLoaded 1) h2 in
  let h4 := Loader.step (Loader.Created 2 (Returns (Sample.engine 2))) h3 in
  Loader.unityInstance h = Some (Sample.engine 1) /\
  In (CallQuit 1) (Loader.log h1) /\
  Loader.unityInstance h4 = Some (Sample.engine 2) /\
  Loader.loadingState h4 = Loader.READY.
Proof.
  intros h.
  assert (loader_inv h) as Hinv
    by (apply loader_inv_run; apply loader_inv_initial).
  destruct (reload_brings_a_new_instance h (Sample.engine 2) Hinv eq_refl eq_refl eq_refl
              eq_refl) as [[_ [_ Hq]] [_ [_ [[Hi [Hs _]] _]]]].
  split; [reflexivity|]. split.
  - apply (Hq (Sample.engine 1)); [reflexivity | discriminate].
  - split; [exact Hi | exact Hs].
Defined.


Lemma jslib_messages_reach_the_page_witness :
  let B := RefJson.builtins in
  let H := Sample.faulty in
  let w := Sample.listening in
  let r := SendGameResultsToJS Sample.json_score w in
  snd r = Returns tt /\
  In (Call (CHost 4) [VObj [("score", VNum 10)]; VUndefined]) (since w (fst r)).
Proof.
  intros B H w.
  destruct (jslib_messages_reach_the_page (B := B) (H := H) w Sample.json_score
              wf_listening bus_inv_listening) as [_ [Hr [_ [_ Hs]]]].
  split; [exact Hr|]. apply (Hs 4). cbn. auto.
Defined.



Lemma bridge_follows_the_hook_witness :
  let B := RefJson.builtins in
  let steps := [Loader.Mount; Loader.ScriptLoaded 0;
                Loader.Created 1 (Returns (Sample.engine 7))] in
  let page := UnityGame.run steps (Loader.initial true true, initial) in
  identified (created_instances steps) /\
  unityInstance (snd page) = Some (Sample.engine 7) /\
  unityInstance (snd (UnityGame.step Loader.Unmount page)) = Some (Sample.engine 7) /\
  Loader.unityInstance (fst (UnityGame.step Loader.Unmount page)) = None.
Proof.
  intros B steps.
  assert (Hid : identified (created_instances steps)).
  { intros i j [<- | []] [<- | []] _. reflexivity. }
  split; [exact Hid|].
  destruct (bridge_follows_the_hook (B := B) true true steps Hid)
    as [Hs [[Hkeep Hnone] _]].
  split; [apply Hs; reflexivity|].
  split; [rewrite Hkeep; apply Hs; reflexivity | exact Hnone].
Defined.

(** ** The scenarios of the specification, evaluated *)

Section Evaluated.
#[local] Existing Instance RefJson.builtins.
#[local] Existing Instance Sample.faulty.

(** [send({userId:'user-123'}, 'JSEventManager', 'OnStartRound')] without a
handle is queued; [setInstance] then hands the serialized payload to
[SendMessage]. *)
Example start_round_is_delivered :
  let sent := Api.send (payload Sample.start_round) (objectName Sample.start_round)
              (methodName Sample.start_round) VUndefined initial in
  let w2 := fst (Bridge.setInstance (Some (Sample.engine 7)) (fst sent)) in
  snd sent = Returns true /\
  queuedSends (fst sent) = [Sample.start_round] /\
  trace w2 =
  [CallSendMessage 7 (VStr "JSEventManager") (VStr "OnStartRound")
     (VStr Sample.json_user)] /\
  queuedSends w2 = [].
Proof. vm_compute. auto. Qed.

Example normalize_json : normalize (VStr Sample.json_a) = VObj [("a", VNum 1)].
Proof. vm_compute. reflexivity. Qed.

Example normalize_not_json : normalize (VStr "not-json") = VStr "not-json".
Proof. vm_compute. reflexivity. Qed.

(** ['GameResult'] with ['{"score":10}']: the first handler throws, and all
the others are called all the same, with the parsed payload. *)
Example game_result_dispatch :
  since Sample.listening
  (fst (UnityMessage (CustomEvent (Sample.game_result Sample.json_score)) Sample.listening)) =
  let norm := VObj [("score", VNum 10)] in
  [CallJsonParse Sample.json_score;
  Call (CHost 1) [norm];
  ConsoleError "unityBridge handler error" (Error "boom");
  Call (CHost 2) [norm];
  Call (CHost 3) [VStr "GameResult"; norm; VUndefined];
  Call CForwarder [VStr "GameResult"; norm; VUndefined];
  Call (CHost 4) [norm; VUndefined]].
Proof. vm_compute. reflexivity. Qed.

(** [once] with a handler that throws, and two events. *)
Example once_with_faulty_handler :
  let d := Sample.game_result Sample.json_score in
  let w1 := fst (EventBus.once (VStr "GameResult") (VFun 1) initial) in
  let w2 := fst (dispatch_all [d; d] w1) in
  let norm := VObj [("score", VNum 10)] in
  trace w2 =
  [CallJsonParse Sample.json_score;
   Call CForwarder [VStr "GameResult"; norm; VUndefined];
   Call (COnce 0) [norm; VUndefined];
   Call (CHost 1) [norm; VUndefined];
   ConsoleError "unityEventBus handler error" (Error "boom");
   CallJsonParse Sample.json_score] /\
  subscribers w2 = [] /\ globalHandlers w2 = [] /\ _installed w2 = false.
Proof. vm_compute. auto. Qed.
End Evaluated.
